(** * Confluence storage-format editor and transcoder: a shallow embedding

    This development embeds the text-transforming core of
    [confluence_api.py] (class [ConfluenceAPI]): the table operations
    ([insert_column], [delete_column], [update_table_cell],
    [insert_table_row], [delete_table_row]), the exact-substring patch of
    [edit_page], the cell content processor, the Markdown compiler
    [markdown_to_confluence] with [_process_inline_formats], the
    decompiler [confluence_to_markdown], and around them [list_tables],
    [insert_content] and [_extract_images].

    Conventions.
    - A Python [str] is a list of characters; a character is a code point
      below 256 ([ascii]).  The character classes that Python takes from
      the Unicode database ([str.isspace], [\s], [\d], [str.lower]) are
      written out for that range.
    - Python integers are [Z]; list indexing follows Python (a negative
      index counts from the end, an index out of range raises
      [IndexError]).
    - The regular expressions of the source are kept as syntax trees, one
      per pattern string, and run by a backtracking matcher with the
      priorities of Python's [re] (leftmost match, greedy and lazy
      repetition, groups, back-references, one-character look-around).
      Where a comment quotes a pattern, a blank separates a star from a
      closing parenthesis and Q stands for the double quote.
    - The HTTP side is outside the model: an operation receives the result
      of [get_page_html] (the page's HTML, or nothing when the page does
      not exist) and yields an [outcome]: a refusal (the operation returns
      [{"success": False, "error": ...}] and [update_page_html] is never
      called), the HTML handed to [update_page_html], or a raised
      exception. *)

From Stdlib Require Import Ascii String DecimalString.
From Stdlib Require Import List ZArith Lia Bool Arith.
Import ListNotations.

Local Open Scope nat_scope.
Local Open Scope list_scope.

Definition str := list ascii.

(** A string literal as a [str]. *)
Definition L (x : string) : str := list_ascii_of_string x.

(** The newline character. *)
Definition nl : ascii := "010"%char.

(** The double quote character. *)
Definition dq : ascii := "034"%char.

(** [quoted s] is [s] between double quotes. *)
Definition quoted (s : str) : str := dq :: s ++ [dq].

(** Python exceptions the modelled code can raise. *)
Inductive exc := IndexError.

Inductive result (A : Type) :=
| Ok (a : A)
| Raise (e : exc).
Arguments Ok {A} a.
Arguments Raise {A} e.

Definition bind {A B : Type} (x : result A) (f : A -> result B) : result B :=
  match x with
  | Ok a => f a
  | Raise e => Raise e
  end.

Notation "x <- c ;; k" := (bind c (fun x => k))
  (at level 61, c at next level, right associativity).

(** ** Python string primitives *)

Module Py.

Definition code (c : ascii) : nat := nat_of_ascii c.

(** [str.isspace] (also the class [\s] of [re]) below 256. *)
Definition isspace (c : ascii) : bool :=
  let n := code c in
  ((9 <=? n) && (n <=? 13)) || ((28 <=? n) && (n <=? 32))
  || (n =? 133) || (n =? 160).

(** The class [\d] of [re] below 256. *)
Definition isdigit (c : ascii) : bool :=
  let n := code c in (48 <=? n) && (n <=? 57).

Definition lower_char (c : ascii) : ascii :=
  let n := code c in
  if ((65 <=? n) && (n <=? 90))
     || ((192 <=? n) && (n <=? 222) && negb (n =? 215))
  then ascii_of_nat (n + 32) else c.

(** [s.lower()] *)
Definition lower (s : str) : str := map lower_char s.

Fixpoint lstrip (s : str) : str :=
  match s with
  | c :: s' => if isspace c then lstrip s' else s
  | [] => []
  end.

Definition rstrip (s : str) : str := rev (lstrip (rev s)).

(** [s.strip()] *)
Definition strip (s : str) : str := rstrip (lstrip s).

(** [s.startswith(t)] *)
Fixpoint startswith (s t : str) {struct t} : bool :=
  match t, s with
  | [], _ => true
  | a :: t', c :: s' => Ascii.eqb a c && startswith s' t'
  | _ :: _, [] => false
  end.

(** [s.endswith(t)] *)
Definition endswith (s t : str) : bool := startswith (rev s) (rev t).

(** [s.find(t)]: the lowest index where [t] occurs in [s]. *)
Fixpoint find (s t : str) : option nat :=
  if startswith s t then Some 0
  else match s with
       | [] => None
       | _ :: s' => option_map S (find s' t)
       end.

(** [t in s] *)
Definition contains (s t : str) : bool :=
  match find s t with Some _ => true | None => false end.

(** [s.replace(old, new, 1)] *)
Definition replace1 (s old new : str) : str :=
  match find s old with
  | Some i => firstn i s ++ new ++ skipn (i + length old) s
  | None => s
  end.

Fixpoint replace_go (old new s : str) (skip : nat) : str :=
  match s with
  | [] => []
  | c :: s' =>
      match skip with
      | S k => replace_go old new s' k
      | O => if startswith s old
             then new ++ replace_go old new s' (length old - 1)
             else c :: replace_go old new s' 0
      end
  end.

(** [s.replace(old, new)] *)
Definition replace (s old new : str) : str :=
  match old with
  | [] => new ++ flat_map (fun c => c :: new) s
  | _ :: _ => replace_go old new s 0
  end.

(** [s.split(sep)] for a one-character separator. *)
Fixpoint split (s : str) (sep : ascii) : list str :=
  match s with
  | [] => [[]]
  | c :: s' =>
      if Ascii.eqb c sep then [] :: split s' sep
      else match split s' sep with
           | h :: t => (c :: h) :: t
           | [] => [[c]]
           end
  end.

(** [sep.join(l)] *)
Fixpoint join (sep : str) (l : list str) : str :=
  match l with
  | [] => []
  | [x] => x
  | x :: l' => x ++ sep ++ join sep l'
  end.

(** [html.escape(s)] (with [quote=True]). *)
Definition escape_char (c : ascii) : str :=
  if Ascii.eqb c "&" then L "&amp;"
  else if Ascii.eqb c "<" then L "&lt;"
  else if Ascii.eqb c ">" then L "&gt;"
  else if Ascii.eqb c dq then L "&quot;"
  else if Ascii.eqb c "'" then L "&#x27;"
  else [c].

Definition escape (s : str) : str := flat_map escape_char s.

(** [int(s)] on a string of decimal digits. *)
Definition int (s : str) : N :=
  fold_left (fun acc c => (acc * 10 + (N_of_ascii c - 48))%N) s 0%N.

(** [f"{n}"] for a non-negative integer. *)
Definition fmt (n : N) : str := L (NilZero.string_of_uint (N.to_uint n)).

(** [l[i]]; [None] stands for [IndexError]. *)
Definition index {A : Type} (l : list A) (i : Z) : option A :=
  let n := Z.of_nat (length l) in
  if (i <? 0)%Z
  then (if (i + n <? 0)%Z then None else nth_error l (Z.to_nat (i + n)))
  else nth_error l (Z.to_nat i).

(** [l[i]] as a computation. *)
Definition item {A : Type} (l : list A) (i : Z) : result A :=
  match index l i with
  | Some a => Ok a
  | None => Raise IndexError
  end.

(** [s[1:-1]] *)
Definition inner (s : str) : str := removelast (tl s).

(** [s == t] *)
Definition eqb (s t : str) : bool :=
  (length s =? length t) && startswith s t.

End Py.

(** ** Regular expressions *)

Module Re.

(** Captured groups, the latest binding of a group first. *)
Definition caps := list (nat * str).

Fixpoint lookup (cs : caps) (n : nat) : str :=
  match cs with
  | [] => []
  | (m, t) :: cs' => if n =? m then t else lookup cs' n
  end.

(** The patterns of the program repeat single characters only, so
    repetition is over a character class. *)
Inductive regex :=
| Lit (t : string)                     (* literal text *)
| Cls (p : ascii -> bool)              (* one character of a class *)
| Rep (greedy : bool) (lo : nat) (hi : option nat) (p : ascii -> bool)
| Cat (r1 r2 : regex)
| Grp (n : nat) (r : regex)            (* capturing group number n *)
| Ref (n : nat)                        (* back-reference \n *)
| Bol                                  (* ^ *)
| NotBehind (c : ascii)                (* (?<!c) *)
| NotAhead (c : ascii).                (* (?!c) *)

Fixpoint Cats (l : list regex) : regex :=
  match l with
  | [] => Lit ""
  | [r] => r
  | r :: l' => Cat r (Cats l')
  end.

(** Character classes. *)
Definition any : ascii -> bool := fun _ => true.             (* . with DOTALL *)
Definition dot : ascii -> bool :=
  fun c => negb (Ascii.eqb c nl).                             (* . *)
Definition only (a : ascii) : ascii -> bool := fun c => Ascii.eqb c a.
Definition isnt (a : ascii) : ascii -> bool :=
  fun c => negb (Ascii.eqb c a).                              (* [^a] *)
Definition among (l : string) : ascii -> bool :=
  fun c => existsb (Ascii.eqb c) (L l).                       (* [abc] *)

Definition star p := Rep true 0 None p.          (* p*  *)
Definition plus p := Rep true 1 None p.          (* p+  *)
Definition lazy_star p := Rep false 0 None p.    (* p*? *)
Definition lazy_plus p := Rep false 1 None p.    (* p+? *)
Definition opt p := Rep true 0 (Some 1) p.       (* p?  *)
Definition at_least n p := Rep true n None p.    (* p{n,} *)

Definition below (hi : option nat) (n : nat) : bool :=
  match hi with None => true | Some h => n <? h end.

Section Matcher.
Context {R : Type}.

(** What remains to be matched: the character before the position,
    the rest of the subject, the groups captured so far. *)
Definition cont := option ascii -> str -> caps -> option R.

Fixpoint lit (t : str) (prev : option ascii) (s : str) (cs : caps)
         (k : cont) : option R :=
  match t with
  | [] => k prev s cs
  | a :: t' =>
      match s with
      | c :: s' => if Ascii.eqb a c then lit t' (Some c) s' cs k else None
      | [] => None
      end
  end.

Fixpoint rep (g : bool) (p : ascii -> bool) (lo : nat) (hi : option nat)
         (n : nat) (prev : option ascii) (s : str) (cs : caps)
         (k : cont) {struct s} : option R :=
  match s with
  | c :: s' =>
      if p c && below hi n then
        if g then
          match rep g p lo hi (S n) (Some c) s' cs k with
          | Some x => Some x
          | None => if lo <=? n then k prev s cs else None
          end
        else
          match (if lo <=? n then k prev s cs else None) with
          | Some x => Some x
          | None => rep g p lo hi (S n) (Some c) s' cs k
          end
      else if lo <=? n then k prev s cs else None
  | [] => if lo <=? n then k prev s cs else None
  end.

Fixpoint run (r : regex) (prev : option ascii) (s : str) (cs : caps)
         (k : cont) : option R :=
  match r with
  | Lit t => lit (L t) prev s cs k
  | Cls p =>
      match s with
      | c :: s' => if p c then k (Some c) s' cs else None
      | [] => None
      end
  | Rep g lo hi p => rep g p lo hi 0 prev s cs k
  | Cat r1 r2 =>
      run r1 prev s cs (fun prev' s' cs' => run r2 prev' s' cs' k)
  | Grp n r1 =>
      run r1 prev s cs
          (fun prev' s' cs' =>
             k prev' s' ((n, firstn (length s - length s') s) :: cs'))
  | Ref n => lit (lookup cs n) prev s cs k
  | Bol => match prev with None => k prev s cs | Some _ => None end
  | NotBehind a =>
      match prev with
      | Some c => if Ascii.eqb c a then None else k prev s cs
      | None => k prev s cs
      end
  | NotAhead a =>
      match s with
      | c :: _ => if Ascii.eqb c a then None else k prev s cs
      | [] => k prev s cs
      end
  end.
End Matcher.

(** A match object: [m.start()], [m.group(0)] and the groups. *)
Record Match := { start : nat; text : str; groups : caps }.

Definition end_ (m : Match) : nat := start m + length (text m).

Definition group (m : Match) (n : nat) : str :=
  match n with
  | O => text m
  | S _ => lookup (groups m) n
  end.

(** A match of [r] that begins at the head of [s], which sits at offset
    [pos] and is preceded by [prev]. *)
Definition at_ (r : regex) (prev : option ascii) (s : str) (pos : nat)
  : option Match :=
  match run r prev s [] (fun _ s' cs => Some (s', cs)) with
  | Some (s', cs) =>
      Some {| start := pos;
              text := firstn (length s - length s') s;
              groups := cs |}
  | None => None
  end.

(** [re.match(r, s)] *)
Definition match_ (r : regex) (s : str) : option Match := at_ r None s 0.

Fixpoint search_go (r : regex) (prev : option ascii) (s : str) (pos : nat)
  : option Match :=
  match at_ r prev s pos with
  | Some m => Some m
  | None =>
      match s with
      | [] => None
      | c :: s' => search_go r (Some c) s' (S pos)
      end
  end.

(** [re.search(r, s)] *)
Definition search (r : regex) (s : str) : option Match :=
  search_go r None s 0.

(** The left-to-right scan shared by [re.finditer], [re.findall] and
    [re.sub]: the subject cut into the characters outside every match
    and the successive non-overlapping matches.  [skip] counts the
    characters of the current match still to pass over.  No pattern of
    the program matches the empty string; for an empty match the scan
    records it and moves on by one character. *)
Inductive piece := Keep (c : ascii) | Hit (m : Match).

Fixpoint scan (r : regex) (prev : option ascii) (s : str) (pos skip : nat)
  : list piece :=
  match s with
  | [] =>
      match skip with
      | O => match at_ r prev [] pos with
             | Some m => [Hit m]
             | None => []
             end
      | S _ => []
      end
  | c :: s' =>
      match skip with
      | S k => scan r (Some c) s' (S pos) k
      | O =>
          match at_ r prev s pos with
          | Some m =>
              match length (text m) with
              | O => Hit m :: Keep c :: scan r (Some c) s' (S pos) 0
              | S k => Hit m :: scan r (Some c) s' (S pos) k
              end
          | None => Keep c :: scan r (Some c) s' (S pos) 0
          end
      end
  end.

Definition hits (ps : list piece) : list Match :=
  flat_map (fun p => match p with Keep _ => [] | Hit m => [m] end) ps.

(** [list(re.finditer(r, s))] *)
Definition finditer (r : regex) (s : str) : list Match :=
  hits (scan r None s 0 0).

(** [re.findall(r, s)] for a pattern with exactly one group. *)
Definition findall1 (r : regex) (s : str) : list str :=
  map (fun m => group m 1) (finditer r s).

(** What a piece of the scan becomes under the replacement [f]. *)
Definition put_piece (f : Match -> str) (p : piece) : str :=
  match p with
  | Keep c => [c]
  | Hit m => f m
  end.

(** [re.sub(r, f, s)] with a replacement function (a template is the
    function that fills it in). *)
Definition sub (r : regex) (f : Match -> str) (s : str) : str :=
  flat_map (put_piece f) (scan r None s 0 0).

(** [re.sub(r, f, s)] where the replacement function may raise. *)
Fixpoint render (f : Match -> result str) (ps : list piece) : result str :=
  match ps with
  | [] => Ok []
  | Keep c :: ps' => x <- render f ps' ;; Ok (c :: x)
  | Hit m :: ps' => y <- f m ;; x <- render f ps' ;; Ok (y ++ x)
  end.

Definition sub_try (r : regex) (f : Match -> result str) (s : str)
  : result str :=
  render f (scan r None s 0 0).

End Re.

Import Re.

(** ** The patterns of the table operations *)

(** [(<table[^>]*>)(.*?)(</table>)] with [re.DOTALL] *)
Definition table_pattern : regex :=
  Cats [Grp 1 (Cats [Lit "<table"; star (isnt ">"); Lit ">"]);
        Grp 2 (lazy_star any);
        Grp 3 (Lit "</table>")].

(** [<table[^>]*>.*?</table>] with [re.DOTALL] *)
Definition table_re : regex :=
  Cats [Lit "<table"; star (isnt ">"); Lit ">"; lazy_star any; Lit "</table>"].

(** [(<tr[^>]*>)(.*?)(</tr>)] with [re.DOTALL] *)
Definition row_pattern : regex :=
  Cats [Grp 1 (Cats [Lit "<tr"; star (isnt ">"); Lit ">"]);
        Grp 2 (lazy_star any);
        Grp 3 (Lit "</tr>")].

(** [<tr[^>]*>(.*?)</tr>] with [re.DOTALL] *)
Definition row_re1 : regex :=
  Cats [Lit "<tr"; star (isnt ">"); Lit ">"; Grp 1 (lazy_star any); Lit "</tr>"].

(** [<tr[^>]*>.*?</tr>] with [re.DOTALL] *)
Definition row_re : regex :=
  Cats [Lit "<tr"; star (isnt ">"); Lit ">"; lazy_star any; Lit "</tr>"].

(** [(<t[hd][^>]*>)(.*?)(</t[hd]>)] with [re.DOTALL] *)
Definition cell_pattern : regex :=
  Cats [Grp 1 (Cats [Lit "<t"; Cls (among "hd"); star (isnt ">"); Lit ">"]);
        Grp 2 (lazy_star any);
        Grp 3 (Cats [Lit "</t"; Cls (among "hd"); Lit ">"])].

(** [<t[hd][^>]*>.*?</t[hd]>] with [re.DOTALL] *)
Definition cell_re : regex :=
  Cats [Lit "<t"; Cls (among "hd"); star (isnt ">"); Lit ">";
        lazy_star any; Lit "</t"; Cls (among "hd"); Lit ">"].

(** [<(t[hd])([^>]* )>(.*?)</\1>] with [re.DOTALL] *)
Definition cell_tag_re : regex :=
  Cats [Lit "<"; Grp 1 (Cats [Lit "t"; Cls (among "hd")]);
        Grp 2 (star (isnt ">")); Lit ">";
        Grp 3 (lazy_star any); Lit "</"; Ref 1; Lit ">"].

(** [colspan=Q(\d+)Q], writing Q for the double quote *)
Definition colspan_re : regex :=
  Cats [Lit "colspan="; Cls (only dq); Grp 1 (plus Py.isdigit); Cls (only dq)].

(** [name=Q([^Q]* )Q], for [style], [class] and [data-highlight-colour]. *)
Definition attr_re (name : string) : regex :=
  Cats [Lit name; Lit "="; Cls (only dq); Grp 1 (star (isnt dq)); Cls (only dq)].

(** [<tbody[^>]*>] *)
Definition tbody_re : regex := Cats [Lit "<tbody"; star (isnt ">"); Lit ">"].

(** [<table[^>]*>] *)
Definition table_tag_re : regex := Cats [Lit "<table"; star (isnt ">"); Lit ">"].

(** ** Results of an operation *)

Inductive error :=
| PageNotFound
| TableIndexOutOfRange (table_index : Z)
| RowIndexOutOfRange (row_index : Z) (rows : nat)
| RowPositionOutOfRange (row_position : Z) (rows : nat)
| ColumnIndexOutOfRange (column_index : Z) (cells : nat)
| MergedCells       (* the row has merged cells (colspan/rowspan) *)
| RowspanCells      (* the row has a row-spanning cell (rowspan) *)
| NoMatch.          (* the fragment to replace was not found *)

Inductive outcome :=
| Refused (e : error)
| Update (new_html : str)
| Raised (e : exc).

(** [len(l)] as a Python integer. *)
Definition len {A : Type} (l : list A) : Z := Z.of_nat (length l).

(** [m.group(1) if m else ""] *)
Definition group1_or_empty (m : option Match) : str :=
  match m with
  | Some m => group m 1
  | None => []
  end.

(** ** The cell content processor *)

(** [\[image:([^\]]+)\]] *)
Definition image_pattern : regex :=
  Cats [Lit "[image:"; Grp 1 (plus (isnt "]")); Lit "]"].

(** [!\[([^\]]* )\]\(([^)]+)\)] *)
Definition md_image_re : regex :=
  Cats [Lit "!["; Grp 1 (star (isnt "]")); Lit "]("; Grp 2 (plus (isnt ")"));
        Lit ")"].

(** [\*\*(.+?)\*\*] *)
Definition bold_re : regex := Cats [Lit "**"; Grp 1 (lazy_plus dot); Lit "**"].

(** [__(.+?)__] *)
Definition bold_underscore_re : regex :=
  Cats [Lit "__"; Grp 1 (lazy_plus dot); Lit "__"].

(** [(?<!\* )\*(?!\* )(.+?)(?<!\* )\*(?!\* )] *)
Definition cell_italic_re : regex :=
  Cats [NotBehind "*"; Lit "*"; NotAhead "*"; Grp 1 (lazy_plus dot);
        NotBehind "*"; Lit "*"; NotAhead "*"].

(** [`([^`]+)`] *)
Definition code_re : regex := Cats [Lit "`"; Grp 1 (plus (isnt "`")); Lit "`"].

(** [\[([^\]]+)\]\(([^)]+)\)] *)
Definition link_re : regex :=
  Cats [Lit "["; Grp 1 (plus (isnt "]")); Lit "]("; Grp 2 (plus (isnt ")"));
        Lit ")"].

(** The templates [<strong>\1</strong>] and the like. *)
Definition wrap1 (open close : string) (m : Match) : str :=
  L open ++ group m 1 ++ L close.

(** [<a href=Q\2Q>\1</a>] *)
Definition link_template (m : Match) : str :=
  L "<a href=" ++ quoted (group m 2) ++ L ">" ++ group m 1 ++ L "</a>".

Definition replace_image (m : Match) : str :=
  let filename := group m 1 in
  L "<ac:image><ri:attachment ri:filename=" ++ quoted (Py.escape filename)
    ++ L "/></ac:image>".

Definition replace_md_image (m : Match) : str :=
  let filename := group m 2 in
  if negb (Py.startswith filename (L "http"))
  then L "<ac:image><ri:attachment ri:filename=" ++ quoted (Py.escape filename)
         ++ L "/></ac:image>"
  else L "<img src=" ++ quoted (Py.escape filename) ++ L "/>".

Definition _process_cell_content (content : str) : str :=
  let processed := sub image_pattern replace_image content in
  let processed := sub md_image_re replace_md_image processed in
  let processed := sub bold_re (wrap1 "<strong>" "</strong>") processed in
  let processed :=
    sub bold_underscore_re (wrap1 "<strong>" "</strong>") processed in
  let processed := sub cell_italic_re (wrap1 "<em>" "</em>") processed in
  if Py.startswith (Py.strip processed) (L "<") then processed
  else
    let processed := sub code_re (wrap1 "<code>" "</code>") processed in
    let processed := sub link_re link_template processed in
    processed.

(** ** Table operations *)

(** [process_row] of [insert_column]: the replacement of one row. *)
Definition insert_column_process_row
           (column_position : Z) (column_name default_value : str)
           (header_style : option str) (row_match : Match) : result str :=
  let row_tag := group row_match 1 in
  let row_content := group row_match 2 in
  let row_end := group row_match 3 in
  let cells := finditer cell_pattern row_content in
  match cells with
  | [] => Ok (group row_match 0)
  | cell0 :: _ =>
      let first_cell_tag := group cell0 1 in
      let colspan_match := search colspan_re first_cell_tag in
      match colspan_match, (len cells <=? 2)%Z with
      | Some colspan_match, true =>
          let old_colspan := Py.int (group colspan_match 1) in
          let new_colspan := (old_colspan + 1)%N in
          let new_first_cell_tag :=
            Py.replace first_cell_tag
                       (L "colspan=" ++ quoted (Py.fmt old_colspan))
                       (L "colspan=" ++ quoted (Py.fmt new_colspan)) in
          let new_row_content :=
            Py.replace1 row_content first_cell_tag new_first_cell_tag in
          Ok (row_tag ++ new_row_content ++ row_end)
      | _, _ =>
          let insert_pos := Z.min column_position (len cells) in
          let is_header_row := Py.contains (group cell0 1) (L "<th") in
          ref_cell <- (if (0 <? insert_pos)%Z
                       then Py.item cells (insert_pos - 1)
                       else Py.item cells 0) ;;
          let ref_cell_tag := group ref_cell 1 in
          let new_cell :=
            if is_header_row then
              let style :=
                group1_or_empty (search (attr_re "style") ref_cell_tag) in
              let style :=
                match header_style with
                | Some (c :: h) => c :: h
                | _ => style
                end in
              L "<th style=" ++ quoted style ++ L ">" ++ column_name ++ L "</th>"
            else
              let style :=
                group1_or_empty (search (attr_re "style") ref_cell_tag) in
              let cell_class :=
                group1_or_empty (search (attr_re "class") ref_cell_tag) in
              let highlight :=
                group1_or_empty
                  (search (attr_re "data-highlight-colour") ref_cell_tag) in
              L "<td"
                ++ (match cell_class with
                    | [] => []
                    | _ => L " class=" ++ quoted cell_class
                    end)
                ++ (match style with
                    | [] => []
                    | _ => L " style=" ++ quoted style
                    end)
                ++ (match highlight with
                    | [] => []
                    | _ => L " data-highlight-colour=" ++ quoted highlight
                    end)
                ++ L ">" ++ default_value ++ L "</td>" in
          new_row_content <-
            (if (insert_pos =? 0)%Z then Ok (new_cell ++ row_content)
             else if (len cells <=? insert_pos)%Z
                  then Ok (row_content ++ new_cell)
                  else
                    cell <- Py.item cells insert_pos ;;
                    let insert_point := start cell in
                    Ok (firstn insert_point row_content ++ new_cell
                          ++ skipn insert_point row_content)) ;;
          Ok (row_tag ++ new_row_content ++ row_end)
      end
  end.

Definition insert_column (page_info : option str)
           (table_index column_position : Z)
           (column_name default_value : str) (header_style : option str)
  : outcome :=
  match page_info with
  | None => Refused PageNotFound
  | Some html_content =>
      let tables := finditer table_pattern html_content in
      if (len tables <=? table_index)%Z
      then Refused (TableIndexOutOfRange table_index)
      else
        match Py.item tables table_index with
        | Raise e => Raised e
        | Ok target_table =>
            let table_start := group target_table 1 in
            let table_content := group target_table 2 in
            let table_end := group target_table 3 in
            match sub_try row_pattern
                          (insert_column_process_row
                             column_position column_name default_value
                             header_style)
                          table_content with
            | Raise e => Raised e
            | Ok new_table_content =>
                let new_table :=
                  table_start ++ new_table_content ++ table_end in
                Update (firstn (start target_table) html_content
                          ++ new_table
                          ++ skipn (end_ target_table) html_content)
            end
        end
  end.

(** [process_row] of [delete_column]. *)
Definition delete_column_process_row (column_position : Z) (row_match : Match)
  : result str :=
  let row_tag := group row_match 1 in
  let row_content := group row_match 2 in
  let row_end := group row_match 3 in
  let cells := finditer cell_re row_content in
  match cells with
  | [] => Ok (group row_match 0)
  | cell0 :: _ =>
      if (len cells <=? column_position)%Z then Ok (group row_match 0)
      else
        let first_cell := group cell0 0 in
        let colspan_match := search colspan_re first_cell in
        match colspan_match, (len cells <=? 2)%Z with
        | Some colspan_match, true =>
            let old_colspan := Py.int (group colspan_match 1) in
            if (1 <? old_colspan)%N then
              let new_first_cell :=
                Py.replace first_cell
                           (L "colspan=" ++ quoted (Py.fmt old_colspan))
                           (L "colspan=" ++ quoted (Py.fmt (old_colspan - 1)))
              in
              let new_row_content :=
                Py.replace1 row_content first_cell new_first_cell in
              Ok (row_tag ++ new_row_content ++ row_end)
            else Ok (group row_match 0)
        | _, _ =>
            target_cell <- Py.item cells column_position ;;
            let new_row_content :=
              firstn (start target_cell) row_content
                ++ skipn (end_ target_cell) row_content in
            Ok (row_tag ++ new_row_content ++ row_end)
        end
  end.

Definition delete_column (page_info : option str)
           (table_index column_position : Z) : outcome :=
  match page_info with
  | None => Refused PageNotFound
  | Some html_content =>
      let tables := finditer table_pattern html_content in
      if (len tables <=? table_index)%Z
      then Refused (TableIndexOutOfRange table_index)
      else
        match Py.item tables table_index with
        | Raise e => Raised e
        | Ok target_table =>
            let table_start := group target_table 1 in
            let table_content := group target_table 2 in
            let table_end := group target_table 3 in
            match sub_try row_pattern
                          (delete_column_process_row column_position)
                          table_content with
            | Raise e => Raised e
            | Ok new_table_content =>
                let new_table :=
                  table_start ++ new_table_content ++ table_end in
                Update (firstn (start target_table) html_content
                          ++ new_table
                          ++ skipn (end_ target_table) html_content)
            end
        end
  end.

Definition update_table_cell (page_info : option str)
           (table_index row_index column_index : Z)
           (content : str) (append : bool) : outcome :=
  match page_info with
  | None => Refused PageNotFound
  | Some html_content =>
      let tables := finditer table_re html_content in
      if (len tables <=? table_index)%Z
      then Refused (TableIndexOutOfRange table_index)
      else
        match Py.item tables table_index with
        | Raise e => Raised e
        | Ok table_match =>
            let table_html := group table_match 0 in
            let rows := finditer row_re1 table_html in
            if (len rows <=? row_index)%Z
            then Refused (RowIndexOutOfRange row_index (length rows))
            else
              match Py.item rows row_index with
              | Raise e => Raised e
              | Ok row_match =>
                  let row_html := group row_match 0 in
                  if Py.contains (Py.lower row_html) (L "colspan")
                     || Py.contains (Py.lower row_html) (L "rowspan")
                  then Refused MergedCells
                  else
                    let cells := finditer cell_tag_re row_html in
                    if (len cells <=? column_index)%Z
                    then Refused
                           (ColumnIndexOutOfRange column_index (length cells))
                    else
                      match Py.item cells column_index with
                      | Raise e => Raised e
                      | Ok cell_match =>
                          let tag := group cell_match 1 in
                          let attrs := group cell_match 2 in
                          let old_content := group cell_match 3 in
                          let new_content := _process_cell_content content in
                          let final_content :=
                            if append then old_content ++ new_content
                            else new_content in
                          let new_cell :=
                            L "<" ++ tag ++ attrs ++ L ">" ++ final_content
                              ++ L "</" ++ tag ++ L ">" in
                          let new_row_html :=
                            firstn (start cell_match) row_html ++ new_cell
                              ++ skipn (end_ cell_match) row_html in
                          let new_table_html :=
                            firstn (start row_match) table_html
                              ++ new_row_html
                              ++ skipn (end_ row_match) table_html in
                          Update (firstn (start table_match) html_content
                                    ++ new_table_html
                                    ++ skipn (end_ table_match) html_content)
                      end
              end
        end
  end.

(** The row built by [insert_table_row]. *)
Definition new_row (cell_values : list str) (is_header : bool) : str :=
  let tag := if is_header then L "th" else L "td" in
  let cells_html :=
    concat (map (fun v => L "<" ++ tag ++ L ">" ++ _process_cell_content v
                            ++ L "</" ++ tag ++ L ">")
                cell_values) in
  L "<tr>" ++ cells_html ++ L "</tr>".

(** The offset in [table_html] where [insert_table_row] puts the row. *)
Definition row_insert_pos (table_html : str) (rows : list Match)
           (row_position : Z) : result nat :=
  if (row_position =? 0)%Z then
    match rows with
    | row0 :: _ => Ok (start row0)
    | [] =>
        match search tbody_re table_html with
        | Some tbody_match => Ok (end_ tbody_match)
        | None =>
            match match_ table_tag_re table_html with
            | Some table_tag_match => Ok (end_ table_tag_match)
            | None => Ok 0
            end
        end
    end
  else if (len rows <=? row_position)%Z then
    last_row <- Py.item rows (-1) ;; Ok (end_ last_row)
  else
    row <- Py.item rows (row_position - 1) ;; Ok (end_ row).

Definition insert_table_row (page_info : option str)
           (table_index row_position : Z)
           (cell_values : list str) (is_header : bool) : outcome :=
  match page_info with
  | None => Refused PageNotFound
  | Some html_content =>
      let tables := finditer table_re html_content in
      if (len tables <=? table_index)%Z
      then Refused (TableIndexOutOfRange table_index)
      else
        match Py.item tables table_index with
        | Raise e => Raised e
        | Ok table_match =>
            let table_html := group table_match 0 in
            let rows := finditer row_re table_html in
            if (len rows <? row_position)%Z
            then Refused (RowPositionOutOfRange row_position (length rows))
            else
              match row_insert_pos table_html rows row_position with
              | Raise e => Raised e
              | Ok insert_pos =>
                  let new_table_html :=
                    firstn insert_pos table_html
                      ++ new_row cell_values is_header
                      ++ skipn insert_pos table_html in
                  Update (firstn (start table_match) html_content
                            ++ new_table_html
                            ++ skipn (end_ table_match) html_content)
              end
        end
  end.

Definition delete_table_row (page_info : option str)
           (table_index row_index : Z) : outcome :=
  match page_info with
  | None => Refused PageNotFound
  | Some html_content =>
      let tables := finditer table_re html_content in
      if (len tables <=? table_index)%Z
      then Refused (TableIndexOutOfRange table_index)
      else
        match Py.item tables table_index with
        | Raise e => Raised e
        | Ok table_match =>
            let table_html := group table_match 0 in
            let rows := finditer row_re table_html in
            if (len rows <=? row_index)%Z
            then Refused (RowIndexOutOfRange row_index (length rows))
            else
              match Py.item rows row_index with
              | Raise e => Raised e
              | Ok row_match =>
                  let row_html := group row_match 0 in
                  if Py.contains (Py.lower row_html) (L "rowspan")
                  then Refused RowspanCells
                  else
                    let new_table_html :=
                      firstn (start row_match) table_html
                        ++ skipn (end_ row_match) table_html in
                    Update (firstn (start table_match) html_content
                              ++ new_table_html
                              ++ skipn (end_ table_match) html_content)
              end
        end
  end.

(** ** The Markdown compiler *)

(** [<ac:image><ri:url ri:value=Q\2Q/></ac:image>] *)
Definition image_template (m : Match) : str :=
  L "<ac:image><ri:url ri:value=" ++ quoted (group m 2) ++ L "/></ac:image>".

(** [(?<!\* )\*([^*]+)\*(?!\* )] *)
Definition italic_re : regex :=
  Cats [NotBehind "*"; Lit "*"; Grp 1 (plus (isnt "*")); Lit "*"; NotAhead "*"].

Definition _process_inline_formats (line : str) : str :=
  let line := sub md_image_re image_template line in
  let line := sub link_re link_template line in
  let line := sub bold_re (wrap1 "<strong>" "</strong>") line in
  let line := sub italic_re (wrap1 "<em>" "</em>") line in
  let line := sub code_re (wrap1 "<code>" "</code>") line in
  line.

(** [^\d+\.\s] *)
Definition ol_item_re : regex :=
  Cats [Bol; plus Py.isdigit; Lit "."; Cls Py.isspace].

(** The local variables of [markdown_to_confluence]. *)
Record md_state := {
  html_lines : list str;
  in_code_block : bool;
  in_table : bool;
  in_list : bool;
  list_type : option str;
  code_lang : str;
  code_content : list str
}.

Definition md_init : md_state :=
  {| html_lines := []; in_code_block := false; in_table := false;
     in_list := false; list_type := None; code_lang := [];
     code_content := [] |}.

(** [html_lines.append(x)] *)
Definition emit (st : md_state) (x : str) : md_state :=
  {| html_lines := html_lines st ++ [x];
     in_code_block := in_code_block st; in_table := in_table st;
     in_list := in_list st; list_type := list_type st;
     code_lang := code_lang st; code_content := code_content st |}.

Definition set_code (st : md_state) (b : bool) (lang : str)
           (content : list str) : md_state :=
  {| html_lines := html_lines st;
     in_code_block := b; in_table := in_table st;
     in_list := in_list st; list_type := list_type st;
     code_lang := lang; code_content := content |}.

Definition set_table (st : md_state) (b : bool) : md_state :=
  {| html_lines := html_lines st;
     in_code_block := in_code_block st; in_table := b;
     in_list := in_list st; list_type := list_type st;
     code_lang := code_lang st; code_content := code_content st |}.

Definition set_list (st : md_state) (b : bool) (t : option str) : md_state :=
  {| html_lines := html_lines st;
     in_code_block := in_code_block st; in_table := in_table st;
     in_list := b; list_type := t;
     code_lang := code_lang st; code_content := code_content st |}.

(** [f"</{list_type}>"] *)
Definition close_list_tag (t : option str) : str :=
  L "</" ++ match t with Some x => x | None => L "None" end ++ L ">".

Definition is_list_type (st : md_state) (t : string) : bool :=
  match list_type st with
  | Some x => Py.eqb x (L t)
  | None => false
  end.

Definition cdata_body (content : str) : str :=
  L "<ac:plain-text-body><![CDATA[" ++ content
    ++ L "]]></ac:plain-text-body></ac:structured-macro>".

(** The macro emitted when a fenced block closes. *)
Definition fence_macro (code_lang content : str) : str :=
  if Py.eqb code_lang (L "mermaid") then
    L "<ac:structured-macro ac:name=" ++ quoted (L "mermaid-macro") ++ L ">"
      ++ cdata_body content
  else if existsb (Py.eqb code_lang) [L "plantuml"; L "uml"; L "puml"] then
    L "<ac:structured-macro ac:name=" ++ quoted (L "plantuml") ++ L ">"
      ++ cdata_body content
  else
    let lang_param :=
      match code_lang with
      | [] => []
      | _ => L "<ac:parameter ac:name=" ++ quoted (L "language") ++ L ">"
               ++ code_lang ++ L "</ac:parameter>"
      end in
    L "<ac:structured-macro ac:name=" ++ quoted (L "code") ++ L ">"
      ++ lang_param ++ cdata_body content.

Definition table_row (tag : string) (cells : list str) : str :=
  L "<tr>"
    ++ concat (map (fun c => L "<" ++ L tag ++ L ">"
                               ++ _process_inline_formats (Py.escape c)
                               ++ L "</" ++ L tag ++ L ">") cells)
    ++ L "</tr>".

(** [if not in_list or list_type != t: ...] of the list branches. *)
Definition open_list (st : md_state) (t : string) : md_state :=
  if negb (in_list st) || negb (is_list_type st t) then
    let st := if in_list st then emit st (close_list_tag (list_type st))
              else st in
    set_list (emit st (L "<" ++ L t ++ L ">")) true (Some (L t))
  else st.

(** [html_lines.append(f"<hN>{escaped_line[n:]}</hN>")] *)
Definition heading_line (st : md_state) (escaped_line : str) (n : nat)
           (tag : string) : md_state :=
  emit st (L "<" ++ L tag ++ L ">" ++ skipn n escaped_line
             ++ L "</" ++ L tag ++ L ">").

(** One iteration of the loop over the lines. *)
Definition md_step (st : md_state) (line : str) : md_state :=
  if Py.startswith (Py.strip line) (L "```") then
    if negb (in_code_block st) then
      set_code st true (Py.lower (skipn 3 (Py.strip line))) []
    else
      let content := Py.join [nl] (code_content st) in
      set_code (emit st (fence_macro (code_lang st) content))
               false [] (code_content st)
  else if in_code_block st then
    set_code st true (code_lang st) (code_content st ++ [line])
  else
    let stripped := Py.strip line in
    let is_ul_item :=
      Py.startswith stripped (L "- ") || Py.startswith stripped (L "* ") in
    let is_ol_item :=
      match match_ ol_item_re stripped with Some _ => true | None => false end in
    let st :=
      if in_list st && negb is_ul_item && negb is_ol_item
      then set_list (emit st (close_list_tag (list_type st))) false None
      else st in
    if Py.startswith stripped (L "|") && Py.endswith stripped (L "|") then
      let cells := map Py.strip (Py.split (Py.inner stripped) "|") in
      if forallb (fun c => forallb (among "-: ") c) cells then st
      else if negb (in_table st) then
        emit (emit (set_table st true) (L "<table><tbody>"))
             (table_row "th" cells)
      else emit st (table_row "td" cells)
    else
      let st :=
        if in_table st then emit (set_table st false) (L "</tbody></table>")
        else st in
      let escaped_line := Py.escape line in
      let escaped_line := _process_inline_formats escaped_line in
      match Py.strip escaped_line with
      | [] => st
      | _ :: _ =>
          if Py.startswith escaped_line (L "# ") then
            heading_line st escaped_line 2 "h1"
          else if Py.startswith escaped_line (L "## ") then
            heading_line st escaped_line 3 "h2"
          else if Py.startswith escaped_line (L "### ") then
            heading_line st escaped_line 4 "h3"
          else if Py.startswith escaped_line (L "#### ") then
            heading_line st escaped_line 5 "h4"
          else if Py.startswith escaped_line (L "##### ") then
            heading_line st escaped_line 6 "h5"
          else if Py.startswith escaped_line (L "###### ") then
            heading_line st escaped_line 7 "h6"
          else if Py.startswith escaped_line (L "&gt; ") then
            emit st (L "<blockquote><p>" ++ skipn 5 escaped_line
                       ++ L "</p></blockquote>")
          else if is_ul_item then
            let st := open_list st "ul" in
            let content := skipn 2 escaped_line in
            emit st (L "<li>" ++ content ++ L "</li>")
          else if is_ol_item then
            let st := open_list st "ol" in
            let content := sub ol_item_re (fun _ => []) escaped_line in
            emit st (L "<li>" ++ content ++ L "</li>")
          else emit st (L "<p>" ++ escaped_line ++ L "</p>")
      end.

Definition markdown_to_confluence (markdown_content : str) : str :=
  let lines := Py.split markdown_content nl in
  let st := fold_left md_step lines md_init in
  let st := if in_table st then emit st (L "</tbody></table>") else st in
  let st := if in_list st then emit st (close_list_tag (list_type st))
            else st in
  Py.join [nl] (html_lines st).

(** ** The exact-substring patch *)

(** The fragment [edit_page] puts in: [new_html] itself, or its
    compilation when it does not look like markup. *)
Definition patch_fragment (new_html : str) : str :=
  match Py.strip new_html with
  | [] => new_html
  | _ :: _ =>
      if negb (Py.startswith (Py.strip new_html) (L "<"))
      then markdown_to_confluence new_html
      else new_html
  end.

Definition edit_page (page_info : option str) (old_html new_html : str)
  : outcome :=
  match page_info with
  | None => Refused PageNotFound
  | Some current_html =>
      if negb (Py.contains current_html old_html) then Refused NoMatch
      else
        let new_html := patch_fragment new_html in
        let updated_html := Py.replace1 current_html old_html new_html in
        Update updated_html
  end.

(** ** The decompiler *)

(** [<tag[^>]*>(.*?)</tag>] with [re.DOTALL] *)
Definition element_re (tag : string) : regex :=
  Cats [Lit "<"; Lit tag; star (isnt ">"); Lit ">"; Grp 1 (lazy_star any);
        Lit "</"; Lit tag; Lit ">"].

(** [<tag>(.*?)</tag>] with [re.DOTALL] *)
Definition bare_element_re (tag : string) : regex :=
  Cats [Lit "<"; Lit tag; Lit ">"; Grp 1 (lazy_star any);
        Lit "</"; Lit tag; Lit ">"].

(** [<a[^>]*href=Q([^Q]* )Q[^>]*>(.*?)</a>] with [re.DOTALL] *)
Definition anchor_re : regex :=
  Cats [Lit "<a"; star (isnt ">"); Lit "href="; Cls (only dq);
        Grp 1 (star (isnt dq)); Cls (only dq); star (isnt ">"); Lit ">";
        Grp 2 (lazy_star any); Lit "</a>"].

(** [<ac:image[^>]*>.*?<ri:url ri:value=Q([^Q]+)Q[^>]*/?>.*?</ac:image>]
    with [re.DOTALL] *)
Definition ac_image_re : regex :=
  Cats [Lit "<ac:image"; star (isnt ">"); Lit ">"; lazy_star any;
        Lit "<ri:url ri:value="; Cls (only dq); Grp 1 (plus (isnt dq));
        Cls (only dq); star (isnt ">"); opt (only "/"); Lit ">";
        lazy_star any; Lit "</ac:image>"].

(** [</?[uo]l[^>]*>] *)
Definition list_tag_re : regex :=
  Cats [Lit "<"; opt (only "/"); Cls (among "uo"); Lit "l"; star (isnt ">");
        Lit ">"].

(** [<t[hd][^>]*>(.*?)</t[hd]>] with [re.DOTALL] *)
Definition cell_content_re : regex :=
  Cats [Lit "<t"; Cls (among "hd"); star (isnt ">"); Lit ">";
        Grp 1 (lazy_star any); Lit "</t"; Cls (among "hd"); Lit ">"].

(** [<[^>]+>] *)
Definition tag_re : regex := Cats [Lit "<"; plus (isnt ">"); Lit ">"].

(** [<ac:structured-macro[^>]*ac:name=QnameQ[^>]*>.*?<ac:plain-text-body>
    <!\[CDATA\[(.*?)\]\]></ac:plain-text-body></ac:structured-macro>]
    (one line in the source) with [re.DOTALL] *)
Definition macro_re (name : string) : regex :=
  Cats [Lit "<ac:structured-macro"; star (isnt ">"); Lit "ac:name=";
        Cls (only dq); Lit name; Cls (only dq); star (isnt ">"); Lit ">";
        lazy_star any; Lit "<ac:plain-text-body><![CDATA[";
        Grp 1 (lazy_star any);
        Lit "]]></ac:plain-text-body></ac:structured-macro>"].

(** [ac:parameter[^>]*ac:name=QlanguageQ[^>]*>([^<]+)<] *)
Definition language_re : regex :=
  Cats [Lit "ac:parameter"; star (isnt ">"); Lit "ac:name="; Cls (only dq);
        Lit "language"; Cls (only dq); star (isnt ">"); Lit ">";
        Grp 1 (plus (isnt "<")); Lit "<"].

(** [\n{3,}] *)
Definition blank_lines_re : regex := at_least 3 (only nl).

(** The rows of [convert_table], with the separator after the first. *)
Fixpoint md_rows (i : nat) (rows : list str) : list str :=
  match rows with
  | [] => []
  | row :: rows' =>
      let cells := findall1 cell_content_re row in
      let cells := map (fun c => Py.strip (sub tag_re (fun _ => []) c)) cells in
      let line := L "| " ++ Py.join (L " | ") cells ++ L " |" in
      let sep :=
        match i with
        | O => [L "|" ++ Py.join (L "|") (map (fun _ => L "---") cells)
                  ++ L "|"]
        | S _ => []
        end in
      (line :: sep) ++ md_rows (S i) rows'
  end.

Definition convert_table (m : Match) : str :=
  let table_html := group m 0 in
  let rows := findall1 row_re1 table_html in
  Py.join [nl] (md_rows 0 rows) ++ [nl].

Definition fenced (lang code : str) : str :=
  L "```" ++ lang ++ [nl] ++ code ++ [nl] ++ L "```" ++ [nl].

Definition convert_mermaid (m : Match) : str := fenced (L "mermaid") (group m 1).

Definition convert_plantuml (m : Match) : str :=
  fenced (L "plantuml") (group m 1).

Definition convert_code (m : Match) : str :=
  let lang := group1_or_empty (search language_re (group m 0)) in
  let code := group m 1 in
  fenced lang code.

(** The heading rewrite for level [i], with [hashes] the [i] sharp signs. *)
Definition convert_heading (tag hashes : string) (content : str) : str :=
  sub (element_re tag) (fun m => L hashes ++ L " " ++ group m 1 ++ [nl]) content.

Section Decompiler.

(** [html.unescape] of the Python library, with its table of the HTML
    named character references. *)
Variable unescape : str -> str.

Definition confluence_to_markdown (html_content : str) : str :=
  let content := html_content in
  let content := convert_heading "h6" "######" content in
  let content := convert_heading "h5" "#####" content in
  let content := convert_heading "h4" "####" content in
  let content := convert_heading "h3" "###" content in
  let content := convert_heading "h2" "##" content in
  let content := convert_heading "h1" "#" content in
  let content := sub (bare_element_re "strong") (wrap1 "**" "**") content in
  let content := sub (bare_element_re "b") (wrap1 "**" "**") content in
  let content := sub (bare_element_re "em") (wrap1 "*" "*") content in
  let content := sub (bare_element_re "i") (wrap1 "*" "*") content in
  let content := sub (bare_element_re "code") (wrap1 "`" "`") content in
  let content :=
    sub anchor_re
        (fun m => L "[" ++ group m 2 ++ L "](" ++ group m 1 ++ L ")")
        content in
  let content :=
    sub ac_image_re (fun m => L "![](" ++ group m 1 ++ L ")") content in
  let content :=
    sub (element_re "li") (fun m => L "- " ++ group m 1 ++ [nl]) content in
  let content := sub list_tag_re (fun _ => []) content in
  let content :=
    sub (element_re "blockquote") (fun m => L "> " ++ group m 1 ++ [nl])
        content in
  let content := sub table_re convert_table content in
  let content := sub (macro_re "mermaid-macro") convert_mermaid content in
  let content := sub (macro_re "plantuml") convert_plantuml content in
  let content := sub (macro_re "code") convert_code content in
  let content :=
    sub (element_re "p") (fun m => group m 1 ++ [nl]) content in
  let content := sub tag_re (fun _ => []) content in
  let content := unescape content in
  let content := sub blank_lines_re (fun _ => [nl; nl]) content in
  Py.strip content.

End Decompiler.

(** * Further operations of the class *)

(** ** Images of a page *)

(** [<ri:attachment ri:filename=Q([^Q]+)Q] *)
Definition attachment_pattern : regex :=
  Cats [Lit "<ri:attachment ri:filename="; Cls (only dq);
        Grp 1 (plus (isnt dq)); Cls (only dq)].

(** [<ri:url ri:value=Q([^Q]+)Q] *)
Definition url_pattern : regex :=
  Cats [Lit "<ri:url ri:value="; Cls (only dq); Grp 1 (plus (isnt dq));
        Cls (only dq)].

Inductive image_type := attachment | external.

(** An entry of the list [_extract_images] returns. *)
Record image := { filename : str; url : str; type : image_type }.

(** The suffixes by which an external image is recognised. *)
Definition image_exts : list str :=
  [L ".png"; L ".jpg"; L ".jpeg"; L ".gif"; L ".svg"].

(** [_extract_images(html_content, page_id)], with [self.base_url]. *)
Definition _extract_images (base_url html_content page_id : str)
  : list image :=
  let attachments :=
    map (fun m =>
           let filename := group m 1 in
           let download_url :=
             base_url ++ L "/download/attachments/" ++ page_id ++ L "/"
                      ++ filename in
           {| filename := filename; url := download_url;
              type := attachment |})
        (finditer attachment_pattern html_content) in
  let externals :=
    flat_map (fun m =>
                let url := group m 1 in
                if existsb (fun ext => Py.endswith (Py.lower url) ext)
                           image_exts
                then [{| filename := last (Py.split url "/") [];
                         url := url; type := external |}]
                else [])
             (finditer url_pattern html_content) in
  attachments ++ externals.

(** ** Listing the tables of a page *)

(** [<table[^>]*>(.*?)</table>] with [re.DOTALL] *)
Definition table_content_re : regex :=
  Cats [Lit "<table"; star (isnt ">"); Lit ">"; Grp 1 (lazy_star any);
        Lit "</table>"].

(** An entry of the list [list_tables] returns. *)
Record table_info := {
  index : nat;
  header_row : list str;
  row_count : nat;
  col_count : nat;
  preview : str
}.

(** The cells of the first row that has cells: the loop over [rows] with
    its [break]. *)
Fixpoint first_cells (rows : list str) : list str :=
  match rows with
  | [] => []
  | row :: rows' =>
      match findall1 cell_content_re row with
      | [] => first_cells rows'
      | cells => cells
      end
  end.

Definition table_entry (idx : nat) (table : str) : table_info :=
  let rows := findall1 row_re1 table in
  let cells := first_cells rows in
  let header_row :=
    map (fun c => firstn 30 (Py.strip (sub tag_re (fun _ => []) c))) cells in
  let col_count := length cells in
  {| index := idx;
     header_row := header_row;
     row_count := length rows;
     col_count := col_count;
     preview := Py.join (L " | ") (firstn 5 header_row)
                  ++ (if 5 <? length header_row then L "..." else []) |}.

(** [enumerate(tables)] from [idx] on. *)
Fixpoint table_entries (idx : nat) (tables : list str) : list table_info :=
  match tables with
  | [] => []
  | table :: tables' => table_entry idx table :: table_entries (S idx) tables'
  end.

Definition list_tables (page_info : option str) : list table_info :=
  match page_info with
  | None => []
  | Some html_content =>
      table_entries 0 (findall1 table_content_re html_content)
  end.

(** ** Adding content at either end of a page *)

Definition insert_content (page_info : option str) (markdown position : str)
  : outcome :=
  match page_info with
  | None => Refused PageNotFound
  | Some current_html =>
      let new_html := markdown_to_confluence markdown in
      let combined_html :=
        if Py.eqb position (L "prepend") then new_html ++ current_html
        else current_html ++ new_html in
      Update combined_html
  end.

(** * Vocabulary of the statements *)

(** [occurs_at t s i]: the fragment [t] occurs in [s] at offset [i]. *)
Definition occurs_at (t s : str) (i : nat) : Prop :=
  exists pre post, s = pre ++ t ++ post /\ length pre = i.

(** The five structural table operations as one family, each with its
    arguments after the table index. *)
Inductive table_edit :=
| InsertColumn (column_position : Z) (column_name default_value : str)
               (header_style : option str)
| DeleteColumn (column_position : Z)
| UpdateTableCell (row_index column_index : Z) (content : str) (append : bool)
| InsertTableRow (row_position : Z) (cell_values : list str) (is_header : bool)
| DeleteTableRow (row_index : Z).

(** The operation named by [e], on a page and a table index. *)
Definition run_edit (e : table_edit) (page_info : option str) (table_index : Z)
  : outcome :=
  match e with
  | InsertColumn column_position column_name default_value header_style =>
      insert_column page_info table_index column_position column_name
                    default_value header_style
  | DeleteColumn column_position =>
      delete_column page_info table_index column_position
  | UpdateTableCell row_index column_index content append =>
      update_table_cell page_info table_index row_index column_index
                        content append
  | InsertTableRow row_position cell_values is_header =>
      insert_table_row page_info table_index row_position cell_values
                       is_header
  | DeleteTableRow row_index =>
      delete_table_row page_info table_index row_index
  end.

(** [r] without its capturing groups. *)
Fixpoint ungroup (r : regex) : regex :=
  match r with
  | Cat r1 r2 => Cat (ungroup r1) (ungroup r2)
  | Grp _ r1 => ungroup r1
  | _ => r
  end.

(** [r] holds no back-reference. *)
Fixpoint ref_free (r : regex) : bool :=
  match r with
  | Cat r1 r2 => ref_free r1 && ref_free r2
  | Grp _ r1 => ref_free r1
  | Ref _ => false
  | _ => true
  end.

(** Two results of the matcher that stop at the same place. *)
Definition same_rest (x y : option (str * caps)) : Prop :=
  option_map fst x = option_map fst y.

(** Two continuations that stop at the same place whatever the groups. *)
Definition similar (k k' : @cont (str * caps)) : Prop :=
  forall p s cs cs', same_rest (k p s cs) (k' p s cs').

(** The span of a match: where it starts and what it covers. *)
Definition span (m : Match) : nat * str := (start m, text m).

(** The tables of a document, in order: where each starts and its text. *)
Definition tables (html_content : str) : list (nat * str) :=
  map span (finditer table_re html_content).

(** A page with one two-by-two table between two paragraphs. *)
Definition sample_page : str :=
  L "<p>x</p><table><tbody><tr><th>A</th><th>B</th></tr><tr><td>1</td><td>2</td></tr></tbody></table><p>y</p>".

(** [mentions w row_html]: the row's raw text, lower-cased, contains [w]. *)
Definition mentions (w : string) (row_html : str) : Prop :=
  exists i, occurs_at (L w) (Py.lower row_html) i.

(** A page whose table has a row with a cell spanning two rows. *)
Definition rowspan_page : str :=
  L "<table><tbody><tr><th>A</th><th>B</th></tr><tr><td rowspan=2>1</td><td>2</td></tr><tr><td>3</td></tr></tbody></table>".

(** A simple grid: the word is part of what a cell shows. *)
Definition colspan_text_page : str :=
  L "<table><tbody><tr><td>set ColSpan here</td><td>2</td></tr></tbody></table>".

(** A table with its header row in a [thead]. *)
Definition thead_page : str :=
  L "<table><thead><tr><th>A</th></tr></thead><tbody><tr><td>1</td></tr></tbody></table>".

(** A table of three columns under a banner row spanning them. *)
Definition banner_page : str :=
  L "<table><tbody><tr><th colspan=" ++ quoted (L "3")
    ++ L ">T</th></tr><tr><td>1</td><td>2</td><td>3</td></tr></tbody></table>".

(** The number of leading characters of [s] in the class [p]. *)
Fixpoint span_len (p : ascii -> bool) (s : str) : nat :=
  match s with
  | c :: s' => if p c then S (span_len p s') else 0
  | [] => 0
  end.

(** The number of leading newlines of [s]. *)
Definition newlines (s : str) : nat := span_len (only nl) s.

(** [runs_ok k s]: after [k] newlines, no run of newlines in [s] reaches
    three. *)
Fixpoint runs_ok (k : nat) (s : str) : bool :=
  match s with
  | [] => true
  | c :: s' =>
      if Ascii.eqb c nl then (S k <? 3) && runs_ok (S k) s'
      else runs_ok 0 s'
  end.

(** The step before the final [strip] of [confluence_to_markdown]. *)
Definition collapse_blank_lines (content : str) : str :=
  sub blank_lines_re (fun _ => [nl; nl]) content.

(** [s] begins with a whitespace character. *)
Definition leading_space (s : str) : bool :=
  match s with
  | c :: _ => Py.isspace c
  | [] => false
  end.

(** [s] ends with a whitespace character. *)
Definition trailing_space (s : str) : bool := leading_space (rev s).

(** [r] looks at no character before the position (no [^], no
    look-behind). *)
Fixpoint blind (r : regex) : bool :=
  match r with
  | Cat r1 r2 => blind r1 && blind r2
  | Grp _ r1 => blind r1
  | Bol | NotBehind _ => false
  | _ => true
  end.

(** Two continuations that agree whatever the previous character is. *)
Definition agree {R : Type} (k k' : @cont R) : Prop :=
  forall p p' s cs, k p s cs = k' p' s cs.

(** The Markdown image form around [alt] and [target]. *)
Definition md_image (alt target : str) : str :=
  L "![" ++ alt ++ L "](" ++ target ++ L ")".

(** [b] is empty or begins with a character outside the class [p]. *)
Definition fails_at_head (p : ascii -> bool) (b : str) : Prop :=
  match b with
  | c :: _ => p c = false
  | [] => True
  end.

(** The image tag of the inline processor for a target. *)
Definition image_tag (target : str) : str :=
  L "<ac:image><ri:url ri:value=" ++ quoted target ++ L "/></ac:image>".

(** The strings a pattern can cover, with the groups it records: a
    declarative reading of [run] that forgets priorities and
    look-around. *)
Inductive Matches : regex -> caps -> str -> caps -> Prop :=
| MLit t cs : Matches (Lit t) cs (L t) cs
| MCls (p : ascii -> bool) c cs : p c = true -> Matches (Cls p) cs [c] cs
| MRep g lo hi (p : ascii -> bool) m cs :
    forallb p m = true -> lo <= length m ->
    Matches (Rep g lo hi p) cs m cs
| MCat r1 r2 cs m1 cs1 m2 cs2 :
    Matches r1 cs m1 cs1 -> Matches r2 cs1 m2 cs2 ->
    Matches (Cat r1 r2) cs (m1 ++ m2) cs2
| MGrp n r cs m cs' :
    Matches r cs m cs' -> Matches (Grp n r) cs m ((n, m) :: cs')
| MRef n cs : Matches (Ref n) cs (lookup cs n) cs
| MBol cs : Matches Bol cs [] cs
| MNotBehind c cs : Matches (NotBehind c) cs [] cs
| MNotAhead c cs : Matches (NotAhead c) cs [] cs.

(** [r] consumes nothing. *)
Definition zero_width (r : regex) : bool :=
  match r with
  | Bol | NotBehind _ | NotAhead _ => true
  | _ => false
  end.

(** Every match of [r] begins with the character [c]. *)
Fixpoint leads (c : ascii) (r : regex) : bool :=
  match r with
  | Lit (String a _) => Ascii.eqb a c
  | Cat r1 r2 => leads c r1 || (zero_width r1 && leads c r2)
  | Grp _ r1 => leads c r1
  | _ => false
  end.

(** [s] holds none of the characters of [chars]. *)
Definition free_of (chars : string) (s : str) : bool :=
  forallb (fun c => negb (among chars c)) s.

(** A state of the compiler outside any code block, list or table. *)
Definition idle (st : md_state) : Prop :=
  in_code_block st = false /\ in_list st = false /\ in_table st = false.

(** [line] opens or closes a fenced block. *)
Definition is_fence (line : str) : bool :=
  Py.startswith (Py.strip line) (L "```").

(** The number of lines of [ls] that are exactly [t]. *)
Definition count_line (t : string) (ls : list str) : nat :=
  length (filter (fun x => Py.eqb x (L t)) ls).

(** The lines that [markdown_to_confluence] joins with newlines. *)
Definition compiled_lines (markdown_content : str) : list str :=
  let lines := Py.split markdown_content nl in
  let st := fold_left md_step lines md_init in
  let st := if in_table st then emit st (L "</tbody></table>") else st in
  let st := if in_list st then emit st (close_list_tag (list_type st))
            else st in
  html_lines st.

(** A line that is none of the six wrapper lines of lists and tables. *)
Definition neutral (x : str) : Prop :=
  forall t,
    In t ["<ul>"; "</ul>"; "<ol>"; "</ol>"; "<table><tbody>";
          "</tbody></table>"]%string ->
    Py.eqb x (L t) = false.

(** 1 when the condition holds, else 0. *)
Definition one_if (b : bool) : nat := if b then 1 else 0.

(** What the loop of the compiler keeps true: each kind of wrapper has
    been opened once more than closed exactly when the state is inside
    it, and the kind of an open list is [ul] or [ol]. *)
Definition balanced (st : md_state) : Prop :=
  count_line "<ul>" (html_lines st)
  = count_line "</ul>" (html_lines st)
    + one_if (in_list st && is_list_type st "ul")
  /\ count_line "<ol>" (html_lines st)
     = count_line "</ol>" (html_lines st)
       + one_if (in_list st && is_list_type st "ol")
  /\ count_line "<table><tbody>" (html_lines st)
     = count_line "</tbody></table>" (html_lines st) + one_if (in_table st)
  /\ (in_list st = true ->
      list_type st = Some (L "ul") \/ list_type st = Some (L "ol")).

(** One line of text that neither [html.escape] nor the inline processor
    changes. *)
Definition plain_text (s : str) : bool :=
  free_of "![*`&<>'" s && forallb (isnt dq) s && forallb (isnt nl) s.

(** The tag of a heading of level [n]. *)
Definition heading_tag (n : nat) : str := L "h" ++ Py.fmt (N.of_nat n).

(** The first character of [s] opens no block: it is no whitespace, no
    sharp, bar or dash, and no digit. *)
Definition opens_paragraph (s : str) : bool :=
  match s with
  | c :: _ =>
      negb (Py.isspace c) && negb (among "#|-" c) && negb (Py.isdigit c)
  | [] => false
  end.

(** A page with an attachment image and an external image. *)
Definition images_page : str :=
  L "<p><ac:image><ri:url ri:value=" ++ quoted (L "http://h/a/Logo.PNG")
    ++ L "/></ac:image><ac:image><ri:attachment ri:filename="
    ++ quoted (L "shot.png") ++ L "/></ac:image></p>".

(** A fenced block of two lines, and the same without its closing
    fence after a title. *)
Definition fenced_markdown : str :=
  L "```py" ++ [nl] ++ L "a < b" ++ [nl] ++ L "**c**" ++ [nl] ++ L "```".

Definition unclosed_markdown : str :=
  L "# T" ++ [nl] ++ L "```py" ++ [nl] ++ L "a < b".

(** The text [confluence_to_markdown] holds after [html.unescape], before
    its last two steps. *)
Definition rewritten (unescape : str -> str) (html_content : str) : str :=
  let content := html_content in
  let content := convert_heading "h6" "######" content in
  let content := convert_heading "h5" "#####" content in
  let content := convert_heading "h4" "####" content in
  let content := convert_heading "h3" "###" content in
  let content := convert_heading "h2" "##" content in
  let content := convert_heading "h1" "#" content in
  let content := sub (bare_element_re "strong") (wrap1 "**" "**") content in
  let content := sub (bare_element_re "b") (wrap1 "**" "**") content in
  let content := sub (bare_element_re "em") (wrap1 "*" "*") content in
  let content := sub (bare_element_re "i") (wrap1 "*" "*") content in
  let content := sub (bare_element_re "code") (wrap1 "`" "`") content in
  let content :=
    sub anchor_re
        (fun m => L "[" ++ group m 2 ++ L "](" ++ group m 1 ++ L ")")
        content in
  let content :=
    sub ac_image_re (fun m => L "![](" ++ group m 1 ++ L ")") content in
  let content :=
    sub (element_re "li") (fun m => L "- " ++ group m 1 ++ [nl]) content in
  let content := sub list_tag_re (fun _ => []) content in
  let content :=
    sub (element_re "blockquote") (fun m => L "> " ++ group m 1 ++ [nl])
        content in
  let content := sub table_re convert_table content in
  let content := sub (macro_re "mermaid-macro") convert_mermaid content in
  let content := sub (macro_re "plantuml") convert_plantuml content in
  let content := sub (macro_re "code") convert_code content in
  let content :=
    sub (element_re "p") (fun m => group m 1 ++ [nl]) content in
  let content := sub tag_re (fun _ => []) content in
  unescape content.

(** Every run of three or more newlines cut down to two: the text with
    each newline left out that has two newlines or more directly before
    it.  [k] counts the newlines directly before [s]. *)
Fixpoint squeeze (k : nat) (s : str) : str :=
  match s with
  | [] => []
  | c :: s' =>
      if Ascii.eqb c nl
      then (if k <? 2 then nl :: squeeze (S k) s' else squeeze (S k) s')
      else c :: squeeze 0 s'
  end.

(** [recognised r s i]: the scan of [re.sub] ([re.finditer]) for [r]
    over [s] finds a match that begins at offset [i]. *)
Definition recognised (r : regex) (s : str) (i : nat) : Prop :=
  exists m, In m (finditer r s) /\ start m = i.

(** [line] is taken for a table row by [markdown_to_confluence]. *)
Definition is_table_row (line : str) : bool :=
  Py.startswith (Py.strip line) (L "|") && Py.endswith (Py.strip line) (L "|").

(** [o] is no result. *)
Definition fails {A : Type} (o : option A) : bool :=
  match o with
  | None => true
  | Some _ => false
  end.

(** * Properties *)

(** ** Facts on the string primitives *)

Lemma startswith_iff (s t : str) :
  Py.startswith s t = true <-> exists post, s = t ++ post.
Proof.
  revert s; induction t as [|a t IH]; intros s; simpl.
  - split; [exists s; reflexivity | reflexivity].
  - destruct s as [|c s].
    + split; [discriminate | intros [post H]; discriminate].
    + rewrite andb_true_iff, Ascii.eqb_eq, IH. split.
      * intros [-> [post ->]]. exists post. reflexivity.
      * intros [post H]. injection H as -> ->. split; [reflexivity|].
        exists post. reflexivity.
Qed.

Lemma startswith_false (s t post : str) :
  Py.startswith s t = false -> s <> t ++ post.
Proof.
  intros H E. assert (Py.startswith s t = true) as H'.
  { apply startswith_iff. exists post. exact E. }
  congruence.
Qed.

Lemma find_some (s t : str) (i : nat) :
  Py.find s t = Some i ->
  occurs_at t s i /\ forall j, j < i -> ~ occurs_at t s j.
Proof.
  revert i; induction s as [|c s IH]; intros i; simpl.
  - destruct (Py.startswith [] t) eqn:E; [|discriminate].
    intros [= <-]. split; [|intros j Hj; lia].
    apply startswith_iff in E as [post E]. exists [], post. auto.
  - destruct (Py.startswith (c :: s) t) eqn:E.
    + intros [= <-]. split; [|intros j Hj; lia].
      apply startswith_iff in E as [post E]. exists [], post. auto.
    + destruct (Py.find s t) as [i'|] eqn:F; [|discriminate].
      simpl. intros [= <-]. destruct (IH i' eq_refl) as [[pre [post [E1 E2]]] Hmin].
      split.
      * exists (c :: pre), post. simpl. split; [congruence | lia].
      * intros j Hj [pre' [post' [E3 E4]]].
        destruct pre' as [|c' pre'].
        -- simpl in E3. exact (startswith_false _ _ _ E E3).
        -- simpl in E3, E4. injection E3 as <- E3.
           apply (Hmin (length pre')); [lia|].
           exists pre', post'. auto.
Qed.

Lemma find_none (s t : str) :
  Py.find s t = None -> forall i, ~ occurs_at t s i.
Proof.
  induction s as [|c s IH]; simpl.
  - destruct (Py.startswith [] t) eqn:E; [discriminate|].
    intros _ i [pre [post [E1 _]]]. destruct pre; [|discriminate].
    exact (startswith_false _ _ _ E E1).
  - destruct (Py.startswith (c :: s) t) eqn:E; [discriminate|].
    destruct (Py.find s t) eqn:F; [discriminate|].
    intros _ i [pre [post [E1 E2]]]. destruct pre as [|c' pre].
    + exact (startswith_false _ _ _ E E1).
    + injection E1 as <- E1. apply (IH eq_refl (length pre)).
      exists pre, post. auto.
Qed.

Lemma contains_true (s t : str) :
  Py.contains s t = true <-> exists i, occurs_at t s i.
Proof.
  unfold Py.contains. destruct (Py.find s t) as [i|] eqn:F.
  - split; [|reflexivity]. intros _. exists i. apply (find_some _ _ _ F).
  - split; [discriminate|]. intros [i H]. exfalso.
    exact (find_none _ _ F i H).
Qed.

Lemma contains_false (s t : str) :
  Py.contains s t = false <-> forall i, ~ occurs_at t s i.
Proof.
  split.
  - intros H i Hi. assert (Py.contains s t = true) by (apply contains_true; eauto).
    congruence.
  - intros H. destruct (Py.contains s t) eqn:E; [|reflexivity].
    apply contains_true in E as [i Hi]. exfalso. exact (H i Hi).
Qed.

(** A slice around a located span. *)
Lemma slice_span {A : Type} (pre mid post : list A) :
  firstn (length pre) (pre ++ mid ++ post) = pre
  /\ skipn (length pre + length mid) (pre ++ mid ++ post) = post.
Proof.
  split.
  - rewrite firstn_app, Nat.sub_diag, firstn_all. simpl. apply app_nil_r.
  - rewrite app_assoc, <- length_app. rewrite skipn_app, Nat.sub_diag.
    rewrite skipn_all. reflexivity.
Qed.

Lemma index_some {A : Type} (l : list A) (i : Z) (a : A) :
  Py.index l i = Some a -> (i < len l)%Z /\ In a l.
Proof.
  unfold Py.index, len. intros H.
  destruct (i <? 0)%Z eqn:E1.
  - apply Z.ltb_lt in E1. split; [lia|].
    destruct (i + Z.of_nat (length l) <? 0)%Z; [discriminate|].
    eapply nth_error_In; eauto.
  - apply Z.ltb_ge in E1. split; [|eapply nth_error_In; eauto].
    assert (Z.to_nat i < length l) by (apply nth_error_Some; congruence).
    lia.
Qed.

Lemma index_nonneg {A : Type} (l : list A) (i : Z) :
  (0 <= i)%Z -> Py.index l i = nth_error l (Z.to_nat i).
Proof.
  intros H. unfold Py.index. destruct (i <? 0)%Z eqn:E; [|reflexivity].
  apply Z.ltb_lt in E. lia.
Qed.

Lemma item_ok {A : Type} (l : list A) (i : Z) (a : A) :
  Py.item l i = Ok a <-> Py.index l i = Some a.
Proof.
  unfold Py.item. destruct (Py.index l i); split; congruence.
Qed.

(** ** Facts on the matcher *)

Module ReFacts.

Section Inversion.
Context {R : Type}.

Lemma lit_inv (t : str) prev s cs (k : @cont R) x :
  lit t prev s cs k = Some x ->
  exists prev' s', s = t ++ s' /\ k prev' s' cs = Some x.
Proof.
  revert prev s; induction t as [|a t IH]; intros prev s; simpl.
  - intros H. exists prev, s. auto.
  - destruct s as [|c s]; [discriminate|].
    destruct (Ascii.eqb a c) eqn:E; [|discriminate].
    apply Ascii.eqb_eq in E as ->. intros H.
    destruct (IH _ _ H) as [prev' [s' [-> Hk]]]. exists prev', s'. auto.
Qed.

Lemma rep_inv g p lo hi n prev s cs (k : @cont R) x :
  rep g p lo hi n prev s cs k = Some x ->
  exists prev' m s',
    s = m ++ s' /\ forallb p m = true /\ k prev' s' cs = Some x.
Proof.
  assert (stop : forall prev s,
             (if lo <=? n then k prev s cs else None) = Some x ->
             exists prev' m s',
               s = m ++ s' /\ forallb p m = true /\ k prev' s' cs = Some x).
  { intros prev0 s0 H. destruct (lo <=? n); [|discriminate].
    exists prev0, [], s0. auto. }
  revert n prev stop; induction s as [|c s IH]; intros n prev stop; simpl.
  - apply stop.
  - destruct (p c && below hi n) eqn:E; [|apply stop].
    apply andb_true_iff in E as [Ep _].
    assert (more : rep g p lo hi (S n) (Some c) s cs k = Some x ->
                   exists prev' m s',
                     c :: s = m ++ s' /\ forallb p m = true
                     /\ k prev' s' cs = Some x).
    { intros H.
      destruct (IH (S n) (Some c)) as [prev' [m [s' [-> [Hm Hk]]]]].
      - intros prev0 s0 H0. destruct (lo <=? S n); [|discriminate].
        exists prev0, [], s0. auto.
      - exact H.
      - exists prev', (c :: m), s'. simpl. rewrite Ep. auto. }
    destruct g.
    + destruct (rep true p lo hi (S n) (Some c) s cs k) eqn:E1.
      * intros [= <-]. apply more. reflexivity.
      * apply stop.
    + destruct (if lo <=? n then k prev (c :: s) cs else None) eqn:E1.
      * intros [= <-]. apply (stop prev (c :: s)). exact E1.
      * apply more.
Qed.

Lemma run_inv (r : regex) prev s cs (k : @cont R) x :
  run r prev s cs k = Some x ->
  exists prev' m s' cs', s = m ++ s' /\ k prev' s' cs' = Some x.
Proof.
  revert prev s cs k; induction r; intros prev s cs k; simpl.
  - intros H. apply lit_inv in H as [prev' [s' [-> Hk]]].
    exists prev', (L t), s', cs. auto.
  - destruct s as [|c s]; [discriminate|].
    destruct (p c); [|discriminate]. intros H.
    exists (Some c), [c], s, cs. auto.
  - intros H. apply rep_inv in H as [prev' [m [s' [-> [_ Hk]]]]].
    exists prev', m, s', cs. auto.
  - intros H. apply IHr1 in H as [prev1 [m1 [s1 [cs1 [-> H]]]]].
    apply IHr2 in H as [prev2 [m2 [s2 [cs2 [-> H]]]]].
    exists prev2, (m1 ++ m2), s2, cs2. rewrite app_assoc. auto.
  - intros H. apply IHr in H as [prev' [m [s' [cs' [-> H]]]]].
    exists prev', m, s'. eexists. split; [reflexivity | exact H].
  - intros H. apply lit_inv in H as [prev' [s' [-> Hk]]].
    exists prev', (lookup cs n), s', cs. auto.
  - destruct prev; [discriminate|]. intros H. exists None, [], s, cs. auto.
  - intros H. exists prev, [], s, cs. split; [reflexivity|].
    destruct prev as [c0|]; [destruct (Ascii.eqb c0 c); [discriminate|]|];
      exact H.
  - intros H. exists prev, [], s, cs. split; [reflexivity|].
    destruct s as [|c0 s]; [|destruct (Ascii.eqb c0 c); [discriminate|]];
      exact H.
Qed.
End Inversion.

Lemma firstn_sub_app {A : Type} (m s : list A) :
  firstn (length (m ++ s) - length s) (m ++ s) = m.
Proof.
  rewrite length_app, Nat.add_sub.
  rewrite firstn_app, Nat.sub_diag, firstn_all. simpl. apply app_nil_r.
Qed.

(** A match found at a position is a prefix of the text there. *)
Lemma at_inv r prev s pos m :
  at_ r prev s pos = Some m ->
  start m = pos /\ exists rest, s = text m ++ rest.
Proof.
  unfold at_.
  destruct (run r prev s [] (fun _ s' cs => Some (s', cs)))
    as [[s' cs]|] eqn:E; [|discriminate].
  intros [= <-]. simpl. split; [reflexivity|].
  apply run_inv in E as [_ [m0 [s0 [cs0 [-> [= <- <-]]]]]].
  rewrite firstn_sub_app. exists s0. reflexivity.
Qed.

(** Every match of a scan is a span of the subject. *)
Lemma scan_hit r s : forall prev pos skip m,
  In (Hit m) (scan r prev s pos skip) ->
  exists pre post, s = pre ++ text m ++ post /\ start m = pos + length pre.
Proof.
  induction s as [|c s IH]; intros prev pos skip m; simpl.
  - destruct skip; [|intros []].
    destruct (at_ r prev [] pos) as [m0|] eqn:E; [|intros []].
    intros [[= ->]|[]]. apply at_inv in E as [E1 [rest E2]].
    exists [], rest. simpl. split; [exact E2 | lia].
  - assert (later : forall prev' skip',
               In (Hit m) (scan r prev' s (S pos) skip') ->
               exists pre post,
                 c :: s = pre ++ text m ++ post
                 /\ start m = pos + length pre).
    { intros prev' skip' H. apply IH in H as [pre [post [-> E]]].
      exists (c :: pre), post. simpl. split; [reflexivity | lia]. }
    destruct skip as [|k]; [|apply later].
    destruct (at_ r prev (c :: s) pos) as [m0|] eqn:E.
    + assert (here : Hit m0 = Hit m ->
                     exists pre post,
                       c :: s = pre ++ text m ++ post
                       /\ start m = pos + length pre).
      { intros [= ->]. apply at_inv in E as [E1 [rest E2]].
        exists [], rest. simpl. split; [exact E2 | lia]. }
      destruct (length (text m0)).
      * intros [H|[H|H]]; [apply here, H | discriminate | eapply later, H].
      * intros [H|H]; [apply here, H | eapply later, H].
    + intros [H|H]; [discriminate | eapply later, H].
Qed.

Lemma in_hits m ps : In m (hits ps) <-> In (Hit m) ps.
Proof.
  unfold hits. rewrite in_flat_map. split.
  - intros [[c|m'] [H1 H2]]; simpl in H2; [contradiction|].
    destruct H2 as [->|[]]. exact H1.
  - intros H. exists (Hit m). simpl. auto.
Qed.

(** Each match returned by [finditer] is a span of the subject, with
    [start] and [end_] its bounds. *)
Lemma finditer_span r s m :
  In m (finditer r s) ->
  exists pre post,
    s = pre ++ text m ++ post /\ length pre = start m
    /\ firstn (start m) s = pre /\ skipn (end_ m) s = post.
Proof.
  unfold finditer. rewrite in_hits. intros H.
  apply scan_hit in H as [pre [post [E1 E2]]]. simpl in E2.
  exists pre, post. split; [exact E1|]. split; [auto|].
  unfold end_. rewrite E2. subst s. apply slice_span.
Qed.

End ReFacts.

(** ** Groups do not move the matches *)

Lemma same_rest_orelse (a a' b b' : option (str * caps)) :
  same_rest a a' -> same_rest b b' ->
  same_rest (match a with Some x => Some x | None => b end)
            (match a' with Some x => Some x | None => b' end).
Proof.
  unfold same_rest. destruct a, a'; simpl; intros Ha Hb;
    try discriminate; assumption.
Qed.

Lemma lit_similar (t : str) (k k' : @cont (str * caps)) :
  similar k k' ->
  forall prev s cs cs', same_rest (lit t prev s cs k) (lit t prev s cs' k').
Proof.
  intros Hk. induction t as [|a t IH]; intros prev s cs cs'; simpl.
  - apply Hk.
  - destruct s as [|c s]; [reflexivity|].
    destruct (Ascii.eqb a c); [apply IH | reflexivity].
Qed.

Lemma rep_similar g p lo hi (k k' : @cont (str * caps)) :
  similar k k' ->
  forall s n prev cs cs',
    same_rest (rep g p lo hi n prev s cs k) (rep g p lo hi n prev s cs' k').
Proof.
  intros Hk.
  assert (stop : forall n prev s cs cs',
             same_rest (if lo <=? n then k prev s cs else None)
                       (if lo <=? n then k' prev s cs' else None)).
  { intros n prev s cs cs'. destruct (lo <=? n); [apply Hk | reflexivity]. }
  induction s as [|c s IH]; intros n prev cs cs'; simpl.
  - apply stop.
  - destruct (p c && below hi n); [|apply stop].
    destruct g; apply same_rest_orelse; auto.
Qed.

Lemma run_ungroup (r : regex) :
  ref_free r = true ->
  forall k k', similar k k' ->
  forall prev s cs cs',
    same_rest (run r prev s cs k) (run (ungroup r) prev s cs' k').
Proof.
  induction r; simpl; intros Hr k k' Hk prev s cs cs'; try discriminate.
  - apply lit_similar, Hk.
  - destruct s as [|c s]; [reflexivity|].
    destruct (p c); [apply Hk | reflexivity].
  - apply rep_similar, Hk.
  - apply andb_true_iff in Hr as [Hr1 Hr2].
    apply IHr1; [exact Hr1|]. intros p s0 cs0 cs0'. apply IHr2; assumption.
  - apply IHr; [exact Hr|]. intros p s0 cs0 cs0'. apply Hk.
  - destruct prev; [reflexivity | apply Hk].
  - destruct prev as [c0|]; [destruct (Ascii.eqb c0 c); [reflexivity|]|];
      apply Hk.
  - destruct s as [|c0 s]; [|destruct (Ascii.eqb c0 c); [reflexivity|]];
      apply Hk.
Qed.

Lemma at_ungroup (r : regex) prev s pos :
  ref_free r = true ->
  option_map span (at_ r prev s pos)
  = option_map span (at_ (ungroup r) prev s pos).
Proof.
  intros Hr. unfold at_.
  pose proof (run_ungroup r Hr (fun _ s' cs => Some (s', cs))
                          (fun _ s' cs => Some (s', cs))
                          ltac:(intros ? ? ? ?; reflexivity)
                          prev s [] []) as H.
  unfold same_rest in H.
  destruct (run r prev s [] _) as [[s1 cs1]|],
           (run (ungroup r) prev s [] _) as [[s2 cs2]|];
    simpl in H; try discriminate; [|reflexivity].
  injection H as ->. reflexivity.
Qed.

(** Two patterns with the same spans at every position have the same
    successive spans in a scan. *)
Lemma scan_spans (r r' : regex) :
  (forall prev s pos,
      option_map span (at_ r prev s pos) = option_map span (at_ r' prev s pos)) ->
  forall s prev pos skip,
    map span (hits (scan r prev s pos skip))
    = map span (hits (scan r' prev s pos skip)).
Proof.
  intros H. induction s as [|c s IH]; intros prev pos skip; cbn [scan].
  - destruct skip; [|reflexivity]. specialize (H prev [] pos).
    destruct (at_ r prev [] pos), (at_ r' prev [] pos);
      simpl in H; try discriminate; [|reflexivity].
    unfold hits. cbn [flat_map map app]. congruence.
  - destruct skip as [|k]; [|apply IH]. specialize (H prev (c :: s) pos).
    destruct (at_ r prev (c :: s) pos) as [m|],
             (at_ r' prev (c :: s) pos) as [m'|];
      simpl in H; try discriminate.
    + assert (span m = span m') as Hs by congruence.
      assert (text m = text m') as Ht by (unfold span in Hs; congruence).
      rewrite Ht. unfold hits in *.
      destruct (length (text m')); cbn [flat_map map app];
        rewrite Hs, IH; reflexivity.
    + unfold hits in *. cbn [flat_map map app]. apply IH.
Qed.

(** The grouped and the plain table pattern find the same tables. *)
Lemma table_patterns_agree (doc : str) :
  map span (finditer table_pattern doc) = map span (finditer table_re doc).
Proof.
  unfold finditer. apply scan_spans. intros prev s pos.
  rewrite (at_ungroup table_pattern) by reflexivity. reflexivity.
Qed.

Lemma index_map {A B : Type} (f : A -> B) (l : list A) (i : Z) :
  Py.index (map f l) i = option_map f (Py.index l i).
Proof.
  unfold Py.index. rewrite length_map.
  destruct (i <? 0)%Z; [destruct (i + _ <? 0)%Z; [reflexivity|]|];
    apply nth_error_map.
Qed.

Lemma tables_grouped (doc : str) :
  map span (finditer table_pattern doc) = tables doc.
Proof. apply table_patterns_agree. Qed.

Lemma len_tables (doc : str) :
  len (finditer table_pattern doc) = len (tables doc)
  /\ len (finditer table_re doc) = len (tables doc).
Proof.
  unfold len. rewrite <- tables_grouped at 1. unfold tables.
  rewrite !length_map. auto.
Qed.

(** ** Frame of the table operations *)

(** The splice [doc[:start] + new_table + doc[end:]] around a located
    table keeps what precedes and what follows the table. *)
Lemma splice_frame (r : regex) (doc : str) (table_index : Z) (t : Match)
      (new_table : str) :
  map span (finditer r doc) = tables doc ->
  Py.item (finditer r doc) table_index = Ok t ->
  exists pre post,
    Py.index (tables doc) table_index = Some (length pre, text t)
    /\ doc = pre ++ text t ++ post
    /\ firstn (start t) doc ++ new_table ++ skipn (end_ t) doc
       = pre ++ new_table ++ post.
Proof.
  intros Hr H. apply item_ok in H.
  destruct (index_some _ _ _ H) as [_ Hin].
  apply ReFacts.finditer_span in Hin as [pre [post [E1 [E2 [E3 E4]]]]].
  exists pre, post. rewrite E3, E4, <- Hr, index_map, H, E2. auto.
Qed.

Ltac located_table H t Et :=
  match type of H with
  | (if ?c then _ else _) = _ => destruct c; [discriminate|]
  end;
  match type of H with
  | match ?i with Ok _ => _ | Raise _ => _ end = _ =>
      destruct i as [t|] eqn:Et; [|discriminate]
  end.

Ltac framed t Hr Et :=
  let pre := fresh "pre" in
  let post := fresh "post" in
  let H1 := fresh in
  let H2 := fresh in
  let H3 := fresh in
  match goal with
  | |- context [firstn (start t) _ ++ ?x ++ skipn (end_ t) _] =>
      destruct (splice_frame _ _ _ _ x Hr Et) as [pre [post [H1 [H2 H3]]]];
      exists pre, (text t), post, x; auto
  end.

(** C1. Every structural table edit ([insert_column], [delete_column],
    [update_table_cell], [insert_table_row], [delete_table_row]) that
    hands a document to [update_page_html] hands over the input with the
    span of the targeted table replaced: the text before the table and the
    text after it are unchanged. *)
Theorem table_edit_frame (e : table_edit) (doc : str) (table_index : Z)
        (new_html : str) :
  run_edit e (Some doc) table_index = Update new_html ->
  exists (pre table post new_table : str),
    Py.index (tables doc) table_index = Some (length pre, table)
    /\ doc = pre ++ table ++ post
    /\ new_html = pre ++ new_table ++ post.
Proof.
  pose proof (tables_grouped doc) as Hg.
  pose proof (eq_refl (tables doc)) as Hp. unfold tables at 1 in Hp.
  destruct e; simpl; intros H.
  - unfold insert_column in H. located_table H t Et. cbv zeta in H.
    destruct (sub_try _ _ _) as [new_content|]; [|discriminate].
    injection H as <-. framed t Hg Et.
  - unfold delete_column in H. located_table H t Et. cbv zeta in H.
    destruct (sub_try _ _ _) as [new_content|]; [|discriminate].
    injection H as <-. framed t Hg Et.
  - unfold update_table_cell in H. located_table H t Et. cbv zeta in H.
    located_table H r Er.
    destruct (_ || _); [discriminate|].
    located_table H c Ec.
    injection H as <-. framed t Hp Et.
  - unfold insert_table_row in H. located_table H t Et. cbv zeta in H.
    destruct (_ <? _)%Z; [discriminate|].
    destruct (row_insert_pos _ _ _) as [insert_pos|]; [|discriminate].
    injection H as <-. framed t Hp Et.
  - unfold delete_table_row in H. located_table H t Et. cbv zeta in H.
    located_table H r Er.
    destruct (Py.contains _ _); [discriminate|].
    injection H as <-. framed t Hp Et.
Qed.

Lemma table_edit_frame_witness :
  exists (pre table post new_table : str),
    Py.index (tables sample_page) 0 = Some (length pre, table)
    /\ sample_page = pre ++ table ++ post
    /\ L "<p>x</p><table><tbody><tr><th>A</th><th>B</th></tr></tbody></table><p>y</p>"
       = pre ++ new_table ++ post.
Proof.
  apply (table_edit_frame (DeleteTableRow 1) sample_page 0).
  vm_compute. reflexivity.
Defined.

(** ** The exact-substring patch *)

(** C2. [edit_page] on a page [doc]: when [old] occurs nowhere in [doc]
    the result is the no-match refusal and nothing is written; when
    [doc = pre ++ old ++ post] with no occurrence of [old] starting before
    the end of [pre] (the first occurrence), the document written is
    [pre ++ fragment ++ post], everything outside that occurrence being
    kept; the fragment is [new] compiled by [markdown_to_confluence] when
    [new] trimmed is non-empty and does not start with [<], and [new]
    itself otherwise. *)
Theorem edit_page_patch (doc old new : str) :
  ((forall i, ~ occurs_at old doc i) ->
   edit_page (Some doc) old new = Refused NoMatch)
  /\ (forall pre post,
         doc = pre ++ old ++ post ->
         (forall j, j < length pre -> ~ occurs_at old doc j) ->
         edit_page (Some doc) old new
         = Update (pre ++ patch_fragment new ++ post))
  /\ patch_fragment new
     = (if (0 <? length (Py.strip new))
           && negb (Py.startswith (Py.strip new) (L "<"))
        then markdown_to_confluence new else new).
Proof.
  split; [|split].
  - intros H. unfold edit_page.
    apply contains_false in H. rewrite H. reflexivity.
  - intros pre post E Hfirst. unfold edit_page.
    assert (occurs_at old doc (length pre)) as Hocc.
    { exists pre, post. auto. }
    assert (Py.contains doc old = true) as Hc.
    { apply contains_true. eauto. }
    rewrite Hc. simpl. unfold Py.replace1.
    destruct (Py.find doc old) as [i|] eqn:F.
    + destruct (find_some _ _ _ F) as [Hi Hmin].
      assert (i = length pre) as ->.
      { destruct (Nat.lt_trichotomy i (length pre)) as [Hlt|[Heq|Hgt]].
        - exfalso. exact (Hfirst i Hlt Hi).
        - exact Heq.
        - exfalso. exact (Hmin _ Hgt Hocc). }
      subst doc. destruct (slice_span pre old post) as [-> ->]. reflexivity.
    + exfalso. exact (find_none _ _ F _ Hocc).
  - unfold patch_fragment. destruct (Py.strip new); reflexivity.
Qed.

Lemma edit_page_patch_witness :
  edit_page (Some (L "<p>old</p><p>old</p>")) (L "<p>old</p>") (L "<p>new</p>")
  = Update (L "<p>new</p><p>old</p>").
Proof.
  apply (proj1 (proj2 (edit_page_patch (L "<p>old</p><p>old</p>")
                                       (L "<p>old</p>") (L "<p>new</p>")))
               [] (L "<p>old</p>")).
  - reflexivity.
  - simpl. intros j Hj. lia.
Defined.

(** ** Merged cells *)

Lemma located {A : Type} (l : list A) (i : Z) (a : A) :
  Py.index l i = Some a ->
  (len l <=? i)%Z = false /\ Py.item l i = Ok a.
Proof.
  intros H. split.
  - apply Z.leb_gt. apply (index_some _ _ _ H).
  - apply item_ok. exact H.
Qed.

Lemma mentions_contains (w : string) (row_html : str) :
  mentions w row_html <-> Py.contains (Py.lower row_html) (L w) = true.
Proof. unfold mentions. symmetry. apply contains_true. Qed.

Lemma update_table_cell_merged doc table_index row_index column_index
      content append t r :
  Py.index (finditer table_re doc) table_index = Some t ->
  Py.index (finditer row_re1 (text t)) row_index = Some r ->
  Py.contains (Py.lower (text r)) (L "colspan")
  || Py.contains (Py.lower (text r)) (L "rowspan") = true ->
  update_table_cell (Some doc) table_index row_index column_index
                    content append
  = Refused MergedCells.
Proof.
  intros Ht Hr Hm. unfold update_table_cell.
  destruct (located _ _ _ Ht) as [-> ->]. cbv zeta. simpl group.
  destruct (located _ _ _ Hr) as [-> ->].
  rewrite Hm. reflexivity.
Qed.

Lemma update_table_cell_column doc table_index row_index column_index
      content append t r :
  Py.index (finditer table_re doc) table_index = Some t ->
  Py.index (finditer row_re1 (text t)) row_index = Some r ->
  Py.contains (Py.lower (text r)) (L "colspan")
  || Py.contains (Py.lower (text r)) (L "rowspan") = false ->
  (len (finditer cell_tag_re (text r)) <= column_index)%Z ->
  update_table_cell (Some doc) table_index row_index column_index
                    content append
  = Refused (ColumnIndexOutOfRange column_index
                                   (length (finditer cell_tag_re (text r)))).
Proof.
  intros Ht Hr Hm Hc. unfold update_table_cell.
  destruct (located _ _ _ Ht) as [-> ->]. cbv zeta. simpl group.
  destruct (located _ _ _ Hr) as [-> ->].
  rewrite Hm. apply Z.leb_le in Hc. rewrite Hc. reflexivity.
Qed.

(** C6. Merge protection.  On a located row whose raw text mentions
    [colspan] or [rowspan], [update_table_cell] yields the merged-cell
    refusal; on a located row whose raw text mentions [rowspan],
    [delete_table_row] yields the row-span refusal.  A refusal calls
    [update_page_html] never, so the page is left as it was. *)
Theorem merge_protection (doc : str) (table_index row_index : Z) (t : Match) :
  Py.index (finditer table_re doc) table_index = Some t ->
  (forall r column_index content append,
      Py.index (finditer row_re1 (text t)) row_index = Some r ->
      mentions "colspan" (text r) \/ mentions "rowspan" (text r) ->
      update_table_cell (Some doc) table_index row_index column_index
                        content append
      = Refused MergedCells)
  /\ (forall r,
         Py.index (finditer row_re (text t)) row_index = Some r ->
         mentions "rowspan" (text r) ->
         delete_table_row (Some doc) table_index row_index
         = Refused RowspanCells).
Proof.
  intros Ht. split.
  - intros r column_index content append Hr Hm.
    apply (update_table_cell_merged _ _ _ _ _ _ _ _ Ht Hr).
    rewrite !mentions_contains in Hm.
    apply orb_true_iff. exact Hm.
  - intros r Hr Hm. unfold delete_table_row.
    destruct (located _ _ _ Ht) as [-> ->]. cbv zeta. simpl group.
    destruct (located _ _ _ Hr) as [-> ->].
    apply mentions_contains in Hm. rewrite Hm. reflexivity.
Qed.

Lemma merge_protection_witness :
  update_table_cell (Some rowspan_page) 0 1 0 (L "z") false
  = Refused MergedCells
  /\ delete_table_row (Some rowspan_page) 0 1 = Refused RowspanCells.
Proof.
  destruct (merge_protection rowspan_page 0 1 _ eq_refl) as [H1 H2].
  split.
  - apply (H1 _ 0%Z (L "z") false eq_refl).
    right. apply mentions_contains. vm_compute. reflexivity.
  - apply (H2 _ eq_refl).
    apply mentions_contains. vm_compute. reflexivity.
Defined.

(** C10. The merged-cell refusal of [update_table_cell] is a
    case-insensitive substring test on the raw text of the row: a located
    row whose text holds, anywhere (inside the visible content of a cell
    as well as inside a tag), a fragment [w] that lower-cases to
    [colspan] or [rowspan] is refused, whatever the cells of the row
    are. *)
Theorem update_table_cell_refuses_word
        (doc : str) (table_index row_index column_index : Z)
        (content : str) (append : bool) (t r : Match) (pre w post : str) :
  Py.index (finditer table_re doc) table_index = Some t ->
  Py.index (finditer row_re1 (text t)) row_index = Some r ->
  text r = pre ++ w ++ post ->
  Py.lower w = L "colspan" \/ Py.lower w = L "rowspan" ->
  update_table_cell (Some doc) table_index row_index column_index
                    content append
  = Refused MergedCells.
Proof.
  intros Ht Hr E Hw.
  apply (update_table_cell_merged _ _ _ _ _ _ _ _ Ht Hr).
  assert (forall x, Py.lower w = x ->
                    Py.contains (Py.lower (text r)) x = true) as Hx.
  { intros x <-. apply contains_true. exists (length (Py.lower pre)).
    exists (Py.lower pre), (Py.lower post). split; [|reflexivity].
    rewrite E. unfold Py.lower. rewrite !map_app. reflexivity. }
  apply orb_true_iff. destruct Hw as [Hw|Hw]; [left|right]; apply Hx, Hw.
Qed.

Lemma update_table_cell_refuses_word_witness :
  update_table_cell (Some colspan_text_page) 0 0 1 (L "z") false
  = Refused MergedCells.
Proof.
  apply (update_table_cell_refuses_word
           colspan_text_page 0 0 1 (L "z") false _ _
           (L "<tr><td>set ") (L "ColSpan")
           (L " here</td><td>2</td></tr>") eq_refl eq_refl).
  - vm_compute. reflexivity.
  - left. vm_compute. reflexivity.
Defined.

(** ** Index bounds *)


Lemma table_index_refused (e : table_edit) (doc : str) (table_index : Z) :
  (len (tables doc) <= table_index)%Z ->
  run_edit e (Some doc) table_index = Refused (TableIndexOutOfRange table_index).
Proof.
  intros H. destruct (len_tables doc) as [Hg Hp].
  assert ((len (finditer table_pattern doc) <=? table_index)%Z = true) as H1.
  { apply Z.leb_le. lia. }
  assert ((len (finditer table_re doc) <=? table_index)%Z = true) as H2.
  { apply Z.leb_le. lia. }
  destruct e; simpl in *;
    [unfold insert_column | unfold delete_column | unfold update_table_cell
     | unfold insert_table_row | unfold delete_table_row];
    rewrite ?H1, ?H2; reflexivity.
Qed.

(** ** Row insertion *)

(** C4, counterexample.  On the two rows of [sample_page], row position
    5 is refused, not appended; on [thead_page], row position 1 puts the
    new row right after the header row, inside the [thead], not next to
    the row currently at position 1. *)
Lemma insert_table_row_not_before :
  insert_table_row (Some sample_page) 0 5 [L "3"; L "4"] false
  = Refused (RowPositionOutOfRange 5 2)
  /\ insert_table_row (Some thead_page) 0 1 [L "x"] false
     = Update (L "<table><thead><tr><th>A</th></tr><tr><td>x</td></tr></thead><tbody><tr><td>1</td></tr></tbody></table>").
Proof. vm_compute. split; reflexivity. Qed.

Lemma new_row_cells (cell_values : list str) (is_header : bool) :
  new_row cell_values is_header
  = L "<tr>"
      ++ concat (map (fun v => L (if is_header then "<th>" else "<td>")
                                 ++ _process_cell_content v
                                 ++ L (if is_header then "</th>" else "</td>"))
                     cell_values)
      ++ L "</tr>".
Proof.
  unfold new_row. do 3 f_equal. apply map_ext. intros v.
  destruct is_header; reflexivity.
Qed.

Lemma index_last {A : Type} (l : list A) (a : A) :
  nth_error l (Z.to_nat (len l - 1)) = Some a ->
  (0 < len l)%Z ->
  Py.index l (-1) = Some a.
Proof.
  intros H Hl. unfold Py.index. fold (len l).
  destruct (-1 <? 0)%Z eqn:E; [|discriminate].
  destruct (-1 + len l <? 0)%Z eqn:E'; [apply Z.ltb_lt in E'; lia|].
  replace (-1 + len l)%Z with (len l - 1)%Z by lia. exact H.
Qed.

(** C4, amended.  [insert_table_row] on a located table: a row position
    beyond the number of rows is refused; position 0 puts the new row
    immediately before the first row, and for a table without rows
    immediately after the first opening [tbody] tag, or after the opening
    [table] tag when there is no [tbody]; a position from 1 to the number
    of rows puts it immediately after the row at [position - 1] (so the
    number of rows itself appends after the last row).  The new row has
    one cell per value, tagged [th] when [is_header] and [td] otherwise,
    holding the value run through the cell content processor. *)
Theorem insert_table_row_position
        (doc : str) (table_index row_position : Z)
        (cell_values : list str) (is_header : bool) (t : Match) :
  Py.index (finditer table_re doc) table_index = Some t ->
  let table_html := text t in
  let rows := finditer row_re table_html in
  let result :=
    insert_table_row (Some doc) table_index row_position cell_values
                     is_header in
  let put (insert_pos : nat) :=
    Update (firstn (start t) doc
              ++ (firstn insert_pos table_html
                    ++ new_row cell_values is_header
                    ++ skipn insert_pos table_html)
              ++ skipn (end_ t) doc) in
  ((len rows < row_position)%Z ->
   result = Refused (RowPositionOutOfRange row_position (length rows)))
  /\ (row_position = 0%Z ->
      forall row0 rest, rows = row0 :: rest -> result = put (start row0))
  /\ (row_position = 0%Z -> rows = [] ->
      forall m, search tbody_re table_html = Some m -> result = put (end_ m))
  /\ (row_position = 0%Z -> rows = [] ->
      search tbody_re table_html = None ->
      forall m, match_ table_tag_re table_html = Some m ->
                result = put (end_ m))
  /\ ((0 < row_position <= len rows)%Z ->
      forall row,
        nth_error rows (Z.to_nat (row_position - 1)) = Some row ->
        result = put (end_ row))
  /\ new_row cell_values is_header
     = L "<tr>"
         ++ concat (map (fun v => L (if is_header then "<th>" else "<td>")
                                    ++ _process_cell_content v
                                    ++ L (if is_header then "</th>" else "</td>"))
                        cell_values)
         ++ L "</tr>".
Proof.
  intros Ht table_html rows result put.
  destruct (located _ _ _ Ht) as [E1 E2].
  assert (result
          = if (len rows <? row_position)%Z
            then Refused (RowPositionOutOfRange row_position (length rows))
            else match row_insert_pos table_html rows row_position with
                 | Raise e => Raised e
                 | Ok insert_pos => put insert_pos
                 end) as E.
  { unfold result, insert_table_row. rewrite E1, E2. reflexivity. }
  split; [|split; [|split; [|split; [|split]]]].
  - intros H. apply Z.ltb_lt in H. rewrite E, H. reflexivity.
  - intros -> row0 rest Hr. rewrite E, Hr.
    destruct (len (row0 :: rest) <? 0)%Z eqn:H; [|reflexivity].
    apply Z.ltb_lt in H. unfold len in H. lia.
  - intros -> Hr m Hm. rewrite E, Hr. unfold row_insert_pos.
    simpl. rewrite Hm. reflexivity.
  - intros -> Hr Hn m Hm. rewrite E, Hr. unfold row_insert_pos.
    simpl. rewrite Hn, Hm. reflexivity.
  - intros [Hlo Hhi] row Hrow. rewrite E.
    destruct (len rows <? row_position)%Z eqn:H;
      [apply Z.ltb_lt in H; lia|].
    unfold row_insert_pos.
    destruct (row_position =? 0)%Z eqn:H0; [apply Z.eqb_eq in H0; lia|].
    destruct (len rows <=? row_position)%Z eqn:H1.
    + apply Z.leb_le in H1. assert (row_position = len rows) as -> by lia.
      unfold Py.item. rewrite (index_last _ _ Hrow Hlo). reflexivity.
    + unfold Py.item. rewrite index_nonneg by lia. rewrite Hrow. reflexivity.
  - apply new_row_cells.
Qed.

Lemma insert_table_row_position_witness :
  insert_table_row (Some sample_page) 0 1 [L "3"; L "4"] false
  = Update (L "<p>x</p><table><tbody><tr><th>A</th><th>B</th></tr><tr><td>3</td><td>4</td></tr><tr><td>1</td><td>2</td></tr></tbody></table><p>y</p>").
Proof.
  destruct (insert_table_row_position
              sample_page 0 1 [L "3"; L "4"] false _ eq_refl)
    as [_ [_ [_ [_ [H _]]]]].
  eapply eq_trans.
  - eapply H.
    + vm_compute. split; [reflexivity | discriminate].
    + vm_compute. reflexivity.
  - vm_compute. reflexivity.
Defined.

(** ** Column deletion and banner rows *)

(** The range guard of [process_row] in [delete_column] comes before the
    test for a banner row: a row with no more cells than the position is
    returned as it is, banner or not. *)
Lemma delete_column_row_guard (column_position : Z) (row_match : Match) :
  (len (finditer cell_re (group row_match 2)) <= column_position)%Z ->
  delete_column_process_row column_position row_match
  = Ok (group row_match 0).
Proof.
  intros H. apply Z.leb_le in H. unfold delete_column_process_row.
  destruct (finditer cell_re (group row_match 2)); [reflexivity|].
  rewrite H. reflexivity.
Qed.

(** C5, at the failing input.  Deleting column 2 of [banner_page] removes
    the third cell of the data row and leaves the banner row at
    [colspan] 3; deleting column 0 does lower it to 2, and
    [insert_column] at position 2 raises it to 4. *)
Theorem delete_column_keeps_banner :
  delete_column (Some banner_page) 0 2
  = Update (L "<table><tbody><tr><th colspan=" ++ quoted (L "3")
              ++ L ">T</th></tr><tr><td>1</td><td>2</td></tr></tbody></table>")
  /\ delete_column (Some banner_page) 0 0
     = Update (L "<table><tbody><tr><th colspan=" ++ quoted (L "2")
                 ++ L ">T</th></tr><tr><td>2</td><td>3</td></tr></tbody></table>")
  /\ insert_column (Some banner_page) 0 2 (L "N") [] None
     = Update (L "<table><tbody><tr><th colspan=" ++ quoted (L "4")
                 ++ L ">T</th></tr><tr><td>1</td><td>2</td><td></td><td>3</td></tr></tbody></table>").
Proof. vm_compute. repeat split. Qed.

(** ** The compiler on a heading and a list *)

(** C7. Compiling a title, a blank line and two dash items yields the
    [h1] heading, then one [ul] with the two [li] items in order, closed
    at the end; no [p] element is emitted. *)
Theorem compile_title_and_list :
  let out :=
    markdown_to_confluence
      (L "# Title" ++ [nl; nl] ++ L "- a" ++ [nl] ++ L "- b" ++ [nl]) in
  out = L "<h1>Title</h1>" ++ [nl] ++ L "<ul>" ++ [nl] ++ L "<li>a</li>"
          ++ [nl] ++ L "<li>b</li>" ++ [nl] ++ L "</ul>"
  /\ Py.contains out (L "<p") = false.
Proof. vm_compute. split; reflexivity. Qed.

(** ** The last two steps of the decompiler *)

Lemma span_len_le p s : span_len p s <= length s.
Proof.
  induction s as [|c s IH]; simpl; [lia|]. destruct (p c); lia.
Qed.

Lemma span_len_skipn p s : span_len p (skipn (span_len p s) s) = 0.
Proof.
  induction s as [|c s IH]; simpl; [reflexivity|].
  destruct (p c) eqn:E; simpl; [exact IH | rewrite E; reflexivity].
Qed.

(** A greedy repetition that ends the pattern takes the whole run. *)
Lemma rep_greedy_final p lo n prev s cs :
  rep true p lo None n prev s cs (fun _ s' cs' => Some (s', cs'))
  = if lo <=? n + span_len p s
    then Some (skipn (span_len p s) s, cs) else None.
Proof.
  revert n prev; induction s as [|c s IH]; intros n prev; simpl.
  - rewrite Nat.add_0_r. reflexivity.
  - rewrite andb_true_r. destruct (p c) eqn:E.
    + rewrite IH. rewrite <- plus_n_Sm. simpl.
      destruct (lo <=? S (n + span_len p s)) eqn:E1; [reflexivity|].
      apply Nat.leb_gt in E1.
      destruct (lo <=? n) eqn:E2; [apply Nat.leb_le in E2; lia | reflexivity].
    + rewrite Nat.add_0_r. reflexivity.
Qed.

Lemma at_blank_lines prev s pos :
  at_ blank_lines_re prev s pos
  = if 3 <=? newlines s
    then Some {| start := pos; text := firstn (newlines s) s; groups := [] |}
    else None.
Proof.
  unfold at_, blank_lines_re, at_least. simpl run.
  rewrite rep_greedy_final. simpl. fold (newlines s).
  destruct (newlines s) as [|[|[|k]]] eqn:E; try reflexivity.
  rewrite length_skipn.
  pose proof (span_len_le (only nl) s) as Hle. fold (newlines s) in Hle.
  replace (length s - (length s - S (S (S k)))) with (S (S (S k))) by lia.
  reflexivity.
Qed.

(** Passing over the characters of a match. *)
Lemma scan_skip r a b : forall prev pos,
  exists prev' pos',
    scan r prev (a ++ b) pos (length a) = scan r prev' b pos' 0.
Proof.
  induction a as [|c a IH]; intros prev pos; simpl.
  - exists prev, pos. reflexivity.
  - apply IH.
Qed.

Lemma runs_ok_weaken s : forall k j,
  j <= k -> runs_ok k s = true -> runs_ok j s = true.
Proof.
  induction s as [|c s IH]; intros k j Hjk; simpl; [reflexivity|].
  destruct (Ascii.eqb c nl); [|auto].
  rewrite !andb_true_iff, !Nat.ltb_lt. intros [H1 H2]. split; [lia|].
  apply (IH (S k)); [lia | exact H2].
Qed.

Lemma runs_ok_no_run s : forall k,
  runs_ok k s = true -> forall i, ~ occurs_at [nl; nl; nl] s i.
Proof.
  induction s as [|c s IH]; intros k H i [pre [post [E Hi]]].
  - destruct pre; discriminate.
  - destruct pre as [|c' pre].
    + simpl in E. injection E as -> E. subst s. simpl in H.
      rewrite !andb_true_iff, !Nat.ltb_lt in H. lia.
    + simpl in E. injection E as <- E. simpl in H.
      destruct (Ascii.eqb c nl).
      * apply andb_true_iff in H as [_ H].
        apply (IH _ H (length pre)). exists pre, post. auto.
      * apply (IH _ H (length pre)). exists pre, post. auto.
Qed.

Lemma newlines_cons c s :
  newlines (c :: s) = if Ascii.eqb c nl then S (newlines s) else 0.
Proof. reflexivity. Qed.

Lemma collapse_runs_ok : forall n s,
  length s <= n ->
  forall k prev pos,
    k = 0 \/ k + newlines s < 3 ->
    runs_ok k (flat_map (put_piece (fun _ => [nl; nl]))
                        (scan blank_lines_re prev s pos 0)) = true.
Proof.
  induction n as [|n IH]; intros s Hn k prev pos Hk.
  - destruct s; [|simpl in Hn; lia].
    cbn [scan]. rewrite at_blank_lines. reflexivity.
  - destruct s as [|c s].
    + cbn [scan]. rewrite at_blank_lines. reflexivity.
    + simpl in Hn. cbn [scan]. rewrite at_blank_lines.
      rewrite newlines_cons in *.
      pose proof (span_len_le (only nl) s) as Hle. fold (newlines s) in Hle.
      destruct (Ascii.eqb c nl) eqn:Ec.
      * destruct (3 <=? S (newlines s)) eqn:E3.
        -- apply Nat.leb_le in E3. destruct Hk as [-> | Hk]; [|lia].
           cbn [text]. rewrite length_firstn. cbn [length].
           replace (Nat.min (S (newlines s)) (S (length s)))
             with (S (newlines s)) by lia.
           destruct (scan_skip blank_lines_re
                               (firstn (newlines s) s) (skipn (newlines s) s)
                               (Some c) (S pos)) as [prev' [pos' Hs]].
           rewrite firstn_skipn, length_firstn in Hs.
           replace (Nat.min (newlines s) (length s))
             with (newlines s) in Hs by lia.
           rewrite Hs. cbn [flat_map put_piece].
           change (runs_ok 2 (flat_map (put_piece (fun _ => [nl; nl]))
                                       (scan blank_lines_re prev'
                                             (skipn (newlines s) s) pos' 0))
                   = true).
           apply IH.
           ++ rewrite length_skipn. lia.
           ++ right. unfold newlines. rewrite span_len_skipn. lia.
        -- apply Nat.leb_gt in E3. cbn [flat_map put_piece app runs_ok].
           rewrite Ec. apply andb_true_iff. split.
           ++ apply Nat.ltb_lt. lia.
           ++ apply IH; [lia|]. right. lia.
      * cbn [Nat.leb flat_map put_piece app runs_ok]. rewrite Ec.
        apply IH; [lia|]. left. reflexivity.
Qed.

Lemma collapse_no_run (content : str) :
  forall i, ~ occurs_at [nl; nl; nl] (collapse_blank_lines content) i.
Proof.
  apply (runs_ok_no_run _ 0).
  apply (collapse_runs_ok (length content)); auto.
Qed.

(** [strip] cuts a piece out of the middle of its argument. *)
Lemma lstrip_suffix s : exists a, s = a ++ Py.lstrip s.
Proof.
  induction s as [|c s [a IH]]; simpl.
  - exists []. reflexivity.
  - destruct (Py.isspace c).
    + exists (c :: a). simpl. congruence.
    + exists []. reflexivity.
Qed.

Lemma rstrip_prefix s : exists b, s = Py.rstrip s ++ b.
Proof.
  unfold Py.rstrip. destruct (lstrip_suffix (rev s)) as [a E].
  exists (rev a). rewrite <- rev_app_distr, <- E, rev_involutive. reflexivity.
Qed.

Lemma strip_middle s : exists a b, s = a ++ Py.strip s ++ b.
Proof.
  unfold Py.strip. destruct (lstrip_suffix s) as [a Ea].
  destruct (rstrip_prefix (Py.lstrip s)) as [b Eb].
  exists a, b. rewrite <- Eb. exact Ea.
Qed.

Lemma lstrip_leading s : leading_space (Py.lstrip s) = false.
Proof.
  induction s as [|c s IH]; simpl; [reflexivity|].
  destruct (Py.isspace c) eqn:E; [exact IH | simpl; exact E].
Qed.

Lemma strip_trimmed s :
  leading_space (Py.strip s) = false /\ trailing_space (Py.strip s) = false.
Proof.
  split.
  - unfold Py.strip. destruct (rstrip_prefix (Py.lstrip s)) as [b E].
    pose proof (lstrip_leading s) as H. rewrite E in H.
    destruct (Py.rstrip (Py.lstrip s)); [reflexivity | exact H].
  - unfold trailing_space, Py.strip, Py.rstrip. rewrite rev_involutive.
    apply lstrip_leading.
Qed.

Lemma squeeze_restart s : forall k, newlines s = 0 -> squeeze k s = squeeze 0 s.
Proof.
  destruct s as [|c s]; intros k; [reflexivity|].
  rewrite newlines_cons. simpl. destruct (Ascii.eqb c nl); [discriminate|].
  reflexivity.
Qed.

Lemma squeeze_run s : forall k,
  2 <= k -> squeeze k s = squeeze 0 (skipn (newlines s) s).
Proof.
  induction s as [|c s IH]; intros k Hk; [reflexivity|].
  rewrite newlines_cons. cbn [squeeze].
  destruct (Ascii.eqb c nl) eqn:E.
  - destruct (k <? 2) eqn:E2; [apply Nat.ltb_lt in E2; lia|].
    cbn [skipn]. apply IH. lia.
  - cbn [skipn squeeze]. rewrite E. reflexivity.
Qed.

Lemma collapse_squeeze : forall n s,
  length s <= n ->
  forall k prev pos,
    k = 0 \/ k + newlines s < 3 ->
    flat_map (put_piece (fun _ => [nl; nl])) (scan blank_lines_re prev s pos 0)
    = squeeze k s.
Proof.
  induction n as [|n IH]; intros s Hn k prev pos Hk.
  - destruct s; [|simpl in Hn; lia].
    cbn [scan]. rewrite at_blank_lines. reflexivity.
  - destruct s as [|c s].
    + cbn [scan]. rewrite at_blank_lines. reflexivity.
    + simpl in Hn. cbn [scan]. rewrite at_blank_lines.
      rewrite newlines_cons in *.
      pose proof (span_len_le (only nl) s) as Hle. fold (newlines s) in Hle.
      cbn [squeeze].
      destruct (Ascii.eqb c nl) eqn:Ec.
      * destruct (3 <=? S (newlines s)) eqn:E3.
        -- apply Nat.leb_le in E3. destruct Hk as [-> | Hk]; [|lia].
           cbn [text]. rewrite length_firstn. cbn [length].
           replace (Nat.min (S (newlines s)) (S (length s)))
             with (S (newlines s)) by lia.
           destruct (scan_skip blank_lines_re
                               (firstn (newlines s) s) (skipn (newlines s) s)
                               (Some c) (S pos)) as [prev' [pos' Hs]].
           rewrite firstn_skipn, length_firstn in Hs.
           replace (Nat.min (newlines s) (length s))
             with (newlines s) in Hs by lia.
           rewrite Hs. cbn [flat_map put_piece Nat.ltb Nat.leb].
           rewrite (IH (skipn (newlines s) s)) with (k := 0);
             [|rewrite length_skipn; lia|left; reflexivity].
           destruct s as [|c' s]; [unfold newlines in E3; simpl in E3; lia|].
           rewrite newlines_cons in *.
           destruct (Ascii.eqb c' nl) eqn:Ec'; [|lia].
           cbn [squeeze skipn]. rewrite Ec'. cbn [Nat.ltb Nat.leb app].
           f_equal. f_equal. symmetry. apply squeeze_run. lia.
        -- apply Nat.leb_gt in E3. cbn [flat_map put_piece app].
           assert ((k <? 2) = true) as -> by (apply Nat.ltb_lt; lia).
           rewrite (proj1 (Ascii.eqb_eq _ _) Ec). f_equal.
           apply IH; [lia|]. right. lia.
      * cbn [Nat.leb flat_map put_piece app]. f_equal.
        apply IH; [lia|]. left. reflexivity.
Qed.

(** The blank-line rewrite does what its pattern says: it is [squeeze]. *)
Lemma collapse_is_squeeze (content : str) :
  collapse_blank_lines content = squeeze 0 content.
Proof.
  apply (collapse_squeeze (length content)); auto.
Qed.

Lemma lstrip_blank_prefix s :
  exists a, s = a ++ Py.lstrip s /\ forallb Py.isspace a = true.
Proof.
  induction s as [|c s [a [E H]]]; simpl.
  - exists []. split; reflexivity.
  - destruct (Py.isspace c) eqn:Ec.
    + exists (c :: a). simpl. rewrite Ec, H. split; [f_equal; exact E|].
      reflexivity.
    + exists []. split; reflexivity.
Qed.

Lemma rstrip_blank_suffix s :
  exists b, s = Py.rstrip s ++ b /\ forallb Py.isspace b = true.
Proof.
  unfold Py.rstrip. destruct (lstrip_blank_prefix (rev s)) as [a [E H]].
  exists (rev a). split.
  - rewrite <- rev_app_distr, <- E, rev_involutive. reflexivity.
  - rewrite forallb_forall in *. intros x Hx. apply H. apply in_rev. exact Hx.
Qed.

(** [strip] takes whitespace, and only whitespace, off both ends. *)
Lemma strip_blank_ends s :
  exists a b,
    s = a ++ Py.strip s ++ b
    /\ forallb Py.isspace a = true /\ forallb Py.isspace b = true.
Proof.
  unfold Py.strip. destruct (lstrip_blank_prefix s) as [a [Ea Ha]].
  destruct (rstrip_blank_suffix (Py.lstrip s)) as [b [Eb Hb]].
  exists a, b. rewrite <- Eb. auto.
Qed.

(** C8. [confluence_to_markdown] ends by cutting every run of three or
    more newlines of the rewritten text down to exactly two and by taking
    the whitespace off both ends: its output is the squeezed text without
    a whitespace prefix and a whitespace suffix, it holds no three
    consecutive newlines, and it neither begins nor ends with a
    whitespace character. *)
Theorem confluence_to_markdown_tidy
        (unescape : str -> str) (html_content : str) :
  let content := rewritten unescape html_content in
  let out := confluence_to_markdown unescape html_content in
  (exists a b,
      squeeze 0 content = a ++ out ++ b
      /\ forallb Py.isspace a = true /\ forallb Py.isspace b = true)
  /\ Py.contains out [nl; nl; nl] = false
  /\ leading_space out = false
  /\ trailing_space out = false.
Proof.
  intros content out.
  assert (E : out = Py.strip (collapse_blank_lines content)) by reflexivity.
  rewrite E. clearbody content. clear E out. split.
  - rewrite <- collapse_is_squeeze. apply strip_blank_ends.
  - split; [|apply strip_trimmed].
    apply contains_false. intros i [pre [post [E Hi]]].
    destruct (strip_middle (collapse_blank_lines content)) as [a [b Es]].
    apply (collapse_no_run content (length (a ++ pre))).
    exists (a ++ pre), (post ++ b). split; [|reflexivity].
    rewrite Es, E. rewrite <- !app_assoc. reflexivity.
Qed.

(** ** Images in the inline processor *)

Section Blind.
Context {R : Type}.

Lemma lit_blind (t : str) (k k' : @cont R) :
  agree k k' ->
  forall prev prev' s cs, lit t prev s cs k = lit t prev' s cs k'.
Proof.
  intros Hk. induction t as [|a t IH]; intros prev prev' s cs; simpl.
  - apply Hk.
  - destruct s as [|c s]; [reflexivity|].
    destruct (Ascii.eqb a c); [apply IH | reflexivity].
Qed.

Lemma rep_blind g p lo hi (k k' : @cont R) :
  agree k k' ->
  forall s n prev prev' cs,
    rep g p lo hi n prev s cs k = rep g p lo hi n prev' s cs k'.
Proof.
  intros Hk. induction s as [|c s IH]; intros n prev prev' cs; simpl.
  - rewrite (Hk prev prev'). reflexivity.
  - rewrite (Hk prev prev' (c :: s) cs).
    rewrite (IH (S n) (Some c) (Some c) cs). reflexivity.
Qed.

Lemma run_blind (r : regex) :
  blind r = true ->
  forall (k k' : @cont R),
    agree k k' ->
    forall prev prev' s cs, run r prev s cs k = run r prev' s cs k'.
Proof.
  induction r; simpl; intros Hb k k' Hk prev prev' s cs;
    try discriminate.
  - apply lit_blind, Hk.
  - destruct s as [|c s]; [reflexivity|].
    destruct (p c); [apply Hk | reflexivity].
  - apply rep_blind, Hk.
  - apply andb_true_iff in Hb as [Hb1 Hb2].
    apply IHr1; [exact Hb1|]. intros p p' s0 cs0. apply IHr2; assumption.
  - apply IHr; [exact Hb|]. intros p p' s0 cs0. apply Hk.
  - apply lit_blind, Hk.
  - destruct s as [|c0 s]; [apply Hk|].
    destruct (Ascii.eqb c0 c); [reflexivity | apply Hk].
Qed.
End Blind.

(** For a blind pattern, a match at a position depends on neither the
    previous character nor, but for its [start], the offset. *)
Lemma at_blind (r : regex) prev prev' s pos pos' :
  blind r = true ->
  at_ r prev' s pos'
  = match at_ r prev s pos with
    | Some m => Some {| start := pos'; text := text m; groups := groups m |}
    | None => None
    end.
Proof.
  intros Hb. unfold at_.
  rewrite (run_blind r Hb _ (fun _ s' cs => Some (s', cs))
                     ltac:(intros ? ? ? ?; reflexivity) prev' prev).
  destruct (run r prev s [] _) as [[s' cs]|]; reflexivity.
Qed.

(** The text that [re.sub] yields does not depend on where the scan of a
    blind pattern starts, when the replacement ignores [start]. *)
Lemma scan_blind (r : regex) (f : Match -> str) :
  blind r = true ->
  (forall m pos, f {| start := pos; text := text m; groups := groups m |}
                 = f m) ->
  forall s prev prev' pos pos' skip,
    flat_map (put_piece f) (scan r prev' s pos' skip)
    = flat_map (put_piece f) (scan r prev s pos skip).
Proof.
  intros Hb Hf. induction s as [|c s IH]; intros prev prev' pos pos' skip.
  - cbn [scan]. destruct skip; [|reflexivity].
    rewrite (at_blind r prev prev' [] pos pos' Hb).
    destruct (at_ r prev [] pos) as [m|]; [|reflexivity].
    simpl. rewrite Hf. reflexivity.
  - cbn [scan]. destruct skip as [|k]; [|apply IH].
    rewrite (at_blind r prev prev' (c :: s) pos pos' Hb).
    destruct (at_ r prev (c :: s) pos) as [m|].
    + cbn [text]. destruct (length (text m)); cbn [flat_map put_piece];
        rewrite Hf; f_equal; [f_equal|]; apply IH.
    + cbn [flat_map put_piece]. f_equal. apply IH.
Qed.

(** A greedy repetition over a run that the next character ends takes
    the run, when what follows the repetition then matches. *)
Lemma rep_greedy_take {R : Type} p lo (k : @cont R) b cs x :
  fails_at_head p b ->
  (forall prev', k prev' b cs = Some x) ->
  forall a n prev,
    forallb p a = true ->
    lo <= n + length a ->
    rep true p lo None n prev (a ++ b) cs k = Some x.
Proof.
  intros Hb Hk. induction a as [|c a IH]; intros n prev Ha Hlo.
  - simpl in Hlo. rewrite Nat.add_0_r in Hlo. apply Nat.leb_le in Hlo.
    destruct b as [|c b]; simpl.
    + rewrite Hlo. apply Hk.
    + simpl in Hb. rewrite Hb. simpl. rewrite Hlo. apply Hk.
  - simpl in Ha. apply andb_true_iff in Ha as [Hc Ha]. simpl.
    rewrite Hc. simpl. rewrite (IH (S n) (Some c) Ha); [reflexivity|].
    simpl in Hlo. lia.
Qed.

Lemma at_md_image prev pos alt target post :
  forallb (isnt "]") alt = true ->
  target <> [] ->
  forallb (isnt ")") target = true ->
  at_ md_image_re prev (md_image alt target ++ post) pos
  = Some {| start := pos; text := md_image alt target;
            groups := [(2, target); (1, alt)] |}.
Proof.
  intros Halt Hne Htarget. unfold at_.
  assert (run md_image_re prev (md_image alt target ++ post) []
              (fun _ s' cs => Some (s', cs))
          = Some (post, [(2, target); (1, alt)])) as ->.
  { unfold md_image, md_image_re. rewrite <- !app_assoc.
    cbn [Cats run L list_ascii_of_string app lit].
    rewrite !Ascii.eqb_refl. unfold star, plus. cbn [run].
    apply rep_greedy_take; [reflexivity | | exact Halt | lia].
    intros prev1. rewrite !Ascii.eqb_refl.
    change (alt ++ "]"%char :: "("%char :: target ++ ")"%char :: post)
      with (alt ++ ("]"%char :: "("%char :: target ++ ")"%char :: post)).
    rewrite ReFacts.firstn_sub_app.
    apply rep_greedy_take; [reflexivity | | exact Htarget | ].
    - intros prev2. rewrite Ascii.eqb_refl.
      change (target ++ ")"%char :: post) with (target ++ (")"%char :: post)).
      rewrite ReFacts.firstn_sub_app. reflexivity.
    - destruct target; [contradiction | simpl; lia]. }
  rewrite ReFacts.firstn_sub_app. reflexivity.
Qed.

Lemma at_md_image_none prev c s pos :
  isnt "!" c = true -> at_ md_image_re prev (c :: s) pos = None.
Proof.
  unfold isnt. intros H. apply negb_true_iff in H.
  unfold at_, md_image_re. cbn [Cats run L list_ascii_of_string lit].
  rewrite Ascii.eqb_sym, H. reflexivity.
Qed.

(** A non-empty match at the head of the subject opens the scan; the scan
    goes on after it. *)
Lemma scan_hit_here r prev pos m c a b :
  at_ r prev (c :: a ++ b) pos = Some m ->
  text m = c :: a ->
  exists prev' pos',
    scan r prev (c :: a ++ b) pos 0 = Hit m :: scan r prev' b pos' 0.
Proof.
  intros Hat Ht. cbn [scan]. rewrite Hat, Ht. cbn [length].
  destruct (scan_skip r a b (Some c) (S pos)) as [prev' [pos' ->]].
  exists prev', pos'. reflexivity.
Qed.

Lemma image_template_start m pos :
  image_template {| start := pos; text := text m; groups := groups m |}
  = image_template m.
Proof. reflexivity. Qed.

Lemma scan_md_image (pre alt target post : str) :
  forallb (isnt "!") pre = true ->
  forallb (isnt "]") alt = true ->
  target <> [] ->
  forallb (isnt ")") target = true ->
  forall prev pos,
    flat_map (put_piece image_template)
             (scan md_image_re prev (pre ++ md_image alt target ++ post) pos 0)
    = pre ++ image_tag target ++ sub md_image_re image_template post.
Proof.
  intros Hpre Halt Hne Htarget.
  induction pre as [|c pre IH]; intros prev pos.
  - cbn [app].
    pose proof (at_md_image prev pos alt target post Halt Hne Htarget) as Hat.
    destruct (scan_hit_here
                md_image_re prev pos _ "!"%char
                (L "[" ++ alt ++ L "](" ++ target ++ L ")") post Hat eq_refl)
      as [prev' [pos' Hs]].
    change (md_image alt target ++ post)
      with ("!"%char :: (L "[" ++ alt ++ L "](" ++ target ++ L ")") ++ post).
    rewrite Hs. cbn [flat_map put_piece]. f_equal.
    apply (scan_blind md_image_re image_template eq_refl
                      image_template_start).
  - cbn [forallb] in Hpre. apply andb_true_iff in Hpre as [Hc Hpre].
    cbn [app scan]. rewrite (at_md_image_none _ _ _ _ Hc).
    cbn [flat_map put_piece app]. f_equal. apply IH. exact Hpre.
Qed.

(** * Further properties *)

(** ** The matcher against its declarative reading *)

Section Sound.
Context {R : Type}.

Lemma rep_count g p lo hi prev s cs (k : @cont R) x : forall n,
  rep g p lo hi n prev s cs k = Some x ->
  exists prev' m s',
    s = m ++ s' /\ forallb p m = true /\ lo <= n + length m
    /\ k prev' s' cs = Some x.
Proof.
  revert prev; induction s as [|c s IH]; intros prev n; simpl.
  - destruct (lo <=? n) eqn:E; [|discriminate]. apply Nat.leb_le in E.
    intros H. exists prev, [], []. simpl. repeat split; auto; lia.
  - assert (stop : (if lo <=? n then k prev (c :: s) cs else None) = Some x ->
                   exists prev' m s',
                     c :: s = m ++ s' /\ forallb p m = true
                     /\ lo <= n + length m /\ k prev' s' cs = Some x).
    { destruct (lo <=? n) eqn:E; [|discriminate]. apply Nat.leb_le in E.
      intros H. exists prev, [], (c :: s). simpl. repeat split; auto; lia. }
    destruct (p c && below hi n) eqn:E; [|exact stop].
    apply andb_true_iff in E as [Ep _].
    assert (more : rep g p lo hi (S n) (Some c) s cs k = Some x ->
                   exists prev' m s',
                     c :: s = m ++ s' /\ forallb p m = true
                     /\ lo <= n + length m /\ k prev' s' cs = Some x).
    { intros H. apply IH in H as [prev' [m [s' [-> [Hm [Hlo Hk]]]]]].
      exists prev', (c :: m), s'. simpl. rewrite Ep.
      repeat split; auto; lia. }
    destruct g.
    + destruct (rep true p lo hi (S n) (Some c) s cs k) eqn:E1.
      * intros [= <-]. apply more. reflexivity.
      * exact stop.
    + destruct (if lo <=? n then k prev (c :: s) cs else None) eqn:E1.
      * intros [= <-]. apply stop. reflexivity.
      * exact more.
Qed.

(** What [run] accepts, [Matches] describes. *)
Lemma run_sound (r : regex) : forall prev s cs (k : @cont R) x,
  run r prev s cs k = Some x ->
  exists prev' m s' cs',
    s = m ++ s' /\ Matches r cs m cs' /\ k prev' s' cs' = Some x.
Proof.
  induction r; intros prev s cs k x; simpl.
  - intros H. apply ReFacts.lit_inv in H as [prev' [s' [-> Hk]]].
    exists prev', (L t), s', cs. repeat split; auto. constructor.
  - destruct s as [|c s]; [discriminate|].
    destruct (p c) eqn:E; [|discriminate]. intros H.
    exists (Some c), [c], s, cs. repeat split; auto. constructor. exact E.
  - intros H. apply rep_count in H as [prev' [m [s' [-> [Hm [Hlo Hk]]]]]].
    exists prev', m, s', cs. repeat split; auto. constructor; auto.
  - intros H. apply IHr1 in H as [prev1 [m1 [s1 [cs1 [-> [M1 H]]]]]].
    apply IHr2 in H as [prev2 [m2 [s2 [cs2 [-> [M2 H]]]]]].
    exists prev2, (m1 ++ m2), s2, cs2. rewrite app_assoc.
    repeat split; auto. econstructor; eauto.
  - intros H. apply IHr in H as [prev' [m [s' [cs' [-> [M H]]]]]].
    rewrite ReFacts.firstn_sub_app in H.
    exists prev', m, s'. eexists. repeat split; [|exact H]. constructor.
    exact M.
  - intros H. apply ReFacts.lit_inv in H as [prev' [s' [-> Hk]]].
    exists prev', (lookup cs n), s', cs. repeat split; auto. constructor.
  - destruct prev; [discriminate|]. intros H. exists None, [], s, cs.
    repeat split; auto. constructor.
  - intros H. exists prev, [], s, cs. repeat split; [constructor|].
    destruct prev as [c0|]; [destruct (Ascii.eqb c0 c); [discriminate|]|];
      exact H.
  - intros H. exists prev, [], s, cs. repeat split; [constructor|].
    destruct s as [|c0 s]; [|destruct (Ascii.eqb c0 c); [discriminate|]];
      exact H.
Qed.
End Sound.

(** A match found at a position is a prefix described by [Matches]. *)
Lemma at_sound r prev s pos m :
  at_ r prev s pos = Some m ->
  start m = pos
  /\ Matches r [] (text m) (groups m)
  /\ exists rest, s = text m ++ rest.
Proof.
  unfold at_.
  destruct (run r prev s [] (fun _ s' cs => Some (s', cs)))
    as [[s' cs]|] eqn:E; [|discriminate].
  intros [= <-]. simpl. split; [reflexivity|].
  apply run_sound in E as [_ [m0 [s0 [cs0 [-> [M [= <- <-]]]]]]].
  rewrite ReFacts.firstn_sub_app. split; [exact M | exists s0; reflexivity].
Qed.

Lemma scan_sound r s : forall prev pos skip m,
  In (Hit m) (scan r prev s pos skip) -> Matches r [] (text m) (groups m).
Proof.
  induction s as [|c s IH]; intros prev pos skip m; simpl.
  - destruct skip; [|intros []].
    destruct (at_ r prev [] pos) as [m0|] eqn:E; [|intros []].
    intros [[= ->]|[]]. apply (at_sound _ _ _ _ _ E).
  - destruct skip as [|k]; [|apply IH].
    destruct (at_ r prev (c :: s) pos) as [m0|] eqn:E.
    + assert (here : Hit m0 = Hit m -> Matches r [] (text m) (groups m)).
      { intros [= ->]. apply (at_sound _ _ _ _ _ E). }
      destruct (length (text m0)).
      * intros [H|[H|H]]; [apply here, H | discriminate | eapply IH, H].
      * intros [H|H]; [apply here, H | eapply IH, H].
    + intros [H|H]; [discriminate | eapply IH, H].
Qed.

(** Every match of [finditer] is described by [Matches]. *)
Lemma finditer_sound r s m :
  In m (finditer r s) -> Matches r [] (text m) (groups m).
Proof.
  unfold finditer. rewrite ReFacts.in_hits. apply scan_sound.
Qed.

(** ** Scans put back together *)

(** Replacing every match by its own text gives the subject back. *)
Lemma scan_rebuild r s : forall prev pos skip,
  flat_map (put_piece text) (scan r prev s pos skip) = skipn skip s.
Proof.
  induction s as [|c s IH]; intros prev pos skip; cbn [scan].
  - destruct skip; [|reflexivity].
    destruct (at_ r prev [] pos) as [m|] eqn:E; [|reflexivity].
    apply ReFacts.at_inv in E as [_ [rest E]].
    destruct (text m) eqn:Et; [|discriminate].
    cbn [flat_map put_piece]. rewrite Et. reflexivity.
  - destruct skip as [|k]; [|apply IH].
    destruct (at_ r prev (c :: s) pos) as [m|] eqn:E.
    + apply ReFacts.at_inv in E as [_ [rest E]].
      destruct (text m) as [|c' t'] eqn:Et; cbn [length flat_map put_piece].
      * rewrite Et, IH. reflexivity.
      * rewrite Et, IH. simpl in E. injection E as <- ->.
        simpl. rewrite skipn_app, Nat.sub_diag, skipn_all. reflexivity.
    + cbn [flat_map put_piece]. rewrite IH. reflexivity.
Qed.

Lemma render_ok (f : Match -> result str) (g : Match -> str) ps :
  (forall m, In (Hit m) ps -> f m = Ok (g m)) ->
  render f ps = Ok (flat_map (put_piece g) ps).
Proof.
  induction ps as [|[c|m] ps IH]; intros H; cbn [render flat_map put_piece].
  - reflexivity.
  - rewrite IH by (intros m Hm; apply H; right; exact Hm). reflexivity.
  - rewrite (H m) by (left; reflexivity). simpl.
    rewrite IH by (intros m' Hm; apply H; right; exact Hm). reflexivity.
Qed.

(** [re.sub] with a replacement that gives back each match it is asked
    about leaves the subject as it is. *)
Lemma sub_try_same r (f : Match -> result str) s :
  (forall m, In m (finditer r s) -> f m = Ok (text m)) ->
  sub_try r f s = Ok s.
Proof.
  intros H. unfold sub_try.
  rewrite (render_ok f text).
  - rewrite scan_rebuild. reflexivity.
  - intros m Hm. apply H. unfold finditer. apply ReFacts.in_hits. exact Hm.
Qed.

(** ** Subjects without the leading character of a pattern *)

Lemma leads_head {R : Type} c (r : regex) :
  leads c r = true ->
  forall prev s cs (k : @cont R) x,
    run r prev s cs k = Some x -> exists s', s = c :: s'.
Proof.
  induction r; simpl; intros Hl prev s cs k x; try discriminate.
  - destruct t as [|a t]; [discriminate|]. apply Ascii.eqb_eq in Hl as ->.
    intros H. apply ReFacts.lit_inv in H as [_ [s' [-> _]]].
    simpl. eauto.
  - apply orb_true_iff in Hl as [Hl|Hl].
    + apply IHr1. exact Hl.
    + apply andb_true_iff in Hl as [Hz Hl].
      destruct r1; try discriminate; simpl.
      * destruct prev; [discriminate|]. apply IHr2. exact Hl.
      * destruct prev as [c1|]; [destruct (Ascii.eqb c1 c0); [discriminate|]|];
          apply IHr2; exact Hl.
      * destruct s as [|c1 s]; [|destruct (Ascii.eqb c1 c0); [discriminate|]];
          apply IHr2; exact Hl.
  - apply IHr. exact Hl.
Qed.

Lemma at_none c r prev s pos :
  leads c r = true ->
  match s with c' :: _ => Ascii.eqb c' c = false | [] => True end ->
  at_ r prev s pos = None.
Proof.
  intros Hl Hs. unfold at_.
  destruct (run r prev s [] _) as [[s' cs]|] eqn:E; [|reflexivity].
  apply (leads_head c r Hl) in E as [s0 ->].
  rewrite Ascii.eqb_refl in Hs. discriminate.
Qed.

(** [c] does not occur in [s]. *)
Lemma scan_none c r s :
  leads c r = true ->
  forallb (isnt c) s = true ->
  forall prev pos, scan r prev s pos 0 = map Keep s.
Proof.
  intros Hl. induction s as [|a s IH]; intros Hs prev pos; cbn [scan].
  - rewrite (at_none c) by auto. reflexivity.
  - simpl in Hs. apply andb_true_iff in Hs as [Ha Hs].
    rewrite (at_none c); [|exact Hl|].
    + simpl. rewrite IH by exact Hs. reflexivity.
    + unfold isnt in Ha. apply negb_true_iff in Ha. exact Ha.
Qed.

(** A subject without the character that opens every match of the
    pattern goes through [re.sub] unchanged. *)
Lemma sub_none c r f s :
  leads c r = true -> forallb (isnt c) s = true -> sub r f s = s.
Proof.
  intros Hl Hs. unfold sub. rewrite (scan_none c) by assumption.
  induction s as [|a s IH]; [reflexivity|].
  simpl in *. apply andb_true_iff in Hs as [_ Hs]. rewrite IH by exact Hs.
  reflexivity.
Qed.

Lemma finditer_none c r s :
  leads c r = true -> forallb (isnt c) s = true -> finditer r s = [].
Proof.
  intros Hl Hs. unfold finditer. rewrite (scan_none c) by assumption.
  clear Hs. induction s as [|a s IH]; [reflexivity | exact IH].
Qed.

(** ** What the row and cell operations change *)

Ltac invert_matches :=
  repeat match goal with
         | H : Matches (Cat _ _) _ _ _ |- _ => inversion H; subst; clear H
         | H : Matches (Grp _ _) _ _ _ |- _ => inversion H; subst; clear H
         | H : Matches (Lit _) _ _ _ |- _ => inversion H; subst; clear H
         | H : Matches (Cls _) _ _ _ |- _ => inversion H; subst; clear H
         | H : Matches (Rep _ _ _ _) _ _ _ |- _ => inversion H; subst; clear H
         | H : Matches (Ref _) _ _ _ |- _ => inversion H; subst; clear H
         end.

Lemma item_sound r s i m :
  Py.item (finditer r s) i = Ok m -> Matches r [] (text m) (groups m).
Proof.
  intros H. apply item_ok, index_some in H as [_ H].
  apply finditer_sound in H. exact H.
Qed.

(** Each match of a scan was found by the matcher at some position. *)
Lemma scan_at r s : forall prev pos skip m,
  In (Hit m) (scan r prev s pos skip) ->
  exists prev' s' pos', at_ r prev' s' pos' = Some m.
Proof.
  induction s as [|c s IH]; intros prev pos skip m; simpl.
  - destruct skip; [|intros []].
    destruct (at_ r prev [] pos) as [m0|] eqn:E; [|intros []].
    intros [[= ->]|[]]. eauto.
  - destruct skip as [|k]; [|apply IH].
    destruct (at_ r prev (c :: s) pos) as [m0|] eqn:E.
    + assert (here : Hit m0 = Hit m ->
                     exists prev' s' pos', at_ r prev' s' pos' = Some m).
      { intros [= ->]. eauto. }
      destruct (length (text m0)).
      * intros [H|[H|H]]; [apply here, H | discriminate | eapply IH, H].
      * intros [H|H]; [apply here, H | eapply IH, H].
    + intros [H|H]; [discriminate | eapply IH, H].
Qed.

Lemma index_at r s i m :
  Py.index (finditer r s) i = Some m ->
  exists prev s' pos, at_ r prev s' pos = Some m.
Proof.
  intros H. apply index_some in H as [_ H].
  unfold finditer in H. apply ReFacts.in_hits in H.
  apply scan_at in H. exact H.
Qed.

(** A lazy repetition stops at the first place where what follows it
    matches. *)
Lemma rep_lazy_first {R : Type} p (k : @cont R) cs x s : forall n prev,
  rep false p 0 None n prev s cs k = Some x ->
  exists m s',
    s = m ++ s' /\ forallb p m = true
    /\ (exists prev', k prev' s' cs = Some x)
    /\ forall m1 c m2,
        m = m1 ++ c :: m2 -> exists prev', k prev' (c :: m2 ++ s') cs = None.
Proof.
  induction s as [|c s IH]; intros n prev; cbn [rep Nat.leb].
  - intros H. exists [], []. repeat split; eauto.
    intros [|? ?] ? ? E; discriminate.
  - destruct (p c && below None n) eqn:Ep.
    + destruct (k prev (c :: s) cs) as [y|] eqn:Ek.
      * intros [= <-]. exists [], (c :: s). repeat split; eauto.
        intros [|? ?] ? ? E; discriminate.
      * intros H. apply IH in H as [m [s' [-> [Hm [Hk Hmin]]]]].
        apply andb_true_iff in Ep as [Ep _].
        exists (c :: m), s'. simpl. rewrite Ep. repeat split; auto.
        intros [|c1 m1] c2 m2 E; injection E as -> ->.
        -- eauto.
        -- eapply Hmin. reflexivity.
    + intros H. exists [], (c :: s). repeat split; eauto.
      intros [|? ?] ? ? E; discriminate.
Qed.

(** A literal hands on the groups it was given. *)
Lemma lit_caps {R : Type} (t : str) (k : @cont R) : forall prev s cs,
  lit t prev s cs k = lit t prev s cs (fun prev' s' _ => k prev' s' cs).
Proof.
  induction t as [|x t IH]; intros prev s cs; simpl; [reflexivity|].
  destruct s as [|c s]; [reflexivity|].
  destruct (Ascii.eqb x c); [apply IH | reflexivity].
Qed.

Lemma lit_cat {R : Type} (a b : str) (k : @cont R) : forall prev s cs,
  lit a prev s cs (fun prev' s' _ => lit b prev' s' cs k)
  = lit (a ++ b) prev s cs k.
Proof.
  induction a as [|x a IH]; intros prev s cs; simpl; [reflexivity|].
  destruct s as [|c s]; [reflexivity|].
  destruct (Ascii.eqb x c); [apply IH | reflexivity].
Qed.

Ltac join_lits H :=
  rewrite lit_caps in H; cbv beta in H; cbn [lookup Nat.eqb] in H;
  rewrite lit_cat in H;
  rewrite lit_caps in H; cbv beta in H; rewrite lit_cat in H.

(** A literal fails only where the subject does not begin with it. *)
Lemma lit_none {R : Type} (t : str) (k : @cont R) :
  (forall prev s cs, k prev s cs <> None) ->
  forall prev s cs, lit t prev s cs k = None -> Py.startswith s t = false.
Proof.
  intros Hk. induction t as [|a t IH]; intros prev s cs; simpl.
  - intros H. exfalso. exact (Hk _ _ _ H).
  - destruct s as [|c s]; [reflexivity|].
    destruct (Ascii.eqb a c); [|reflexivity]. simpl. apply IH.
Qed.

(** When the closing text begins nowhere inside [body], its first
    occurrence in [body] followed by it is at the end of [body]. *)
Lemma first_close (close body rest : str) :
  (forall m1 c m2,
      body = m1 ++ c :: m2 ->
      Py.startswith (c :: m2 ++ close ++ rest) close = false) ->
  forall i, occurs_at close (body ++ close) i -> i = length body.
Proof.
  intros Hmin i [pre [post [E <-]]].
  apply app_eq_app in E as [l [[-> E]|[-> E]]].
  - destruct l as [|c m2]; [rewrite app_nil_r; reflexivity|].
    exfalso. specialize (Hmin pre c m2 eq_refl).
    apply (startswith_false _ _ (post ++ rest)) in Hmin. apply Hmin.
    change (c :: m2 ++ close ++ rest) with ((c :: m2) ++ close ++ rest).
    rewrite app_assoc, <- E, <- !app_assoc. reflexivity.
  - assert (Hl : length close = length (l ++ close ++ post))
      by (rewrite <- E; reflexivity).
    rewrite !length_app in Hl.
    destruct l; [rewrite app_nil_r; reflexivity | simpl in Hl; lia].
Qed.

(** The text of a row found by [row_re]: an opening tag, and a body
    that ends where the closing tag first comes. *)
Lemma row_span prev s pos m :
  at_ row_re prev s pos = Some m ->
  exists attrs body,
    text m = L "<tr" ++ attrs ++ L ">" ++ body ++ L "</tr>"
    /\ forallb (isnt ">") attrs = true
    /\ forall i, occurs_at (L "</tr>") (body ++ L "</tr>") i -> i = length body.
Proof.
  unfold at_.
  destruct (run row_re prev s [] (fun _ s' cs => Some (s', cs)))
    as [[s' cs]|] eqn:E; [|discriminate].
  intros [= <-]. cbn [text].
  unfold row_re, star, lazy_star in E. cbn [Cats run] in E.
  apply ReFacts.lit_inv in E as [prev1 [s1 [-> E]]].
  apply ReFacts.rep_inv in E as [prev2 [attrs [s2 [-> [Ha E]]]]].
  apply ReFacts.lit_inv in E as [prev3 [s3 [-> E]]].
  apply rep_lazy_first in E as [body [s4 [-> [_ [[prev4 E] Hmin]]]]].
  pose proof E as E'.
  apply ReFacts.lit_inv in E' as [prev5 [s5 [-> [= <- <-]]]].
  exists attrs, body. split; [|split; [exact Ha|]].
  - replace (L "<tr" ++ attrs ++ L ">" ++ body ++ L "</tr>" ++ s5)
      with ((L "<tr" ++ attrs ++ L ">" ++ body ++ L "</tr>") ++ s5)
      by (rewrite <- !app_assoc; reflexivity).
    apply ReFacts.firstn_sub_app.
  - apply (first_close _ _ s5). intros m1 c m2 Eb.
    destruct (Hmin m1 c m2 Eb) as [prev' Hn].
    apply lit_none in Hn; [exact Hn | discriminate].
Qed.

(** The text and the groups of a cell found by [cell_tag_re], its
    content ending where its closing tag first comes. *)
Lemma cell_span prev s pos m :
  at_ cell_tag_re prev s pos = Some m ->
  exists tag attrs content,
    text m = L "<" ++ tag ++ attrs ++ L ">" ++ content
               ++ L "</" ++ tag ++ L ">"
    /\ group m 1 = tag /\ group m 2 = attrs /\ group m 3 = content
    /\ (tag = L "th" \/ tag = L "td")
    /\ forallb (isnt ">") attrs = true
    /\ forall i,
        occurs_at (L "</" ++ tag ++ L ">")
                  (content ++ L "</" ++ tag ++ L ">") i ->
        i = length content.
Proof.
  unfold at_.
  destruct (run cell_tag_re prev s [] (fun _ s' cs => Some (s', cs)))
    as [[s' cs]|] eqn:E; [|discriminate].
  intros [= <-]. unfold group. cbn [text groups].
  unfold cell_tag_re, star, lazy_star in E. cbn [Cats run] in E.
  apply ReFacts.lit_inv in E as [prev1 [s1 [-> E]]].
  apply ReFacts.lit_inv in E as [prev2 [s2 [-> E]]].
  destruct s2 as [|c s2]; [discriminate|].
  destruct (among "hd" c) eqn:Hc; [|discriminate].
  change (L "t" ++ c :: s2) with ((L "t" ++ [c]) ++ s2) in E.
  rewrite ReFacts.firstn_sub_app in E.
  apply ReFacts.rep_inv in E as [prev3 [attrs [s3 [-> [Ha E]]]]].
  rewrite ReFacts.firstn_sub_app in E.
  apply ReFacts.lit_inv in E as [prev4 [s4 [-> E]]].
  apply rep_lazy_first in E as [content [s5 [-> [_ [[prev5 E] Hmin]]]]].
  rewrite ReFacts.firstn_sub_app in E.
  join_lits E.
  pose proof E as E'.
  apply ReFacts.lit_inv in E' as [prev6 [s6 [-> [= <- <-]]]].
  exists (L "t" ++ [c]), attrs, content. cbn [lookup Nat.eqb].
  split; [|repeat split; try reflexivity; try exact Ha].
  - match goal with
    | |- firstn (length ?w - length ?r) ?w = ?x =>
        replace w with (x ++ r)
          by (cbn [L list_ascii_of_string app];
              repeat first [rewrite <- app_assoc | rewrite <- app_comm_cons];
              reflexivity)
    end.
    apply ReFacts.firstn_sub_app.
  - unfold among in Hc. simpl in Hc. rewrite orb_false_r in Hc.
    apply orb_true_iff in Hc. rewrite !Ascii.eqb_eq in Hc.
    destruct Hc as [->| ->]; auto.
  - apply (first_close _ _ s6). intros m1 c1 m2 Eb.
    destruct (Hmin m1 c1 m2 Eb) as [prev' Hn].
    join_lits Hn.
    apply lit_none in Hn; [|discriminate].
    etransitivity; [|exact Hn].
    f_equal; cbn [L list_ascii_of_string app];
      repeat first [rewrite <- app_assoc | rewrite <- app_comm_cons];
      reflexivity.
Qed.

(** A located match inside a located match: where it lies, and the text
    around it. *)
Lemma nested_at r r' doc i j t m :
  Py.item (finditer r doc) i = Ok t ->
  Py.item (finditer r' (text t)) j = Ok m ->
  exists before after,
    doc = before ++ text m ++ after
    /\ length before = start t + start m
    /\ forall x,
        firstn (start t) doc
          ++ (firstn (start m) (text t) ++ x ++ skipn (end_ m) (text t))
          ++ skipn (end_ t) doc
        = before ++ x ++ after.
Proof.
  intros Ht Hm. apply item_ok, index_some in Ht as [_ Ht].
  apply item_ok, index_some in Hm as [_ Hm].
  apply ReFacts.finditer_span in Ht as [pre [post [E1 [E2 [E3 E4]]]]].
  apply ReFacts.finditer_span in Hm as [a [b [F1 [F2 [F3 F4]]]]].
  exists (pre ++ a), (b ++ post). rewrite E3, E4, F3, F4. split; [|split].
  - rewrite E1 at 1. rewrite F1 at 1. rewrite <- !app_assoc. reflexivity.
  - rewrite length_app. lia.
  - intros x. rewrite <- !app_assoc. reflexivity.
Qed.

(** X1. a successful [delete_table_row] cuts out the row it located, the
    match number [row_index] of the row pattern in the table number
    [table_index], and nothing else: the text from the opening tag of
    that row to the first closing tag of a row after it. *)
Theorem delete_table_row_exact (doc : str) (table_index row_index : Z)
        (new_html : str) :
  delete_table_row (Some doc) table_index row_index = Update new_html ->
  exists t r before attrs body after,
    Py.index (finditer table_re doc) table_index = Some t
    /\ Py.index (finditer row_re (text t)) row_index = Some r
    /\ text r = L "<tr" ++ attrs ++ L ">" ++ body ++ L "</tr>"
    /\ forallb (isnt ">") attrs = true
    /\ (forall i,
           occurs_at (L "</tr>") (body ++ L "</tr>") i -> i = length body)
    /\ doc = before ++ text r ++ after
    /\ length before = start t + start r
    /\ new_html = before ++ after.
Proof.
  unfold delete_table_row. intros H.
  located_table H t Et. cbv zeta in H. change (group t 0) with (text t) in H.
  located_table H r Er.
  destruct (Py.contains _ _); [discriminate|]. injection H as <-.
  destruct (nested_at _ _ _ _ _ _ _ Et Er) as [before [after [E1 [E2 E3]]]].
  apply item_ok in Et, Er.
  destruct (index_at _ _ _ _ Er) as [prev [s [pos Hat]]].
  destruct (row_span _ _ _ _ Hat) as [attrs [body [E4 [Ha Hb]]]].
  exists t, r, before, attrs, body, after.
  repeat split; try assumption.
  specialize (E3 []). simpl in E3. exact E3.
Qed.

Lemma delete_table_row_exact_witness :
  exists t r before attrs body after,
    Py.index (finditer table_re sample_page) 0 = Some t
    /\ Py.index (finditer row_re (text t)) 1 = Some r
    /\ text r = L "<tr" ++ attrs ++ L ">" ++ body ++ L "</tr>"
    /\ forallb (isnt ">") attrs = true
    /\ (forall i,
           occurs_at (L "</tr>") (body ++ L "</tr>") i -> i = length body)
    /\ sample_page = before ++ text r ++ after
    /\ length before = start t + start r
    /\ L "<p>x</p><table><tbody><tr><th>A</th><th>B</th></tr></tbody></table><p>y</p>"
       = before ++ after.
Proof.
  apply (delete_table_row_exact sample_page 0 1). vm_compute. reflexivity.
Defined.

(** X2. a successful [insert_table_row] puts the new row between two
    pieces that make up the page: nothing is removed or moved. *)
Theorem insert_table_row_exact (doc : str) (table_index row_position : Z)
        (cell_values : list str) (is_header : bool) (new_html : str) :
  insert_table_row (Some doc) table_index row_position cell_values is_header
  = Update new_html ->
  exists before after,
    doc = before ++ after
    /\ new_html = before ++ new_row cell_values is_header ++ after.
Proof.
  unfold insert_table_row. intros H.
  located_table H t Et. cbv zeta in H. change (group t 0) with (text t) in H.
  remember (new_row cell_values is_header) as nr eqn:Hnr in *. clear Hnr.
  destruct (_ <? _)%Z; [discriminate|].
  destruct (row_insert_pos _ _ _) as [p|]; [|discriminate].
  injection H as <-.
  apply item_ok, index_some in Et as [_ Et].
  apply ReFacts.finditer_span in Et as [pre [post [E1 [_ [E3 E4]]]]].
  exists (pre ++ firstn p (text t)), (skipn p (text t) ++ post).
  rewrite E3, E4. split.
  - rewrite E1 at 1. rewrite <- (firstn_skipn p (text t)) at 1.
    rewrite <- !app_assoc. reflexivity.
  - rewrite <- !app_assoc. reflexivity.
Qed.

Lemma insert_table_row_exact_witness :
  exists before after,
    sample_page = before ++ after
    /\ L "<p>x</p><table><tbody><tr><th>A</th><th>B</th></tr><tr><td>1</td><td>2</td></tr><tr><td>3</td><td>4</td></tr></tbody></table><p>y</p>"
       = before ++ new_row [L "3"; L "4"] false ++ after.
Proof.
  apply (insert_table_row_exact sample_page 0 2 [L "3"; L "4"] false).
  vm_compute. reflexivity.
Defined.

(** X3. a successful [update_table_cell] rewrites the content of the cell
    it located, the match number [column_index] of the cell pattern in
    the located row of the located table, and nothing else.  The cell
    runs from its opening [th] or [td] tag to the first closing tag of
    the same name after it; its tag and attributes are kept; with
    [append] the old content stays in front of the new. *)
Theorem update_table_cell_exact
        (doc : str) (table_index row_index column_index : Z)
        (content : str) (append : bool) (new_html : str) :
  update_table_cell (Some doc) table_index row_index column_index
                    content append = Update new_html ->
  exists t r c before tag attrs old after,
    Py.index (finditer table_re doc) table_index = Some t
    /\ Py.index (finditer row_re1 (text t)) row_index = Some r
    /\ Py.index (finditer cell_tag_re (text r)) column_index = Some c
    /\ text c = L "<" ++ tag ++ attrs ++ L ">" ++ old ++ L "</" ++ tag ++ L ">"
    /\ (tag = L "th" \/ tag = L "td")
    /\ forallb (isnt ">") attrs = true
    /\ (forall i,
           occurs_at (L "</" ++ tag ++ L ">") (old ++ L "</" ++ tag ++ L ">") i ->
           i = length old)
    /\ doc = before ++ text c ++ after
    /\ length before = start t + start r + start c
    /\ new_html
       = before
           ++ (L "<" ++ tag ++ attrs ++ L ">"
                 ++ ((if append then old else []) ++ _process_cell_content content)
                 ++ L "</" ++ tag ++ L ">")
           ++ after.
Proof.
  unfold update_table_cell. intros H.
  located_table H t Et. cbv zeta in H. change (group t 0) with (text t) in H.
  located_table H r Er. change (group r 0) with (text r) in H.
  destruct (_ || _); [discriminate|].
  located_table H c Ec.
  remember (_process_cell_content content) as pc eqn:Hpc in *. clear Hpc.
  injection H as <-.
  destruct (nested_at _ _ _ _ _ _ _ Et Er) as [b1 [a1 [E1 [L1 E2]]]].
  rewrite E2.
  apply item_ok in Et, Er, Ec.
  destruct (index_at _ _ _ _ Ec) as [prev [s [pos Hat]]].
  destruct (cell_span _ _ _ _ Hat)
    as [tag [attrs [old [G0 [G1 [G2 [G3 [Ht [Ha Hmin]]]]]]]]].
  destruct (index_some _ _ _ Ec) as [_ Hin].
  apply ReFacts.finditer_span in Hin as [b2 [a2 [F1 [F2 [F3 F4]]]]].
  unfold group in G1, G2, G3. rewrite F3, F4, G1, G2, G3.
  exists t, r, c, (b1 ++ b2), tag, attrs, old, (a2 ++ a1).
  repeat split; try assumption.
  - rewrite E1, F1 at 1. rewrite <- !app_assoc. reflexivity.
  - rewrite length_app. lia.
  - destruct append; simpl;
      repeat first [rewrite <- app_assoc | rewrite <- app_comm_cons];
      reflexivity.
Qed.

Lemma update_table_cell_exact_witness :
  exists t r c before tag attrs old after,
    Py.index (finditer table_re sample_page) 0 = Some t
    /\ Py.index (finditer row_re1 (text t)) 1 = Some r
    /\ Py.index (finditer cell_tag_re (text r)) 1 = Some c
    /\ text c = L "<" ++ tag ++ attrs ++ L ">" ++ old ++ L "</" ++ tag ++ L ">"
    /\ (tag = L "th" \/ tag = L "td")
    /\ forallb (isnt ">") attrs = true
    /\ (forall i,
           occurs_at (L "</" ++ tag ++ L ">") (old ++ L "</" ++ tag ++ L ">") i ->
           i = length old)
    /\ sample_page = before ++ text c ++ after
    /\ length before = start t + start r + start c
    /\ L "<p>x</p><table><tbody><tr><th>A</th><th>B</th></tr><tr><td>1</td><td>2z</td></tr></tbody></table><p>y</p>"
       = before
           ++ (L "<" ++ tag ++ attrs ++ L ">"
                 ++ ((if true then old else []) ++ _process_cell_content (L "z"))
                 ++ L "</" ++ tag ++ L ">")
           ++ after.
Proof.
  apply (update_table_cell_exact sample_page 0 1 1 (L "z") true).
  vm_compute. reflexivity.
Defined.

(** ** Negative table indices *)

Lemma item_underflow {A : Type} (l : list A) (i : Z) :
  (i < - len l)%Z -> Py.item l i = Raise IndexError.
Proof.
  intros H. unfold Py.item, Py.index. fold (len l).
  assert (0 <= len l)%Z by (unfold len; lia).
  destruct (i <? 0)%Z eqn:E1; [|apply Z.ltb_ge in E1; lia].
  destruct (i + len l <? 0)%Z eqn:E2; [reflexivity|].
  apply Z.ltb_ge in E2. lia.
Qed.

Lemma item_wrap {A : Type} (l : list A) (i : Z) :
  (- len l <= i < 0)%Z -> Py.item l i = Py.item l (i + len l).
Proof.
  intros H. unfold Py.item, Py.index. fold (len l).
  destruct (i <? 0)%Z eqn:E1; [|apply Z.ltb_ge in E1; lia].
  destruct (i + len l <? 0)%Z eqn:E2; [apply Z.ltb_lt in E2; lia|].
  destruct (i + len l <? 0)%Z eqn:E3; [discriminate|]. reflexivity.
Qed.

Lemma guard_false {A : Type} (l : list A) (i : Z) :
  (i < len l)%Z -> (len l <=? i)%Z = false.
Proof. intros H. apply Z.leb_gt. exact H. Qed.

(** X4. a table index below minus the number of tables makes each of the
    five table operations raise [IndexError]: the range test only looks
    at the upper end. *)
Theorem table_index_underflow_raises
        (e : table_edit) (doc : str) (table_index : Z) :
  (table_index < - len (tables doc))%Z ->
  run_edit e (Some doc) table_index = Raised IndexError.
Proof.
  intros H. destruct (len_tables doc) as [Hg Hp].
  assert (0 <= len (tables doc))%Z by (unfold len; lia).
  destruct e; simpl;
    [unfold insert_column | unfold delete_column | unfold update_table_cell
     | unfold insert_table_row | unfold delete_table_row];
    rewrite guard_false by lia;
    rewrite item_underflow by lia; reflexivity.
Qed.

Lemma table_index_underflow_raises_witness :
  delete_table_row (Some sample_page) (-2) 0 = Raised IndexError.
Proof.
  apply (table_index_underflow_raises (DeleteTableRow 0) sample_page (-2)).
  vm_compute. reflexivity.
Defined.

(** X5. a negative table index from minus the number of tables on counts
    from the last table: the operation does what it does at the index
    plus the number of tables. *)
Theorem table_index_negative_wraps
        (e : table_edit) (doc : str) (table_index : Z) :
  (- len (tables doc) <= table_index < 0)%Z ->
  run_edit e (Some doc) table_index
  = run_edit e (Some doc) (table_index + len (tables doc)).
Proof.
  intros H. destruct (len_tables doc) as [Hg Hp].
  destruct e; simpl;
    [unfold insert_column | unfold delete_column | unfold update_table_cell
     | unfold insert_table_row | unfold delete_table_row];
    rewrite !guard_false by lia;
    rewrite item_wrap by lia; rewrite ?Hg, ?Hp; reflexivity.
Qed.

Lemma table_index_negative_wraps_witness :
  delete_table_row (Some sample_page) (-1) 1
  = delete_table_row (Some sample_page) 0 1.
Proof.
  apply (table_index_negative_wraps (DeleteTableRow 1) sample_page (-1)).
  vm_compute. split; [discriminate | reflexivity].
Defined.

(** ** Column deletion beyond every row *)

(** The text of a table found by [table_pattern] is its three groups. *)
Lemma table_groups m :
  Matches table_pattern [] (text m) (groups m) ->
  text m = group m 1 ++ group m 2 ++ group m 3.
Proof.
  unfold group.
  remember (text m) as tx. remember (groups m) as gs. clear Heqtx Heqgs.
  cbv [table_pattern Cats star lazy_star]. intros H. invert_matches.
  simpl. repeat first [rewrite <- app_assoc | rewrite <- app_comm_cons].
  reflexivity.
Qed.

(** ** Column positions beyond a row *)

Lemma item_in_range {A : Type} (l : list A) (i : Z) :
  (0 <= i < len l)%Z -> exists a, Py.item l i = Ok a.
Proof.
  intros H. unfold Py.item, Py.index.
  destruct (i <? 0)%Z eqn:E; [apply Z.ltb_lt in E; lia|].
  destruct (nth_error l (Z.to_nat i)) as [a|] eqn:En; [eauto|].
  apply nth_error_None in En. unfold len in H. lia.
Qed.

(** [process_row] of [insert_column] clamps the position to the number of
    cells of the row, and with a position at or beyond that number it
    raises nothing. *)
Lemma insert_column_row_clamp
      (column_position : Z) (column_name default_value : str)
      (header_style : option str) (row_match : Match) :
  (len (finditer cell_pattern (group row_match 2)) <= column_position)%Z ->
  exists out,
    insert_column_process_row column_position column_name default_value
                              header_style row_match = Ok out
    /\ insert_column_process_row
         (len (finditer cell_pattern (group row_match 2)))
         column_name default_value header_style row_match = Ok out.
Proof.
  intros H. unfold insert_column_process_row. cbv zeta.
  destruct (finditer cell_pattern (group row_match 2)) as [|cell0 cells] eqn:E;
    [eauto|].
  set (l := cell0 :: cells) in *.
  assert (Hl : (0 < len l)%Z) by (unfold len, l; simpl; lia).
  rewrite (Z.min_r _ _ H), Z.min_id.
  destruct (search colspan_re (group cell0 1)) as [cm|];
    [destruct (len l <=? 2)%Z; [eauto|]|].
  all: apply Z.ltb_lt in Hl; rewrite Hl; apply Z.ltb_lt in Hl.
  all: destruct (item_in_range l (len l - 1) ltac:(lia)) as [ref ->].
  all: cbn [bind].
  all: assert ((len l =? 0)%Z = false) as -> by (apply Z.eqb_neq; lia).
  all: rewrite Z.leb_refl; cbn [bind]; eauto.
Qed.

Lemma render_ext (f g : Match -> result str) ps :
  (forall m, In (Hit m) ps -> f m = g m) -> render f ps = render g ps.
Proof.
  induction ps as [|[c|m] ps IH]; intros H; cbn [render].
  - reflexivity.
  - rewrite IH by (intros m Hm; apply H; right; exact Hm). reflexivity.
  - rewrite (H m) by (left; reflexivity).
    rewrite IH by (intros m' Hm; apply H; right; exact Hm). reflexivity.
Qed.

Lemma render_total (f : Match -> result str) ps :
  (forall m, In (Hit m) ps -> exists out, f m = Ok out) ->
  exists out, render f ps = Ok out.
Proof.
  induction ps as [|[c|m] ps IH]; intros H; cbn [render].
  - eauto.
  - destruct IH as [out ->]; [intros m Hm; apply H; right; exact Hm|].
    simpl. eauto.
  - destruct (H m) as [x ->]; [left; reflexivity|].
    destruct IH as [out ->]; [intros m' Hm; apply H; right; exact Hm|].
    simpl. eauto.
Qed.

(** With a position at or beyond the number of cells of every row,
    [insert_column] succeeds, and the position itself does not matter. *)
Lemma insert_column_beyond
      (doc : str) (table_index column_position column_position' : Z)
      (column_name default_value : str) (header_style : option str)
      (t : Match) :
  Py.index (finditer table_pattern doc) table_index = Some t ->
  (forall row,
      In row (finditer row_pattern (group t 2)) ->
      (len (finditer cell_pattern (group row 2)) <= column_position)%Z
      /\ (len (finditer cell_pattern (group row 2)) <= column_position')%Z) ->
  exists new_html,
    insert_column (Some doc) table_index column_position column_name
                  default_value header_style = Update new_html
    /\ insert_column (Some doc) table_index column_position' column_name
                     default_value header_style = Update new_html.
Proof.
  intros Ht Hrows. unfold insert_column.
  destruct (located _ _ _ Ht) as [-> ->]. cbv zeta. unfold sub_try.
  rewrite (render_ext
             (insert_column_process_row column_position' column_name
                                        default_value header_style)
             (insert_column_process_row column_position column_name
                                        default_value header_style)).
  - destruct (render_total
                (insert_column_process_row column_position column_name
                                           default_value header_style)
                (scan row_pattern None (group t 2) 0 0)) as [out ->];
      [|eauto].
    intros row Hrow. apply ReFacts.in_hits in Hrow.
    destruct (insert_column_row_clamp
                column_position column_name default_value header_style row
                (proj1 (Hrows row Hrow))) as [out [-> _]].
    eauto.
  - intros row Hrow. apply ReFacts.in_hits in Hrow.
    destruct (Hrows row Hrow) as [H1 H2].
    destruct (insert_column_row_clamp
                column_position column_name default_value header_style row H1)
      as [out [-> E]].
    destruct (insert_column_row_clamp
                column_position' column_name default_value header_style row H2)
      as [out' [-> E']].
    congruence.
Qed.

Lemma delete_column_beyond
      (doc : str) (table_index column_position : Z) (t : Match) :
  Py.index (finditer table_pattern doc) table_index = Some t ->
  (forall row,
      In row (finditer row_pattern (group t 2)) ->
      (len (finditer cell_re (group row 2)) <= column_position)%Z) ->
  delete_column (Some doc) table_index column_position = Update doc.
Proof.
  intros Ht Hrows. unfold delete_column.
  destruct (located _ _ _ Ht) as [-> ->]. cbv zeta.
  rewrite sub_try_same.
  - rewrite <- (table_groups t) by (apply item_sound with doc table_index,
                                     item_ok, Ht).
    destruct (index_some _ _ _ Ht) as [_ Hin].
    apply ReFacts.finditer_span in Hin as [pre [post [E1 [_ [E3 E4]]]]].
    rewrite E3, E4. congruence.
  - intros row Hrow. apply delete_column_row_guard. apply Hrows, Hrow.
Qed.

(** X6. when no row of the table has more cells than the column position,
    [delete_column] hands the page to [update_page_html] as it was. *)
Theorem delete_column_beyond_rows
        (doc : str) (table_index column_position : Z) (t : Match) :
  Py.index (finditer table_pattern doc) table_index = Some t ->
  (forall row,
      In row (finditer row_pattern (group t 2)) ->
      (len (finditer cell_re (group row 2)) <= column_position)%Z) ->
  delete_column (Some doc) table_index column_position = Update doc.
Proof. apply delete_column_beyond. Qed.

Lemma delete_column_beyond_rows_witness :
  delete_column (Some sample_page) 0 5 = Update sample_page.
Proof.
  eapply (delete_column_beyond_rows sample_page 0 5).
  - vm_compute. reflexivity.
  - intros row Hin. vm_compute in Hin.
    destruct Hin as [<-|[<-|[]]]; vm_compute; discriminate.
Defined.



(** ** Patching with an empty fragment *)

(** X7. with an empty [old_html], [edit_page] never reports a missing
    fragment: it puts the new fragment in front of the page. *)
Theorem edit_page_empty_old (doc new : str) :
  edit_page (Some doc) [] new = Update (patch_fragment new ++ doc).
Proof.
  unfold edit_page, Py.contains, Py.replace1.
  destruct doc; reflexivity.
Qed.

(** ** Listing tables *)

Lemma table_content_spans (doc : str) :
  map span (finditer table_content_re doc) = tables doc.
Proof.
  unfold tables, finditer. apply scan_spans. intros prev s pos.
  rewrite (at_ungroup table_content_re) by reflexivity. reflexivity.
Qed.

Lemma table_entries_index tables0 : forall idx,
  map index (table_entries idx tables0) = seq idx (length tables0).
Proof.
  induction tables0 as [|t l IH]; intros idx; simpl; [reflexivity|].
  rewrite IH. reflexivity.
Qed.

Lemma len_list_tables (doc : str) :
  len (list_tables (Some doc)) = len (tables doc).
Proof.
  unfold len. f_equal.
  rewrite <- (length_map index), <- table_content_spans.
  unfold list_tables. rewrite table_entries_index, length_seq.
  unfold findall1. rewrite !length_map. reflexivity.
Qed.


Lemma in_table_entries info l : forall idx,
  In info (table_entries idx l) -> exists i t, info = table_entry i t.
Proof.
  induction l as [|t l IH]; intros idx; simpl; [intros []|].
  intros [<-|H]; [eauto | apply (IH _ H)].
Qed.

(** X9. in each entry of [list_tables], [col_count] is the number of header
    cells, no header cell is longer than 30 characters, the preview joins
    at most the first five of them, and a table without rows has no
    columns. *)
Theorem list_tables_entries (page_info : option str) (info : table_info) :
  In info (list_tables page_info) ->
  col_count info = length (header_row info)
  /\ Forall (fun h => length h <= 30) (header_row info)
  /\ (row_count info = 0 -> col_count info = 0)
  /\ (length (header_row info) <= 5 ->
      preview info = Py.join (L " | ") (header_row info)).
Proof.
  destruct page_info as [doc|]; [|intros []]. unfold list_tables.
  intros H. apply in_table_entries in H as [idx [t ->]].
  unfold table_entry. cbn [col_count header_row row_count preview].
  rewrite length_map. repeat split.
  - apply Forall_map, Forall_forall. intros c _. apply firstn_le_length.
  - intros H. apply length_zero_iff_nil in H. rewrite H. reflexivity.
  - intros H. rewrite firstn_all2 by (rewrite length_map; exact H).
    rewrite length_map.
    destruct (5 <? length (first_cells (findall1 row_re1 t))) eqn:E.
    + apply Nat.ltb_lt in E. lia.
    + apply app_nil_r.
Qed.

Lemma list_tables_entries_witness :
  let info :=
    table_entry 0 (L "<tbody><tr><th>A</th><th>B</th></tr><tr><td>1</td><td>2</td></tr></tbody>") in
  col_count info = length (header_row info)
  /\ Forall (fun h => length h <= 30) (header_row info)
  /\ (row_count info = 0 -> col_count info = 0)
  /\ (length (header_row info) <= 5 ->
      preview info = Py.join (L " | ") (header_row info)).
Proof.
  apply (list_tables_entries (Some sample_page)).
  vm_compute. left. reflexivity.
Defined.

(** ** Images *)

Lemma split_nonempty s sep : Py.split s sep <> [].
Proof.
  destruct s as [|c s]; simpl; [discriminate|].
  destruct (Ascii.eqb c sep); [discriminate|].
  destruct (Py.split s sep); discriminate.
Qed.

(** Splitting and joining again gives the string back. *)
Lemma join_split s sep : Py.join [sep] (Py.split s sep) = s.
Proof.
  induction s as [|c s IH]; [reflexivity|]. simpl.
  pose proof (split_nonempty s sep) as Hne.
  destruct (Ascii.eqb c sep) eqn:E.
  - apply Ascii.eqb_eq in E as ->.
    destruct (Py.split s sep) as [|h t]; [contradiction|].
    cbn [Py.join]. simpl. rewrite <- IH. reflexivity.
  - destruct (Py.split s sep) as [|h t]; [contradiction|].
    rewrite <- IH. destruct t; reflexivity.
Qed.

(** The pieces of a split hold no separator. *)
Lemma split_pieces s sep :
  Forall (fun x => forallb (isnt sep) x = true) (Py.split s sep).
Proof.
  induction s as [|c s IH]; simpl.
  - repeat constructor.
  - destruct (Ascii.eqb c sep) eqn:E.
    + constructor; [reflexivity | exact IH].
    + destruct (Py.split s sep) as [|h t].
      * repeat constructor. simpl. unfold isnt. rewrite E. reflexivity.
      * inversion IH; subst. constructor; [|assumption].
        simpl. unfold isnt at 1. rewrite E. simpl. assumption.
Qed.

Lemma join_last (sep : str) (l : list str) :
  exists dir, Py.join sep l = dir ++ last l [].
Proof.
  induction l as [|x l [dir IH]].
  - exists []. reflexivity.
  - destruct l as [|y l].
    + exists []. reflexivity.
    + exists (x ++ sep ++ dir).
      change (Py.join sep (x :: y :: l))
        with (x ++ sep ++ Py.join sep (y :: l)).
      change (last (x :: y :: l) []) with (last (y :: l) []).
      rewrite IH, <- !app_assoc. reflexivity.
Qed.

(** The last component of a path. *)
Lemma last_component (s : str) (sep : ascii) :
  forallb (isnt sep) (last (Py.split s sep) []) = true
  /\ exists dir, s = dir ++ last (Py.split s sep) [].
Proof.
  split.
  - pose proof (split_pieces s sep) as H.
    pose proof (split_nonempty s sep) as Hne.
    induction H as [|x l Hx Hl IH]; [contradiction|].
    destruct l; [exact Hx|]. apply IH. discriminate.
  - destruct (join_last [sep] (Py.split s sep)) as [dir H].
    rewrite join_split in H. exists dir. exact H.
Qed.

(** The group of a match of [attachment_pattern] or [url_pattern]. *)
Lemma quoted_value_shape (prefix : string) m :
  Matches (Cats [Lit prefix; Cls (only dq); Grp 1 (plus (isnt dq));
                 Cls (only dq)]) [] (text m) (groups m) ->
  group m 1 <> [] /\ forallb (isnt dq) (group m 1) = true.
Proof.
  unfold group.
  remember (text m) as tx. remember (groups m) as gs. clear Heqtx Heqgs.
  cbv [Cats plus]. intros H. invert_matches. simpl.
  split; [|assumption].
  match goal with
  | Hl : 1 <= length ?x |- ?x <> [] => intros ->; simpl in Hl; lia
  end.
Qed.

(** X10. what [_extract_images] reports.  An attachment entry has a
    non-empty file name without a double quote and the download address
    built from the base address, the page and that name.  An external
    entry has an address that ends, in lower case, with one of the image
    suffixes, and its file name is the last component of the address, with
    no slash in it. *)
Theorem extract_images_entries (base_url html_content page_id : str)
        (img : image) :
  In img (_extract_images base_url html_content page_id) ->
  match type img with
  | attachment =>
      url img = base_url ++ L "/download/attachments/" ++ page_id ++ L "/"
                         ++ filename img
      /\ filename img <> []
      /\ forallb (isnt dq) (filename img) = true
  | external =>
      existsb (fun ext => Py.endswith (Py.lower (url img)) ext) image_exts
      = true
      /\ forallb (isnt "/") (filename img) = true
      /\ (exists dir, url img = dir ++ filename img)
      /\ forallb (isnt dq) (url img) = true
  end.
Proof.
  unfold _extract_images. cbv zeta. rewrite in_app_iff, in_map_iff, in_flat_map.
  intros [[m [<- Hm]]|[m [Hm Hin]]].
  - simpl. apply finditer_sound in Hm.
    destruct (quoted_value_shape _ m Hm) as [Hne Hq]. auto.
  - destruct (existsb _ image_exts) eqn:E; [|destruct Hin].
    destruct Hin as [<-|[]]. simpl. apply finditer_sound in Hm.
    destruct (quoted_value_shape _ m Hm) as [Hne Hq].
    destruct (last_component (group m 1) "/") as [H1 H2]. auto.
Qed.

Lemma extract_images_entries_witness :
  let img := {| filename := L "Logo.PNG"; url := L "http://h/a/Logo.PNG";
                type := external |} in
  existsb (fun ext => Py.endswith (Py.lower (url img)) ext) image_exts = true
  /\ forallb (isnt "/") (filename img) = true
  /\ (exists dir, url img = dir ++ filename img)
  /\ forallb (isnt dq) (url img) = true.
Proof.
  apply (extract_images_entries
           (L "http://wiki") images_page (L "42")
           {| filename := L "Logo.PNG"; url := L "http://h/a/Logo.PNG";
              type := external |}).
  vm_compute. right. left. reflexivity.
Defined.

(** ** Plain text *)

Lemma free_of_isnt (chars : string) (a : ascii) (s : str) :
  among chars a = true -> free_of chars s = true -> forallb (isnt a) s = true.
Proof.
  intros Ha. unfold free_of. induction s as [|c s IH]; simpl; [reflexivity|].
  rewrite !andb_true_iff. intros [Hc Hs]. split; [|apply IH, Hs].
  unfold isnt. destruct (Ascii.eqb c a) eqn:E; [|reflexivity].
  apply Ascii.eqb_eq in E as ->. rewrite Ha in Hc. discriminate.
Qed.

Ltac plain_side chars H :=
  first [ reflexivity
        | apply (free_of_isnt chars); [reflexivity | exact H] ].

Lemma inline_plain (line : str) :
  free_of "![*`" line = true -> _process_inline_formats line = line.
Proof.
  intros H. unfold _process_inline_formats.
  rewrite (sub_none "!" md_image_re) by plain_side ("![*`"%string) H.
  rewrite (sub_none "[" link_re) by plain_side ("![*`"%string) H.
  rewrite (sub_none "*" bold_re) by plain_side ("![*`"%string) H.
  rewrite (sub_none "*" italic_re) by plain_side ("![*`"%string) H.
  rewrite (sub_none "`" code_re) by plain_side ("![*`"%string) H.
  reflexivity.
Qed.

(** X12. a line without [!], [[], [*] and backquote goes through
    [_process_inline_formats] unchanged. *)
Theorem inline_formats_plain (line : str) :
  free_of "![*`" line = true -> _process_inline_formats line = line.
Proof. exact (inline_plain line). Qed.

(** X13. a cell value without [[], [!], [*], [_] and backquote goes through
    [_process_cell_content] unchanged. *)
Theorem cell_content_plain (content : str) :
  free_of "[!*_`" content = true -> _process_cell_content content = content.
Proof.
  intros H. unfold _process_cell_content.
  rewrite (sub_none "[" image_pattern) by plain_side ("[!*_`"%string) H.
  rewrite (sub_none "!" md_image_re) by plain_side ("[!*_`"%string) H.
  rewrite (sub_none "*" bold_re) by plain_side ("[!*_`"%string) H.
  rewrite (sub_none "_" bold_underscore_re) by plain_side ("[!*_`"%string) H.
  rewrite (sub_none "*" cell_italic_re) by plain_side ("[!*_`"%string) H.
  rewrite (sub_none "`" code_re) by plain_side ("[!*_`"%string) H.
  rewrite (sub_none "[" link_re) by plain_side ("[!*_`"%string) H.
  destruct (Py.startswith _ _); reflexivity.
Qed.

Lemma cell_content_plain_witness :
  _process_cell_content (L "<b>4.5</b> kg") = L "<b>4.5</b> kg".
Proof. apply (cell_content_plain (L "<b>4.5</b> kg")). reflexivity. Defined.

Lemma inline_formats_plain_witness :
  _process_inline_formats (L "a_b (c) #1") = L "a_b (c) #1".
Proof. apply (inline_formats_plain (L "a_b (c) #1")). reflexivity. Defined.

(** ** Blank input *)

Lemma split_forall (p : ascii -> bool) s sep :
  forallb p s = true ->
  Forall (fun x => forallb p x = true) (Py.split s sep).
Proof.
  induction s as [|c s IH]; simpl; intros H.
  - repeat constructor.
  - apply andb_true_iff in H as [Hc Hs]. specialize (IH Hs).
    destruct (Ascii.eqb c sep).
    + constructor; [reflexivity | exact IH].
    + destruct (Py.split s sep) as [|h t].
      * repeat constructor. simpl. rewrite Hc. reflexivity.
      * inversion IH; subst. constructor; [|assumption].
        simpl. rewrite Hc. assumption.
Qed.

Lemma lstrip_blank s : forallb Py.isspace s = true -> Py.lstrip s = [].
Proof.
  induction s as [|c s IH]; simpl; [reflexivity|].
  intros H. apply andb_true_iff in H as [-> Hs]. apply IH, Hs.
Qed.

Lemma strip_blank s : forallb Py.isspace s = true -> Py.strip s = [].
Proof.
  intros H. unfold Py.strip. rewrite lstrip_blank by exact H. reflexivity.
Qed.

(** A whitespace character is none of the characters the compiler gives
    a meaning to. *)
Lemma space_plain c :
  Py.isspace c = true ->
  Py.escape_char c = [c] /\ among "![*`" c = false.
Proof.
  destruct c as [[] [] [] [] [] [] [] []]; intros H;
    try discriminate H; split; reflexivity.
Qed.

Lemma blank_escape s : forallb Py.isspace s = true -> Py.escape s = s.
Proof.
  induction s as [|c s IH]; simpl; [reflexivity|].
  intros H. apply andb_true_iff in H as [Hc Hs].
  unfold Py.escape in *. simpl.
  rewrite (proj1 (space_plain c Hc)), IH by exact Hs. reflexivity.
Qed.

Lemma blank_free s : forallb Py.isspace s = true -> free_of "![*`" s = true.
Proof.
  unfold free_of. induction s as [|c s IH]; simpl; [reflexivity|].
  intros H. apply andb_true_iff in H as [Hc Hs].
  rewrite (proj2 (space_plain c Hc)), IH by exact Hs. reflexivity.
Qed.

(** A blank line leaves an idle state of the compiler as it is. *)
Lemma md_step_blank (st : md_state) (line : str) :
  idle st -> forallb Py.isspace line = true -> md_step st line = st.
Proof.
  intros [Hc [Hl Ht]] Hb. unfold md_step.
  rewrite (strip_blank line Hb). cbv zeta.
  rewrite Hc, Hl.
  change (Py.startswith [] (L "```")) with false.
  change (Py.startswith [] (L "|")) with false.
  cbv iota. cbn [andb]. rewrite Ht.
  rewrite (blank_escape line Hb), (inline_plain line (blank_free _ Hb)).
  rewrite (strip_blank line Hb). reflexivity.
Qed.

Lemma fold_blank (lines : list str) (st : md_state) :
  idle st ->
  Forall (fun x => forallb Py.isspace x = true) lines ->
  fold_left md_step lines st = st.
Proof.
  intros Hi H. induction H as [|x l Hx Hl IH]; [reflexivity|].
  simpl. rewrite md_step_blank by assumption. exact IH.
Qed.

Lemma compile_blank (markdown_content : str) :
  forallb Py.isspace markdown_content = true ->
  markdown_to_confluence markdown_content = [].
Proof.
  intros H. unfold markdown_to_confluence. cbv zeta.
  rewrite fold_blank.
  - reflexivity.
  - repeat split.
  - apply split_forall, H.
Qed.

(** X14. Markdown made of whitespace only compiles to the empty string,
    and so does the empty string. *)
Theorem markdown_blank (markdown_content : str) :
  forallb Py.isspace markdown_content = true ->
  markdown_to_confluence markdown_content = [].
Proof. exact (compile_blank markdown_content). Qed.

(** ** The decompiler on text without markup *)

(** X15. on text without [<], the rewrites of [confluence_to_markdown] for
    tags and macros do nothing: the result is the text with its entities
    decoded, its blank lines collapsed, trimmed. *)
Theorem decompile_without_markup (unescape : str -> str) (html_content : str) :
  forallb (isnt "<") html_content = true ->
  confluence_to_markdown unescape html_content
  = Py.strip (collapse_blank_lines (unescape html_content)).
Proof.
  intros H. unfold confluence_to_markdown, convert_heading. cbv zeta.
  repeat rewrite (sub_none "<" _ _ html_content) by
      first [reflexivity | exact H].
  reflexivity.
Qed.

Lemma decompile_without_markup_witness :
  confluence_to_markdown (fun x => x) (L " a > b" ++ [nl; nl; nl] ++ L "c ")
  = L "a > b" ++ [nl; nl] ++ L "c".
Proof.
  rewrite (decompile_without_markup
             (fun x => x) (L " a > b" ++ [nl; nl; nl] ++ L "c ") eq_refl).
  vm_compute. reflexivity.
Defined.

Lemma markdown_blank_witness :
  markdown_to_confluence (L "  " ++ [nl; nl] ++ L " ") = [].
Proof.
  apply (markdown_blank (L "  " ++ [nl; nl] ++ L " ")). reflexivity.
Defined.

(** ** Collapsing blank lines once is enough *)

Lemma runs_ok_newlines s : forall k,
  runs_ok k s = true -> newlines s < 3.
Proof.
  assert (G : forall s k, runs_ok k s = true ->
                          newlines s = 0 \/ k + newlines s < 3).
  { induction s0 as [|c s0 IH]; intros k; simpl; [auto|].
    rewrite newlines_cons. destruct (Ascii.eqb c nl); [|auto].
    rewrite andb_true_iff, Nat.ltb_lt. intros [Hk H].
    right. destruct (IH _ H) as [->|]; lia. }
  intros k H. destruct (G s k H); lia.
Qed.

Lemma runs_ok_tail c s k :
  runs_ok k (c :: s) = true -> exists k', runs_ok k' s = true.
Proof.
  simpl. destruct (Ascii.eqb c nl).
  - rewrite andb_true_iff. intros [_ H]. eauto.
  - eauto.
Qed.

Lemma scan_tidy s : forall k prev pos,
  runs_ok k s = true -> scan blank_lines_re prev s pos 0 = map Keep s.
Proof.
  induction s as [|c s IH]; intros k prev pos H; cbn [scan].
  - rewrite at_blank_lines. reflexivity.
  - rewrite at_blank_lines.
    pose proof (runs_ok_newlines _ _ H) as Hn.
    destruct (3 <=? newlines (c :: s)) eqn:E;
      [apply Nat.leb_le in E; lia|].
    destruct (runs_ok_tail _ _ _ H) as [k' H'].
    simpl. rewrite (IH k') by exact H'. reflexivity.
Qed.

Lemma put_keep (f : Match -> str) s :
  flat_map (put_piece f) (map Keep s) = s.
Proof.
  induction s as [|c s IH]; [reflexivity|]. simpl. rewrite IH. reflexivity.
Qed.

Lemma runs_ok_complete s : forall k,
  k <= 2 ->
  (forall i, ~ occurs_at [nl; nl; nl] (repeat nl k ++ s) i) ->
  runs_ok k s = true.
Proof.
  induction s as [|c s IH]; intros k Hk H; simpl; [reflexivity|].
  destruct (Ascii.eqb c nl) eqn:E.
  - apply Ascii.eqb_eq in E as ->. apply andb_true_iff. split.
    + apply Nat.ltb_lt.
      destruct (Nat.eq_dec k 2) as [->|]; [|lia].
      exfalso. apply (H 0). exists [], s. split; reflexivity.
    + destruct (Nat.eq_dec k 2) as [->|].
      * exfalso. apply (H 0). exists [], s. split; reflexivity.
      * apply IH; [lia|]. intros i Hi. apply (H i).
        replace (repeat nl k ++ nl :: s) with (repeat nl (S k) ++ s);
          [exact Hi|].
        clear. induction k as [|k IHk]; simpl; [reflexivity|].
        f_equal. exact IHk.
  - apply (IH 0); [lia|]. intros i [pre [post [E1 E2]]].
    apply (H (length (repeat nl k ++ [c] ++ pre))).
    exists (repeat nl k ++ [c] ++ pre), post. split; [|reflexivity].
    simpl in E1. rewrite E1. rewrite <- !app_assoc. reflexivity.
Qed.

Lemma collapse_tidy (s : str) :
  runs_ok 0 s = true -> collapse_blank_lines s = s.
Proof.
  intros H. unfold collapse_blank_lines, sub.
  rewrite (scan_tidy s 0) by exact H. apply put_keep.
Qed.

(** X16. the rewrite of three or more newlines into two leaves a text
    without three consecutive newlines as it is, and so changes nothing
    when run a second time. *)
Theorem collapse_blank_lines_fixed (content : str) :
  ((forall i, ~ occurs_at [nl; nl; nl] content i) ->
   collapse_blank_lines content = content)
  /\ collapse_blank_lines (collapse_blank_lines content)
     = collapse_blank_lines content.
Proof.
  split.
  - intros H. apply collapse_tidy. apply runs_ok_complete; [lia | exact H].
  - apply collapse_tidy. apply (collapse_runs_ok (length content)); auto.
Qed.

Lemma collapse_blank_lines_fixed_witness :
  collapse_blank_lines (L "a" ++ [nl; nl] ++ L "b") = L "a" ++ [nl; nl] ++ L "b".
Proof.
  apply (proj1 (collapse_blank_lines_fixed (L "a" ++ [nl; nl] ++ L "b"))).
  apply contains_false. vm_compute. reflexivity.
Defined.

(** ** Fenced blocks *)

Lemma md_step_open (st : md_state) (line : str) :
  in_code_block st = false -> is_fence line = true ->
  md_step st line
  = set_code st true (Py.lower (skipn 3 (Py.strip line))) [].
Proof.
  unfold is_fence, md_step. intros Hc Hf. rewrite Hf, Hc. reflexivity.
Qed.

Lemma md_step_close (st : md_state) (line : str) :
  in_code_block st = true -> is_fence line = true ->
  md_step st line
  = set_code (emit st (fence_macro (code_lang st)
                                   (Py.join [nl] (code_content st))))
             false [] (code_content st).
Proof.
  unfold is_fence, md_step. intros Hc Hf. rewrite Hf, Hc. reflexivity.
Qed.

Lemma md_step_inside (st : md_state) (line : str) :
  in_code_block st = true -> is_fence line = false ->
  md_step st line
  = set_code st true (code_lang st) (code_content st ++ [line]).
Proof.
  unfold is_fence, md_step. intros Hc Hf. rewrite Hf, Hc. reflexivity.
Qed.

(** Inside a fenced block the lines are stored as they are. *)
Lemma fold_inside (body : list str) : forall st,
  in_code_block st = true ->
  Forall (fun x => is_fence x = false) body ->
  fold_left md_step body st
  = set_code st true (code_lang st) (code_content st ++ body).
Proof.
  induction body as [|x l IH]; intros st Hc Hb.
  - destruct st; simpl in *. subst. unfold set_code. simpl.
    rewrite app_nil_r. reflexivity.
  - inversion Hb; subst. simpl.
    rewrite md_step_inside by assumption.
    rewrite IH by (try assumption; reflexivity).
    unfold set_code. simpl. rewrite <- app_assoc. reflexivity.
Qed.



Lemma split_plain s sep :
  forallb (isnt sep) s = true -> Py.split s sep = [s].
Proof.
  induction s as [|c s IH]; simpl; [reflexivity|].
  intros H. apply andb_true_iff in H as [Hc Hs]. unfold isnt in Hc.
  apply negb_true_iff in Hc. rewrite Hc, IH by exact Hs. reflexivity.
Qed.

Lemma split_app x rest sep :
  forallb (isnt sep) x = true ->
  Py.split (x ++ sep :: rest) sep = x :: Py.split rest sep.
Proof.
  induction x as [|c x IH]; simpl; intros H.
  - rewrite Ascii.eqb_refl. reflexivity.
  - apply andb_true_iff in H as [Hc Hx]. unfold isnt in Hc.
    apply negb_true_iff in Hc. rewrite Hc, IH by exact Hx. reflexivity.
Qed.

(** Joining lines and splitting again gives the lines back. *)
Lemma split_join (l : list str) sep :
  l <> [] ->
  Forall (fun x => forallb (isnt sep) x = true) l ->
  Py.split (Py.join [sep] l) sep = l.
Proof.
  intros Hne H. induction H as [|x l Hx Hl IH]; [contradiction|].
  destruct l as [|y l].
  - simpl. apply split_plain, Hx.
  - change (Py.join [sep] (x :: y :: l))
      with (x ++ sep :: Py.join [sep] (y :: l)).
    rewrite split_app by exact Hx. rewrite IH by discriminate. reflexivity.
Qed.

Lemma fold_split_join (pre : list str) :
  Forall (fun x => forallb (isnt nl) x = true) pre ->
  fold_left md_step (Py.split (Py.join [nl] pre) nl) md_init
  = fold_left md_step pre md_init.
Proof.
  intros H. destruct pre as [|x l].
  - simpl. apply md_step_blank; [repeat split | reflexivity].
  - rewrite split_join by (discriminate || exact H). reflexivity.
Qed.

(** X18. a fence that is never closed takes the rest of the input with it:
    the result is the compilation of the text before the fence. *)
Theorem unclosed_fence_drops_rest
        (markdown_content open : str) (pre body : list str) :
  Py.split markdown_content nl = pre ++ open :: body ->
  in_code_block (fold_left md_step pre md_init) = false ->
  is_fence open = true ->
  Forall (fun x => is_fence x = false) body ->
  markdown_to_confluence markdown_content
  = markdown_to_confluence (Py.join [nl] pre).
Proof.
  intros Hs Hp Ho Hb.
  assert (Forall (fun x => forallb (isnt nl) x = true) pre) as Hpre.
  { pose proof (split_pieces markdown_content nl) as H. rewrite Hs in H.
    apply Forall_app in H. apply H. }
  unfold markdown_to_confluence. cbv zeta.
  rewrite (fold_split_join pre Hpre), Hs, fold_left_app.
  simpl fold_left. rewrite md_step_open by assumption.
  rewrite (fold_inside body) by (try assumption; reflexivity).
  clear. generalize (fold_left md_step pre md_init).
  intros [hl cb tb lb lt cl cc]. unfold set_code, emit. simpl.
  destruct tb, lb; reflexivity.
Qed.

Lemma unclosed_fence_drops_rest_witness :
  markdown_to_confluence unclosed_markdown = markdown_to_confluence (L "# T").
Proof.
  apply (unclosed_fence_drops_rest unclosed_markdown (L "```py")
                                   [L "# T"] [L "a < b"]).
  - vm_compute. reflexivity.
  - vm_compute. reflexivity.
  - reflexivity.
  - repeat constructor.
Defined.

(** ** Lists and tables are closed *)

Lemma count_emit (t : string) (ls : list str) (x : str) :
  count_line t (ls ++ [x]) = count_line t ls + one_if (Py.eqb x (L t)).
Proof.
  unfold count_line. rewrite filter_app, length_app. simpl.
  destruct (Py.eqb x (L t)); reflexivity.
Qed.

Lemma eqb_prefix_false (x t : str) :
  Py.startswith x t = false -> Py.eqb x t = false.
Proof. intros H. unfold Py.eqb. rewrite H. apply andb_false_r. Qed.

Ltac neutral_line :=
  let t := fresh "t" in
  let Ht := fresh "Ht" in
  intros t Ht; simpl in Ht;
  repeat (destruct Ht as [<-|Ht]; [apply eqb_prefix_false; reflexivity|]);
  destruct Ht.

Lemma neutral_fence_macro lang content : neutral (fence_macro lang content).
Proof.
  unfold fence_macro.
  destruct (Py.eqb lang (L "mermaid")); [neutral_line|].
  destruct (existsb _ _); neutral_line.
Qed.

Lemma balanced_emit (st : md_state) (x : str) :
  neutral x -> balanced st -> balanced (emit st x).
Proof.
  intros Hn [H1 [H2 [H3 H4]]]. unfold balanced, emit, is_list_type. simpl.
  rewrite !count_emit.
  rewrite !Hn by (simpl; auto 10). simpl. rewrite !Nat.add_0_r.
  auto.
Qed.

Lemma balanced_set_code (st : md_state) b lang content :
  balanced st -> balanced (set_code st b lang content).
Proof. intros H. exact H. Qed.

Lemma balanced_close_list (st : md_state) :
  balanced st -> in_list st = true ->
  balanced (set_list (emit st (close_list_tag (list_type st))) false None).
Proof.
  intros [H1 [H2 [H3 H4]]] Hl. unfold balanced, is_list_type in *.
  destruct st as [hl cb tb lb lt cl cc]. simpl in *. subst lb.
  rewrite !count_emit. destruct (H4 eq_refl) as [-> | ->]; simpl in *.
  - repeat split; try lia; try discriminate.
  - repeat split; try lia; try discriminate.
Qed.

Lemma balanced_open_list (st : md_state) (t : string) :
  t = "ul"%string \/ t = "ol"%string ->
  balanced st -> balanced (open_list st t).
Proof.
  intros Ht [H1 [H2 [H3 H4]]]. unfold open_list, balanced, is_list_type in *.
  destruct st as [hl cb tb lb lt cl cc]. simpl in *.
  destruct lb.
  - destruct (H4 eq_refl) as [-> | ->]; destruct Ht as [-> | ->]; simpl in *;
      rewrite ?count_emit; simpl; repeat split; auto; lia.
  - destruct Ht as [-> | ->]; simpl in *;
      rewrite ?count_emit; simpl; repeat split; auto; lia.
Qed.

Lemma balanced_open_table (st : md_state) :
  balanced st -> in_table st = false ->
  balanced (emit (set_table st true) (L "<table><tbody>")).
Proof.
  intros [H1 [H2 [H3 H4]]] Ht. unfold balanced, is_list_type in *.
  destruct st as [hl cb tb lb lt cl cc]. simpl in *. subst tb.
  rewrite !count_emit. simpl. repeat split; auto; lia.
Qed.

Lemma balanced_close_table (st : md_state) :
  balanced st -> in_table st = true ->
  balanced (emit (set_table st false) (L "</tbody></table>")).
Proof.
  intros [H1 [H2 [H3 H4]]] Ht. unfold balanced, is_list_type in *.
  destruct st as [hl cb tb lb lt cl cc]. simpl in *. subst tb.
  rewrite !count_emit. simpl. repeat split; auto; lia.
Qed.

Lemma in_table_emit st x : in_table (emit st x) = in_table st.
Proof. reflexivity. Qed.

Lemma in_table_set_list st b t : in_table (set_list st b t) = in_table st.
Proof. reflexivity. Qed.

Lemma in_table_open_list st t : in_table (open_list st t) = in_table st.
Proof.
  unfold open_list. destruct (negb (in_list st) || _); [|reflexivity].
  destruct (in_list st); reflexivity.
Qed.

(** Each line of the loop keeps the state balanced. *)
Lemma balanced_step (st : md_state) (line : str) :
  balanced st -> balanced (md_step st line).
Proof.
  intros H. unfold md_step.
  destruct (Py.startswith (Py.strip line) (L "```")).
  { destruct (negb (in_code_block st)); [exact H|].
    apply balanced_set_code, balanced_emit; [apply neutral_fence_macro|exact H]. }
  destruct (in_code_block st); [exact H|]. cbv zeta.
  set (is_ul := Py.startswith (Py.strip line) (L "- ")
                || Py.startswith (Py.strip line) (L "* ")).
  set (is_ol := match match_ ol_item_re (Py.strip line) with
                | Some _ => true | None => false end).
  assert (balanced
            (if in_list st && negb is_ul && negb is_ol
             then set_list (emit st (close_list_tag (list_type st))) false None
             else st)) as H1.
  { destruct (in_list st) eqn:El; [|exact H].
    destruct (negb is_ul), (negb is_ol); simpl; try exact H.
    apply balanced_close_list; assumption. }
  revert H1.
  generalize (if in_list st && negb is_ul && negb is_ol
              then set_list (emit st (close_list_tag (list_type st))) false None
              else st).
  clear H st. intros st H.
  destruct (Py.startswith (Py.strip line) (L "|")
            && Py.endswith (Py.strip line) (L "|")).
  { destruct (forallb _ _); [exact H|].
    destruct (in_table st) eqn:Et; simpl.
    - apply balanced_emit; [neutral_line | exact H].
    - apply balanced_emit; [neutral_line|].
      apply balanced_open_table; assumption. }
  assert (balanced
            (if in_table st
             then emit (set_table st false) (L "</tbody></table>")
             else st)) as H1.
  { destruct (in_table st) eqn:Et; [|exact H].
    apply balanced_close_table; assumption. }
  revert H1.
  generalize (if in_table st
              then emit (set_table st false) (L "</tbody></table>")
              else st).
  clear H st. intros st H.
  destruct (Py.strip (_process_inline_formats (Py.escape line)));
    [exact H|].
  repeat match goal with
         | |- balanced (if ?c then _ else _) => destruct c
         end;
    unfold heading_line;
    (apply balanced_emit;
     [ neutral_line
     | first [ exact H | apply balanced_open_list; [auto | exact H] ] ]).
Qed.

Lemma balanced_fold (lines : list str) : forall st,
  balanced st -> balanced (fold_left md_step lines st).
Proof.
  induction lines as [|x l IH]; intros st H; [exact H|].
  simpl. apply IH, balanced_step, H.
Qed.

Lemma balanced_init : balanced md_init.
Proof. unfold balanced. simpl. repeat split; discriminate. Qed.

(** X19. in the lines [markdown_to_confluence] joins, every list and every
    table that is opened is closed: there are as many [<ul>] as [</ul>]
    lines, as many [<ol>] as [</ol>] lines and as many [<table><tbody>]
    as [</tbody></table>] lines, whatever the input. *)
Theorem compiled_lines_balanced (markdown_content : str) :
  markdown_to_confluence markdown_content
  = Py.join [nl] (compiled_lines markdown_content)
  /\ count_line "<ul>" (compiled_lines markdown_content)
     = count_line "</ul>" (compiled_lines markdown_content)
  /\ count_line "<ol>" (compiled_lines markdown_content)
     = count_line "</ol>" (compiled_lines markdown_content)
  /\ count_line "<table><tbody>" (compiled_lines markdown_content)
     = count_line "</tbody></table>" (compiled_lines markdown_content).
Proof.
  split; [reflexivity|]. unfold compiled_lines. cbv zeta.
  pose proof (balanced_fold (Py.split markdown_content nl) md_init
                            balanced_init) as H.
  revert H. generalize (fold_left md_step (Py.split markdown_content nl)
                                  md_init).
  intros [hl cb tb lb lt cl cc] [H1 [H2 [H3 H4]]].
  unfold is_list_type in *. simpl in *.
  destruct tb, lb; simpl in *;
    try (destruct (H4 eq_refl) as [-> | ->]; simpl in * );
    rewrite ?count_emit; simpl; lia.
Qed.

(** ** Headings and paragraphs *)

Lemma among_false (chars : string) (a c : ascii) :
  among chars a = true -> among chars c = false -> Ascii.eqb c a = false.
Proof.
  intros Ha Hc. destruct (Ascii.eqb c a) eqn:E; [|reflexivity].
  apply Ascii.eqb_eq in E as ->. congruence.
Qed.

Lemma escape_plain s : plain_text s = true -> Py.escape s = s.
Proof.
  unfold plain_text, free_of. rewrite !andb_true_iff. intros [[H Hq] _].
  induction s as [|c s IH]; [reflexivity|]. simpl in *.
  apply andb_true_iff in H as [Hc H]. apply andb_true_iff in Hq as [Hd Hq].
  apply negb_true_iff in Hc. unfold isnt in Hd. apply negb_true_iff in Hd.
  unfold Py.escape in *. simpl. rewrite IH by assumption.
  unfold Py.escape_char.
  rewrite (among_false "![*`&<>'" "&" c eq_refl Hc),
    (among_false "![*`&<>'" "<" c eq_refl Hc),
    (among_false "![*`&<>'" ">" c eq_refl Hc), Hd,
    (among_false "![*`&<>'" "'" c eq_refl Hc).
  reflexivity.
Qed.

Lemma plain_free s : plain_text s = true -> free_of "![*`" s = true.
Proof.
  unfold plain_text, free_of. rewrite !andb_true_iff. intros [[H _] _].
  induction s as [|c s IH]; [reflexivity|]. simpl in *.
  apply andb_true_iff in H as [Hc H]. rewrite IH by exact H.
  rewrite andb_true_r. apply negb_true_iff in Hc. apply negb_true_iff.
  unfold among in *. simpl in *.
  repeat (apply orb_false_iff in Hc as [? Hc]).
  repeat (apply orb_false_iff; split); auto.
Qed.

Lemma plain_processed s :
  plain_text s = true -> _process_inline_formats (Py.escape s) = s.
Proof.
  intros H. rewrite escape_plain by exact H.
  apply inline_plain, plain_free, H.
Qed.

Lemma plain_single_line s : plain_text s = true -> Py.split s nl = [s].
Proof.
  unfold plain_text. rewrite !andb_true_iff. intros [_ H].
  apply split_plain, H.
Qed.

Lemma lstrip_snoc a c :
  Py.isspace c = false -> exists a', Py.lstrip (a ++ [c]) = a' ++ [c].
Proof.
  intros Hc. induction a as [|x a [a' IH]]; simpl.
  - rewrite Hc. exists []. reflexivity.
  - destruct (Py.isspace x); [exists a'; exact IH | exists (x :: a)].
    reflexivity.
Qed.

(** Trimming keeps a first character that is no whitespace. *)
Lemma strip_head c s :
  Py.isspace c = false -> exists r, Py.strip (c :: s) = c :: r.
Proof.
  intros Hc. unfold Py.strip, Py.rstrip. simpl Py.lstrip. rewrite Hc.
  simpl rev. destruct (lstrip_snoc (rev s) c Hc) as [a' ->].
  exists (rev a'). rewrite rev_app_distr. reflexivity.
Qed.

(** A line whose first character opens no block and that no processing
    changes becomes, from the initial state, what the chain of tests on
    its beginning says. *)
Lemma md_step_text (c : ascii) (rest : str) :
  plain_text (c :: rest) = true ->
  Py.isspace c = false ->
  Py.isdigit c = false ->
  among "|-" c = false ->
  let line := c :: rest in
  md_step md_init line
  = if Py.startswith line (L "# ") then heading_line md_init line 2 "h1"
    else if Py.startswith line (L "## ") then heading_line md_init line 3 "h2"
    else if Py.startswith line (L "### ") then heading_line md_init line 4 "h3"
    else if Py.startswith line (L "#### ") then
           heading_line md_init line 5 "h4"
    else if Py.startswith line (L "##### ") then
           heading_line md_init line 6 "h5"
    else if Py.startswith line (L "###### ") then
           heading_line md_init line 7 "h6"
    else emit md_init (L "<p>" ++ line ++ L "</p>").
Proof.
  intros Hp Hs Hd Hb line.
  pose proof (plain_free _ Hp) as Hf.
  assert (Hc : among "![*`&<>'" c = false).
  { unfold plain_text, free_of in Hp. simpl in Hp.
    rewrite !andb_true_iff in Hp. destruct Hp as [[[Hp _] _] _].
    apply negb_true_iff in Hp. exact Hp. }
  destruct (strip_head c rest Hs) as [r Hr].
  subst line. unfold md_step. cbv zeta.
  rewrite (plain_processed (c :: rest) Hp). rewrite !Hr.
  assert (E1 : Ascii.eqb "`" c = false)
    by (rewrite Ascii.eqb_sym; apply (among_false "![*`&<>'" "`" c eq_refl Hc)).
  assert (E2 : Ascii.eqb "*" c = false)
    by (rewrite Ascii.eqb_sym; apply (among_false "![*`&<>'" "*" c eq_refl Hc)).
  assert (E3 : Ascii.eqb "&" c = false)
    by (rewrite Ascii.eqb_sym; apply (among_false "![*`&<>'" "&" c eq_refl Hc)).
  assert (E4 : Ascii.eqb "|" c = false)
    by (rewrite Ascii.eqb_sym; apply (among_false "|-" "|" c eq_refl Hb)).
  assert (E5 : Ascii.eqb "-" c = false)
    by (rewrite Ascii.eqb_sym; apply (among_false "|-" "-" c eq_refl Hb)).
  assert (Hol : match_ ol_item_re (c :: r) = None).
  { unfold match_, at_, ol_item_re. simpl. rewrite Hd. reflexivity. }
  rewrite Hol.
  cbn [Py.startswith L list_ascii_of_string in_code_block in_list in_table
       md_init andb orb negb].
  rewrite E1, E2, E3, E4, E5. cbn [andb orb negb]. reflexivity.
Qed.

Lemma plain_cons c s :
  among "![*`&<>'" c = false -> Ascii.eqb c dq = false ->
  Ascii.eqb c nl = false ->
  plain_text s = true -> plain_text (c :: s) = true.
Proof.
  unfold plain_text, free_of, isnt. simpl. intros -> -> ->.
  simpl. auto.
Qed.

Lemma plain_heading_line n title :
  plain_text title = true ->
  plain_text (repeat "#"%char n ++ " "%char :: title) = true.
Proof.
  intros H. induction n as [|n IH]; simpl.
  - apply plain_cons; auto.
  - apply plain_cons; auto.
Qed.

(** The compilation of a single line that opens no block. *)
Lemma compile_text_line (c : ascii) (rest : str) :
  plain_text (c :: rest) = true ->
  Py.isspace c = false ->
  Py.isdigit c = false ->
  among "|-" c = false ->
  markdown_to_confluence (c :: rest)
  = Py.join [nl] (html_lines (md_step md_init (c :: rest))).
Proof.
  intros Hp Hs Hd Hb. unfold markdown_to_confluence. cbv zeta.
  rewrite (plain_single_line _ Hp). cbn [fold_left].
  rewrite (md_step_text c rest Hp Hs Hd Hb). cbv zeta.
  unfold heading_line.
  repeat match goal with
         | |- context [Py.startswith ?a ?b] => destruct (Py.startswith a b)
         end; reflexivity.
Qed.

(** X20. a line of one to six sharp signs, a blank and a title without
    markup compiles to the heading of that level around the title; with
    seven sharp signs or more it compiles to a paragraph that keeps the
    sharp signs. *)
Theorem heading_levels (n : nat) (title : str) :
  1 <= n ->
  plain_text title = true ->
  let line := repeat "#"%char n ++ " "%char :: title in
  markdown_to_confluence line
  = if n <=? 6
    then L "<" ++ heading_tag n ++ L ">" ++ title
           ++ L "</" ++ heading_tag n ++ L ">"
    else L "<p>" ++ line ++ L "</p>".
Proof.
  intros Hn Hp line. subst line.
  pose proof (plain_heading_line n title Hp) as Hl.
  destruct n as [|m]; [lia|]. cbn [repeat app] in *.
  rewrite (compile_text_line _ _ Hl) by reflexivity.
  rewrite (md_step_text _ _ Hl) by reflexivity. cbv zeta.
  do 6 (destruct m as [|m]; [reflexivity|]).
  reflexivity.
Qed.

Lemma heading_levels_witness :
  markdown_to_confluence (L "### Plan") = L "<h3>Plan</h3>".
Proof. apply (heading_levels 3 (L "Plan")); [lia | reflexivity]. Defined.

(** A line of text that opens no block compiles to one paragraph. *)
Lemma compile_paragraph (t : str) :
  plain_text t = true ->
  opens_paragraph t = true ->
  markdown_to_confluence t = L "<p>" ++ t ++ L "</p>".
Proof.
  intros Hp Ho. destruct t as [|c rest]; [discriminate|].
  unfold opens_paragraph in Ho. rewrite !andb_true_iff in Ho.
  destruct Ho as [[Hs Hm] Hd].
  apply negb_true_iff in Hs, Hm, Hd.
  assert (Hb : among "|-" c = false).
  { unfold among in *. simpl in *.
    apply orb_false_iff in Hm as [_ Hm]. exact Hm. }
  assert (Hh : Ascii.eqb "#" c = false).
  { rewrite Ascii.eqb_sym. apply (among_false "#|-" "#" c eq_refl Hm). }
  rewrite (compile_text_line c rest Hp Hs Hd Hb).
  rewrite (md_step_text c rest Hp Hs Hd Hb). cbv zeta.
  cbn [Py.startswith L list_ascii_of_string]. rewrite Hh. reflexivity.
Qed.

(** ** A compiled paragraph read back *)

Lemma forallb_any (s : str) : forallb any s = true.
Proof. induction s; [reflexivity | exact IHs]. Qed.

(** A lazy repetition stops at the first position where the rest of the
    pattern matches. *)
Lemma rep_lazy_until {R : Type} p (k : @cont R) b cs x :
  (forall prev', k prev' b cs = Some x) ->
  forall a n prev,
    forallb p a = true ->
    (forall a1 c a2 prev', a = a1 ++ c :: a2 ->
                           k prev' (c :: a2 ++ b) cs = None) ->
    rep false p 0 None n prev (a ++ b) cs k = Some x.
Proof.
  intros Hk. induction a as [|c a IH]; intros n prev Ha Hno.
  - destruct b as [|c b]; simpl; [apply Hk|].
    rewrite Hk. destruct (p c && true); reflexivity.
  - simpl in Ha. apply andb_true_iff in Ha as [Hc Ha].
    cbn [app rep below]. rewrite Hc. cbn [andb Nat.leb].
    rewrite (Hno [] c a prev eq_refl).
    apply IH; [exact Ha|].
    intros a1 c' a2 prev' E. apply (Hno (c :: a1) c' a2). rewrite E.
    reflexivity.
Qed.

Lemma forallb_split {A : Type} (p : A -> bool) (a1 a2 : list A) c :
  forallb p (a1 ++ c :: a2) = true -> p c = true.
Proof.
  rewrite forallb_app. simpl. rewrite !andb_true_iff. tauto.
Qed.

(** The paragraph pattern matches a whole compiled paragraph, its group
    the text between the tags. *)
Lemma at_paragraph (t : str) prev pos :
  forallb (isnt "<") t = true ->
  at_ (element_re "p") prev (L "<p>" ++ t ++ L "</p>") pos
  = Some {| start := pos; text := L "<p>" ++ t ++ L "</p>";
            groups := [(1, t)] |}.
Proof.
  intros Ht. unfold at_, element_re, star, lazy_star.
  cbn [Cats run L list_ascii_of_string app lit].
  rewrite !Ascii.eqb_refl. cbn [rep].
  change (isnt ">" ">") with false. cbn [andb Nat.leb].
  rewrite Ascii.eqb_refl.
  match goal with
  | |- match rep false any 0 None 0 ?pv (t ++ ?b) [] ?K with _ => _ end = _ =>
      rewrite (rep_lazy_until any K b [] ([], [(1, t)]))
  end.
  - cbn [length]. rewrite Nat.sub_0_r. cbn [firstn].
    rewrite firstn_all. reflexivity.
  - intros prev'. rewrite ReFacts.firstn_sub_app. reflexivity.
  - apply forallb_any.
  - intros a1 c a2 prev' E. rewrite E in Ht.
    apply forallb_split in Ht. unfold isnt in Ht.
    apply negb_true_iff in Ht. rewrite Ascii.eqb_sym, Ht. reflexivity.
Qed.

(** A scan passes over a prefix that holds nowhere the character every
    match begins with. *)
Lemma scan_keep_prefix c r a b :
  leads c r = true ->
  forallb (isnt c) a = true ->
  forall prev pos, exists prev' pos',
    scan r prev (a ++ b) pos 0 = map Keep a ++ scan r prev' b pos' 0.
Proof.
  intros Hl. induction a as [|x a IH]; intros Ha prev pos.
  - exists prev, pos. reflexivity.
  - simpl in Ha. apply andb_true_iff in Ha as [Hx Ha].
    cbn [app scan]. rewrite (at_none c); [|exact Hl|].
    + destruct (IH Ha (Some x) (S pos)) as [prev' [pos' ->]].
      exists prev', pos'. reflexivity.
    + unfold isnt in Hx. apply negb_true_iff in Hx. exact Hx.
Qed.

(** A pattern whose matches begin with [<] and that matches neither at
    the opening nor at the closing tag leaves a compiled paragraph as it
    is. *)
Lemma sub_paragraph_none r f (t : str) :
  leads "<" r = true ->
  forallb (isnt "<") t = true ->
  (forall prev pos, at_ r prev (L "<p>" ++ t ++ L "</p>") pos = None) ->
  (forall prev pos, at_ r prev (L "</p>") pos = None) ->
  sub r f (L "<p>" ++ t ++ L "</p>") = L "<p>" ++ t ++ L "</p>".
Proof.
  intros Hl Ht Ho Hc. unfold sub.
  assert (E : forall prev pos,
             scan r prev (L "<p>" ++ t ++ L "</p>") pos 0
             = map Keep (L "<p>" ++ t ++ L "</p>")).
  { intros prev pos.
    change (L "<p>" ++ t ++ L "</p>")
      with ("<"%char :: "p"%char :: ">"%char :: t ++ L "</p>") at 1.
    cbn [scan].
    change ("<"%char :: "p"%char :: ">"%char :: t ++ L "</p>")
      with (L "<p>" ++ t ++ L "</p>") at 1.
    rewrite Ho.
    rewrite (at_none "<" r _ ("p"%char :: _)) by (exact Hl || reflexivity).
    rewrite (at_none "<" r _ (">"%char :: _)) by (exact Hl || reflexivity).
    destruct (scan_keep_prefix "<" r t (L "</p>") Hl Ht (Some ">"%char)
                (S (S (S pos)))) as [prev' [pos' ->]].
    change (L "</p>") with ["<"%char; "/"%char; "p"%char; ">"%char].
    cbn [scan].
    change ["<"%char; "/"%char; "p"%char; ">"%char] with (L "</p>").
    rewrite Hc.
    rewrite (at_none "<" r _ ("/"%char :: _)) by (exact Hl || reflexivity).
    rewrite (at_none "<" r _ ("p"%char :: _)) by (exact Hl || reflexivity).
    rewrite (at_none "<" r _ (">"%char :: _)) by (exact Hl || reflexivity).
    rewrite (at_none "<" r _ []) by (exact Hl || exact I).
    cbn [L list_ascii_of_string app map]. rewrite map_app. reflexivity. }
  rewrite E. apply put_keep.
Qed.

Lemma sub_paragraph (t : str) :
  forallb (isnt "<") t = true ->
  sub (element_re "p") (fun m => group m 1 ++ [nl]) (L "<p>" ++ t ++ L "</p>")
  = t ++ [nl].
Proof.
  intros Ht. unfold sub.
  destruct (scan_hit_here (element_re "p") None 0
              {| start := 0; text := L "<p>" ++ t ++ L "</p>";
                 groups := [(1, t)] |}
              "<"%char ("p"%char :: ">"%char :: t ++ L "</p>") [])
    as [prev' [pos' E]].
  - rewrite app_nil_r. apply (at_paragraph t None 0 Ht).
  - reflexivity.
  - rewrite app_nil_r in E.
    change ("<"%char :: "p"%char :: ">"%char :: t ++ L "</p>")
      with (L "<p>" ++ t ++ L "</p>") in E.
    rewrite E. cbn [scan].
    rewrite (at_none "<" (element_re "p") _ []) by (reflexivity || exact I).
    cbn [flat_map put_piece group lookup groups Nat.eqb].
    rewrite app_nil_r. reflexivity.
Qed.

Lemma runs_ok_line (t : str) :
  forallb (isnt nl) t = true -> runs_ok 0 (t ++ [nl]) = true.
Proof.
  induction t as [|c t IH]; [reflexivity|]. simpl.
  rewrite andb_true_iff. intros [Hc Ht]. unfold isnt in Hc.
  apply negb_true_iff in Hc. rewrite Hc. apply IH, Ht.
Qed.

Lemma lstrip_id s : leading_space s = false -> Py.lstrip s = s.
Proof.
  destruct s as [|c s]; [reflexivity|]. simpl. intros ->. reflexivity.
Qed.

Lemma strip_line (t : str) :
  leading_space t = false -> trailing_space t = false ->
  Py.strip (t ++ [nl]) = t.
Proof.
  intros Hl Ht. unfold Py.strip, Py.rstrip.
  destruct t as [|c t].
  - reflexivity.
  - simpl in Hl. cbn [app Py.lstrip]. rewrite Hl.
    change (c :: t ++ [nl]) with ((c :: t) ++ [nl]).
    rewrite rev_app_distr. cbn [rev app Py.lstrip].
    change (Py.isspace nl) with true. cbv iota.
    change (rev t ++ [c]) with (rev (c :: t)).
    rewrite lstrip_id by exact Ht. apply rev_involutive.
Qed.

(** X21. a line of text without markup that opens no block compiles to one
    paragraph, and the decompiler gives the line back. *)
Theorem paragraph_round_trip (unescape : str -> str) (t : str) :
  plain_text t = true ->
  opens_paragraph t = true ->
  trailing_space t = false ->
  unescape (t ++ [nl]) = t ++ [nl] ->
  markdown_to_confluence t = L "<p>" ++ t ++ L "</p>"
  /\ confluence_to_markdown unescape (markdown_to_confluence t) = t.
Proof.
  intros Hp Ho Hts Hun.
  pose proof (compile_paragraph t Hp Ho) as Hc. split; [exact Hc|].
  rewrite Hc. clear Hc.
  assert (Ht : forallb (isnt "<") t = true).
  { apply (free_of_isnt "![*`&<>'"); [reflexivity|].
    unfold plain_text in Hp. rewrite !andb_true_iff in Hp. tauto. }
  assert (Hn : forallb (isnt nl) t = true).
  { unfold plain_text in Hp. rewrite !andb_true_iff in Hp. tauto. }
  assert (Hls : leading_space t = false).
  { destruct t as [|c t]; [reflexivity|]. simpl in *.
    rewrite !andb_true_iff in Ho. destruct Ho as [[Hs _] _].
    apply negb_true_iff in Hs. exact Hs. }
  unfold confluence_to_markdown, convert_heading. cbv zeta.
  repeat rewrite (sub_paragraph_none _ _ t) by
      first [reflexivity | exact Ht | intros; reflexivity].
  rewrite (sub_paragraph t Ht).
  rewrite (sub_none "<" tag_re);
    [|reflexivity
     |rewrite forallb_app, Ht; reflexivity].
  rewrite Hun.
  change (sub blank_lines_re (fun _ => [nl; nl]) (t ++ [nl]))
    with (collapse_blank_lines (t ++ [nl])).
  rewrite (collapse_tidy _ (runs_ok_line t Hn)).
  apply strip_line; assumption.
Qed.

Lemma paragraph_round_trip_witness :
  markdown_to_confluence (L "Status: done") = L "<p>Status: done</p>"
  /\ confluence_to_markdown (fun x => x)
       (markdown_to_confluence (L "Status: done"))
     = L "Status: done".
Proof.
  apply (paragraph_round_trip (fun x => x) (L "Status: done"));
    reflexivity.
Defined.

(** X22. [insert_content] puts the compiled Markdown directly in front of
    the page body for the position [prepend] and directly after it for
    any other position: a line of text goes in as one paragraph, and
    whitespace-only Markdown writes the page back as it was. *)
Theorem insert_content_keeps_page (doc markdown position : str) :
  (plain_text markdown = true -> opens_paragraph markdown = true ->
   insert_content (Some doc) markdown position
   = Update (if Py.eqb position (L "prepend")
             then L "<p>" ++ markdown ++ L "</p>" ++ doc
             else doc ++ L "<p>" ++ markdown ++ L "</p>"))
  /\ (forallb Py.isspace markdown = true ->
      insert_content (Some doc) markdown position = Update doc).
Proof.
  split.
  - intros Hp Ho. unfold insert_content.
    rewrite (compile_paragraph _ Hp Ho).
    destruct (Py.eqb _ _); [|reflexivity].
    rewrite <- !app_assoc. reflexivity.
  - intros H. unfold insert_content. rewrite (compile_blank _ H).
    destruct (Py.eqb _ _); [reflexivity | rewrite app_nil_r; reflexivity].
Qed.

Lemma insert_content_keeps_page_witness :
  insert_content (Some sample_page) (L "Done.") (L "append")
  = Update (sample_page ++ L "<p>Done.</p>")
  /\ insert_content (Some sample_page) [nl] (L "append") = Update sample_page.
Proof.
  split.
  - apply (proj1 (insert_content_keeps_page
                    sample_page (L "Done.") (L "append")));
      reflexivity.
  - apply (proj2 (insert_content_keeps_page sample_page [nl] (L "append"))).
    reflexivity.
Defined.

(** ** Images the scan recognises *)

(** A match of the image pattern is an image form. *)
Lemma md_image_inv prev s pos m :
  at_ md_image_re prev s pos = Some m ->
  exists a t rest,
    s = md_image a t ++ rest
    /\ forallb (isnt "]") a = true
    /\ t <> []
    /\ forallb (isnt ")") t = true
    /\ text m = md_image a t.
Proof.
  intros H. apply at_sound in H as [_ [M [rest E]]].
  remember (text m) as tx. remember (groups m) as gs. clear Heqtx Heqgs.
  cbv [md_image_re Cats star plus] in M. invert_matches.
  match goal with
  | Ha : forallb (isnt "]") ?a = true, Ht : forallb (isnt ")") ?t = true
    |- _ =>
      exists a, t, rest; repeat split; try assumption; try reflexivity;
      intros ->; simpl in *; lia
  end.
Qed.

(** The matches of a scan begin at or after the place where it is. *)
Lemma scan_hit_from r s : forall prev pos skip m,
  In (Hit m) (scan r prev s pos skip) -> pos + skip <= start m.
Proof.
  induction s as [|c s IH]; intros prev pos skip m; simpl.
  - destruct skip; [|intros []].
    destruct (at_ r prev [] pos) as [m0|] eqn:E; [|intros []].
    intros [[= ->]|[]]. apply ReFacts.at_inv in E as [-> _]. lia.
  - destruct skip as [|k].
    + destruct (at_ r prev (c :: s) pos) as [m0|] eqn:E.
      * assert (here : Hit m0 = Hit m -> pos + 0 <= start m).
        { intros [= ->]. apply ReFacts.at_inv in E as [-> _]. lia. }
        destruct (length (text m0)).
        -- intros [H|[H|H]]; [apply here, H | discriminate |].
           apply IH in H. lia.
        -- intros [H|H]; [apply here, H|]. apply IH in H. lia.
      * intros [H|H]; [discriminate|]. apply IH in H. lia.
    + intros H. apply IH in H. lia.
Qed.

(** Passing over the characters of a match, with the offset reached. *)
Lemma scan_skip_to r a b : forall prev pos,
  exists prev',
    scan r prev (a ++ b) pos (length a) = scan r prev' b (pos + length a) 0.
Proof.
  induction a as [|c a IH]; intros prev pos; simpl.
  - exists prev. rewrite Nat.add_0_r. reflexivity.
  - destruct (IH (Some c) (S pos)) as [prev' ->]. exists prev'.
    f_equal. lia.
Qed.

Lemma in_split_first (c : ascii) (s : str) :
  In c s -> exists a b, s = a ++ c :: b /\ forallb (isnt c) a = true.
Proof.
  induction s as [|x s IH]; [intros []|].
  destruct (Ascii.eqb x c) eqn:E.
  - apply Ascii.eqb_eq in E as ->. intros _. exists [], s. auto.
  - intros [->|H]; [rewrite Ascii.eqb_refl in E; discriminate|].
    destruct (IH H) as [a [b [-> Ha]]]. exists (x :: a), b.
    simpl. unfold isnt at 1. rewrite E, Ha. auto.
Qed.

(** The shape of a text that an image form, begun in it, runs beyond,
    when an exclamation mark follows the text. *)
Lemma overlap_shape (pre y a t rest : str) :
  pre ++ "!"%char :: y = md_image a t ++ rest ->
  length pre < length (md_image a t) ->
  forallb (isnt "]") a = true ->
  forallb (isnt ")") t = true ->
  pre = []
  \/ (exists a1, pre = L "![" ++ a1 /\ forallb (isnt "]") a1 = true)
  \/ (exists t1,
         pre = L "![" ++ a ++ L "](" ++ t1 /\ forallb (isnt ")") t1 = true).
Proof.
  unfold md_image. rewrite <- !app_assoc. cbn [L list_ascii_of_string app].
  intros E Hlen Ha Ht.
  destruct pre as [|p1 pre]; [auto|]. right.
  injection E as -> E.
  destruct pre as [|p2 pre]; [discriminate|].
  injection E as -> E.
  apply app_eq_app in E as [l [[-> E]|[-> E]]].
  - destruct l as [|x l].
    + left. exists a. rewrite app_nil_r. auto.
    + injection E as <- E.
      destruct l as [|x l]; [discriminate|]. injection E as <- E.
      apply app_eq_app in E as [l' [[-> E]|[-> E]]].
      * right. exists l. split; [reflexivity|].
        rewrite forallb_app in Ht. apply andb_true_iff in Ht as [Ht _].
        exact Ht.
      * exfalso. destruct l' as [|x l']; [discriminate|].
        repeat first [rewrite length_app in Hlen
                     | progress cbn [length] in Hlen].
        lia.
  - left. exists pre. split; [reflexivity|].
    rewrite forallb_app in Ha. apply andb_true_iff in Ha as [Ha _]. exact Ha.
Qed.

Lemma md_image_length a t : length (md_image a t) = 5 + length a + length t.
Proof.
  unfold md_image.
  repeat first [rewrite length_app | progress cbn [length L list_ascii_of_string]].
  lia.
Qed.

(** A text of one of these shapes, before an image form, begins an image
    form that runs beyond it. *)
Lemma overlap_match (pre alt target post : str) prev pos :
  (exists a1, pre = L "![" ++ a1 /\ forallb (isnt "]") a1 = true)
  \/ (exists a1 t1,
         pre = L "![" ++ a1 ++ L "](" ++ t1
         /\ forallb (isnt "]") a1 = true /\ forallb (isnt ")") t1 = true) ->
  forallb (isnt "]") alt = true ->
  target <> [] ->
  forallb (isnt ")") target = true ->
  exists m,
    at_ md_image_re prev (pre ++ md_image alt target ++ post) pos = Some m
    /\ length pre < length (text m).
Proof.
  intros [[a1 [-> Ha1]]|[a1 [t1 [-> [Ha1 Ht1]]]]] Halt Hne Htarget.
  - replace ((L "![" ++ a1) ++ md_image alt target ++ post)
      with (md_image (a1 ++ L "![" ++ alt) target ++ post)
      by (unfold md_image; rewrite <- !app_assoc; reflexivity).
    rewrite at_md_image; [| |exact Hne|exact Htarget].
    + eexists. split; [reflexivity|]. cbn [text].
      rewrite md_image_length.
      repeat first [rewrite length_app
                   | progress cbn [length L list_ascii_of_string]].
      lia.
    + rewrite !forallb_app, Ha1, Halt. reflexivity.
  - destruct (in_split_first ")"%char (md_image alt target ++ post))
      as [u [v [E Hu]]].
    { unfold md_image. rewrite !in_app_iff. left. right. right. right.
      right. left. reflexivity. }
    rewrite E.
    replace ((L "![" ++ a1 ++ L "](" ++ t1) ++ u ++ ")"%char :: v)
      with (md_image a1 (t1 ++ u) ++ v)
      by (unfold md_image; rewrite <- !app_assoc; reflexivity).
    rewrite at_md_image; [|exact Ha1| |].
    + eexists. split; [reflexivity|]. cbn [text].
      rewrite md_image_length.
      repeat first [rewrite length_app
                   | progress cbn [length L list_ascii_of_string]].
      lia.
    + destruct u as [|x u]; [|destruct t1; discriminate].
      unfold md_image in E. discriminate.
    + rewrite forallb_app, Ht1, Hu. reflexivity.
Qed.

(** Whether the image pattern matches where a text followed by an image
    form begins does not depend on the alt text of that form. *)
Lemma at_md_image_alt (pre alt alt' target post : str) prev pos :
  forallb (isnt "]") alt = true ->
  target <> [] ->
  forallb (isnt ")") target = true ->
  pre <> [] ->
  at_ md_image_re prev (pre ++ md_image alt target ++ post) pos = None ->
  at_ md_image_re prev (pre ++ md_image alt' target ++ post) pos = None.
Proof.
  intros Halt Hne Htarget Hpre Hnone.
  destruct (at_ md_image_re prev (pre ++ md_image alt' target ++ post) pos)
    as [m|] eqn:E; [exfalso|reflexivity].
  apply md_image_inv in E as [a [t [rest [E [Ha [Hn [Ht Em]]]]]]].
  destruct (Nat.le_gt_cases (length (md_image a t)) (length pre)) as [Hle|Hgt].
  - apply app_eq_app in E as [l [[-> E]|[E1 E]]].
    + rewrite <- app_assoc in Hnone.
      rewrite (at_md_image prev pos a t _ Ha Hn Ht) in Hnone. discriminate.
    + rewrite E1, length_app in Hle. destruct l; [|simpl in Hle; lia].
      rewrite app_nil_r in E1. rewrite <- E1 in Hnone.
      rewrite (at_md_image prev pos a t _ Ha Hn Ht) in Hnone. discriminate.
  - change (md_image alt' target ++ post)
      with ("!"%char :: (L "[" ++ alt' ++ L "](" ++ target ++ L ")") ++ post)
      in E.
    destruct (overlap_shape _ _ _ _ _ E Hgt Ha Ht) as [->|[H|[t1 [H1 H2]]]];
      [contradiction| |].
    + destruct (overlap_match pre alt target post prev pos (or_introl H)
                              Halt Hne Htarget) as [m' [Hm' _]].
      congruence.
    + destruct (overlap_match pre alt target post prev pos
                  (or_intror (ex_intro _ a (ex_intro _ t1
                     (conj H1 (conj Ha H2))))) Halt Hne Htarget)
        as [m' [Hm' _]].
      congruence.
Qed.
(** The scan of a blind pattern does not depend on the character before
    the subject. *)
Lemma scan_blind_eq (r : regex) :
  blind r = true ->
  forall s prev prev' pos skip,
    scan r prev' s pos skip = scan r prev s pos skip.
Proof.
  intros Hb.
  assert (Hat : forall prev prev' s pos,
             at_ r prev' s pos = at_ r prev s pos).
  { intros prev prev' s pos. rewrite (at_blind r prev prev' s pos pos Hb).
    destruct (at_ r prev s pos) as [m|] eqn:E; [|reflexivity].
    apply ReFacts.at_inv in E as [<- _]. destruct m; reflexivity. }
  induction s as [|c s IH]; intros prev prev' pos skip; cbn [scan].
  - rewrite (Hat prev prev'). reflexivity.
  - rewrite (Hat prev prev'). reflexivity.
Qed.

(** The scan at the head of an image form. *)
Lemma scan_image_head (a t rest : str) prev pos :
  forallb (isnt "]") a = true ->
  t <> [] ->
  forallb (isnt ")") t = true ->
  scan md_image_re prev (md_image a t ++ rest) pos 0
  = Hit {| start := pos; text := md_image a t; groups := [(2, t); (1, a)] |}
      :: scan md_image_re prev rest (pos + length (md_image a t)) 0.
Proof.
  intros Ha Hn Ht.
  pose proof (at_md_image prev pos a t rest Ha Hn Ht) as Hat.
  change (md_image a t ++ rest)
    with ("!"%char :: (L "[" ++ a ++ L "](" ++ t ++ L ")") ++ rest) in *.
  cbn [scan]. rewrite Hat. cbn [text].
  change (md_image a t) with ("!"%char :: (L "[" ++ a ++ L "](" ++ t ++ L ")")).
  cbn [length].
  destruct (scan_skip_to md_image_re (L "[" ++ a ++ L "](" ++ t ++ L ")") rest
                         (Some "!"%char) (S pos)) as [prev' ->].
  rewrite (scan_blind_eq md_image_re eq_refl rest prev prev').
  do 2 f_equal. lia.
Qed.

Lemma image_template_tag pos a t :
  image_template {| start := pos; text := md_image a t;
                    groups := [(2, t); (1, a)] |}
  = image_tag t.
Proof. reflexivity. Qed.

(** Where the scan recognises an image form [![alt](target)], the text
    before it is scanned as it is on its own, whatever the alt text. *)
Lemma scan_image_split (alt alt' target post : str) :
  forallb (isnt "]") alt = true ->
  forallb (isnt "]") alt' = true ->
  target <> [] ->
  forallb (isnt ")") target = true ->
  forall n pre,
    length pre <= n ->
    forall prev pos,
      (exists m,
          In (Hit m) (scan md_image_re prev
                           (pre ++ md_image alt target ++ post) pos 0)
          /\ start m = pos + length pre) ->
      flat_map (put_piece image_template)
               (scan md_image_re prev (pre ++ md_image alt target ++ post)
                     pos 0)
      = flat_map (put_piece image_template) (scan md_image_re prev pre pos 0)
          ++ image_tag target ++ sub md_image_re image_template post
      /\ flat_map (put_piece image_template)
                  (scan md_image_re prev
                        (pre ++ md_image alt' target ++ post) pos 0)
         = flat_map (put_piece image_template)
                    (scan md_image_re prev pre pos 0)
             ++ image_tag target ++ sub md_image_re image_template post.
Proof.
  intros Halt Halt' Hne Htarget.
  assert (base : forall prev pos a,
             forallb (isnt "]") a = true ->
             flat_map (put_piece image_template)
                      (scan md_image_re prev
                            ([] ++ md_image a target ++ post) pos 0)
             = flat_map (put_piece image_template)
                        (scan md_image_re prev [] pos 0)
                 ++ image_tag target ++ sub md_image_re image_template post).
  { intros prev pos a Ha.
    exact (scan_md_image [] a target post eq_refl Ha Hne Htarget prev pos). }
  induction n as [|n IH]; intros pre Hn prev pos [m [Hin Hstart]].
  - destruct pre; [|simpl in Hn; lia]. split; apply base; assumption.
  - destruct pre as [|c pre]; [split; apply base; assumption|].
    destruct (at_ md_image_re prev ((c :: pre) ++ md_image alt target ++ post)
                  pos) as [m0|] eqn:A.
    + pose proof A as A'.
      apply md_image_inv in A' as [a [t [rest [E [Ha [Hn' [Ht Em]]]]]]].
      pose proof (md_image_length a t) as Hl.
      destruct (Nat.le_gt_cases (length (md_image a t)) (length (c :: pre)))
        as [Hle|Hgt].
      * assert (exists l, c :: pre = md_image a t ++ l) as [l El].
        { apply app_eq_app in E as [l [[E1 _]|[E1 _]]]; [eauto|].
          rewrite E1, length_app in Hle.
          destruct l; [|simpl in Hle; lia].
          exists []. rewrite app_nil_r in *. auto. }
        clear A E. rewrite El in *. clear El.
        rewrite <- !app_assoc in *.
        rewrite !scan_image_head in * by assumption.
        cbn [flat_map put_piece]. rewrite !image_template_tag.
        rewrite length_app in Hn, Hstart.
        apply in_inv in Hin as [Hin|Hin].
        { inversion Hin; subst m. cbn [start] in Hstart. lia. }
        destruct (IH l ltac:(lia) prev (pos + length (md_image a t)))
          as [I1 I2].
        { exists m. split; [exact Hin | lia]. }
        rewrite I1, I2. rewrite <- !app_assoc. split; reflexivity.
      * exfalso.
        pose proof (ReFacts.at_inv _ _ _ _ _ A) as [Hs0 _].
        cbn [app scan] in Hin. cbn [app] in A. rewrite A in Hin.
        rewrite Em, Hl in Hin. cbn [Nat.add] in Hin.
        cbn [length] in Hgt, Hstart.
        apply in_inv in Hin as [Hin|Hin].
        -- inversion Hin; subst m0. lia.
        -- apply scan_hit_from in Hin. lia.
    + assert (A2 : at_ md_image_re prev (c :: pre) pos = None).
      { destruct (at_ md_image_re prev (c :: pre) pos) as [m1|] eqn:B;
          [|reflexivity].
        apply md_image_inv in B as [a [t [rest [E [Ha [Hn' [Ht _]]]]]]].
        rewrite E, <- app_assoc in A.
        rewrite (at_md_image prev pos a t _ Ha Hn' Ht) in A. discriminate. }
      assert (A3 : at_ md_image_re prev
                       ((c :: pre) ++ md_image alt' target ++ post) pos
                   = None).
      { apply at_md_image_alt with alt; try assumption. discriminate. }
      cbn [app] in A, A3, Hin |- *. cbn [scan] in Hin |- *.
      rewrite A in Hin |- *. rewrite A2, A3.
      cbn [flat_map put_piece app].
      apply in_inv in Hin as [Hin|Hin]; [discriminate|].
      cbn [length] in Hn, Hstart.
      destruct (IH pre ltac:(lia) (Some c) (S pos)) as [I1 I2].
      { exists m. split; [exact Hin | lia]. }
      rewrite I1, I2. split; reflexivity.
Qed.

(** The inline processor on a line with a recognised image form: the
    image tag of the target stands between the rewrites of the text
    before and of the text after the form, and the alt text has no part
    in the output. *)
Lemma image_alt_dropped (pre alt target post : str) :
  forallb (isnt "]") alt = true ->
  target <> [] ->
  forallb (isnt ")") target = true ->
  recognised md_image_re (pre ++ md_image alt target ++ post) (length pre) ->
  sub md_image_re image_template (pre ++ md_image alt target ++ post)
  = sub md_image_re image_template pre ++ image_tag target
      ++ sub md_image_re image_template post
  /\ (forall alt',
         forallb (isnt "]") alt' = true ->
         _process_inline_formats (pre ++ md_image alt' target ++ post)
         = _process_inline_formats (pre ++ md_image alt target ++ post)).
Proof.
  intros Halt Hne Htarget [m [Hin Hstart]].
  unfold finditer in Hin. apply ReFacts.in_hits in Hin.
  split.
  - apply (scan_image_split alt alt target post Halt Halt Hne Htarget
                            (length pre) pre (le_n _) None 0).
    exists m. auto.
  - intros alt' Halt'. unfold _process_inline_formats.
    destruct (scan_image_split alt alt' target post Halt Halt' Hne Htarget
                               (length pre) pre (le_n _) None 0)
      as [I1 I2]; [exists m; auto|].
    change (sub md_image_re image_template
                (pre ++ md_image alt target ++ post)
            = sub md_image_re image_template pre ++ image_tag target
                ++ sub md_image_re image_template post) in I1.
    change (sub md_image_re image_template
                (pre ++ md_image alt' target ++ post)
            = sub md_image_re image_template pre ++ image_tag target
                ++ sub md_image_re image_template post) in I2.
    rewrite I1, I2. reflexivity.
Qed.
(** ** Images in a compiled line *)

Lemma escape_app (a b : str) : Py.escape (a ++ b) = Py.escape a ++ Py.escape b.
Proof. apply flat_map_app. Qed.

Lemma escape_md_image (pre alt target post : str) :
  Py.escape (pre ++ md_image alt target ++ post)
  = Py.escape pre ++ md_image (Py.escape alt) (Py.escape target)
      ++ Py.escape post.
Proof.
  unfold md_image. rewrite !escape_app, <- !app_assoc. reflexivity.
Qed.

(** Escaping brings in neither a bracket nor a parenthesis. *)
Lemma escape_keeps (c : ascii) (s : str) :
  among "&ltgamp;quo#x27" c = false ->
  forallb (isnt c) s = true -> forallb (isnt c) (Py.escape s) = true.
Proof.
  intros Hc. induction s as [|x s IH]; [reflexivity|].
  simpl. rewrite andb_true_iff. intros [Hx Hs].
  change (Py.escape (x :: s)) with (Py.escape_char x ++ Py.escape s).
  rewrite forallb_app, (IH Hs), andb_true_r.
  assert (G : forall t : string,
             forallb (among "&ltgamp;quo#x27") (L t) = true ->
             forallb (isnt c) (L t) = true).
  { intros t. induction (L t) as [|y l IHl]; [reflexivity|]. simpl.
    rewrite !andb_true_iff. intros [Hy Hl]. split; [|apply IHl, Hl].
    unfold isnt. apply negb_true_iff.
    destruct (Ascii.eqb y c) eqn:E; [|reflexivity].
    apply Ascii.eqb_eq in E as ->. congruence. }
  unfold Py.escape_char.
  repeat match goal with
         | |- context [if ?b then _ else _] => destruct b
         end;
    try (apply G; reflexivity).
  simpl. rewrite Hx. reflexivity.
Qed.

Lemma escape_nonempty (s : str) : s <> [] -> Py.escape s <> [].
Proof.
  destruct s as [|x s]; [contradiction|]. intros _.
  change (Py.escape (x :: s)) with (Py.escape_char x ++ Py.escape s).
  unfold Py.escape_char.
  repeat match goal with
         | |- context [if ?b then _ else _] => destruct b
         end; discriminate.
Qed.

(** What [strip] leaves of a text whose two ends hold a character that
    is no whitespace. *)
Lemma lstrip_keeps (c : ascii) (s : str) :
  Py.isspace c = false -> In c s -> In c (Py.lstrip s).
Proof.
  intros Hc. induction s as [|x s IH]; [intros []|].
  intros H. simpl. destruct (Py.isspace x) eqn:E; [|exact H].
  destruct H as [->|H]; [congruence | apply IH, H].
Qed.

Lemma lstrip_app (a x : str) :
  Py.lstrip a <> [] -> Py.lstrip (a ++ x) = Py.lstrip a ++ x.
Proof.
  induction a as [|c a IH]; [contradiction|]. simpl.
  destruct (Py.isspace c); [exact IH | reflexivity].
Qed.

Lemma rstrip_app (y b : str) :
  Py.rstrip b <> [] -> Py.rstrip (y ++ b) = y ++ Py.rstrip b.
Proof.
  unfold Py.rstrip. intros H. rewrite rev_app_distr, lstrip_app.
  - rewrite rev_app_distr, rev_involutive. reflexivity.
  - intros E. apply H. rewrite E. reflexivity.
Qed.

Lemma strip_around (a m b : str) :
  Py.lstrip a <> [] -> Py.rstrip b <> [] ->
  Py.strip (a ++ m ++ b) = Py.lstrip a ++ m ++ Py.rstrip b.
Proof.
  intros Ha Hb. unfold Py.strip. rewrite (lstrip_app a _ Ha).
  rewrite app_assoc, (rstrip_app _ b Hb), <- app_assoc. reflexivity.
Qed.

(** A test on the beginning of a text is settled before a character that
    the tested text does not hold. *)
Lemma startswith_decided (c : ascii) (t : str) :
  forallb (isnt c) t = true ->
  forall p x, In c p -> Py.startswith (p ++ x) t = Py.startswith p t.
Proof.
  induction t as [|a t IH]; intros Ht p x Hin; [reflexivity|].
  simpl in Ht. apply andb_true_iff in Ht as [Ha Ht].
  destruct p as [|y p]; [destruct Hin|]. simpl.
  destruct (Ascii.eqb a y) eqn:E; [|reflexivity]. simpl.
  apply IH; [exact Ht|]. destruct Hin as [->|Hin]; [|exact Hin].
  apply Ascii.eqb_eq in E as ->. unfold isnt in Ha.
  rewrite Ascii.eqb_refl in Ha. discriminate.
Qed.

Section Decided.
Context {R : Type}.
Variable c : ascii.
Variables x x' : str.

(** A repetition over a class without [c], before a text that holds
    [c]: whether it fails is settled by what follows it. *)
Lemma rep_decided g (p : ascii -> bool) lo hi (k : @cont R) cs :
  p c = false ->
  (forall prev b,
      In c b -> fails (k prev (b ++ x) cs) = fails (k prev (b ++ x') cs)) ->
  forall b n prev,
    In c b ->
    fails (rep g p lo hi n prev (b ++ x) cs k)
    = fails (rep g p lo hi n prev (b ++ x') cs k).
Proof.
  intros Hc Hk. induction b as [|y b IH]; intros n prev Hin; [destruct Hin|].
  cbn [app rep].
  pose proof (Hk prev (y :: b) Hin) as Hy. cbn [app] in Hy.
  destruct (p y && below hi n) eqn:E.
  - assert (Hb : In c b).
    { destruct Hin as [->|Hin]; [|exact Hin].
      rewrite Hc in E. discriminate. }
    specialize (IH (S n) (Some y) Hb).
    destruct g.
    + destruct (rep true p lo hi (S n) (Some y) (b ++ x) cs k),
        (rep true p lo hi (S n) (Some y) (b ++ x') cs k);
        try discriminate; [reflexivity|].
      destruct (lo <=? n); [exact Hy | reflexivity].
    + destruct (lo <=? n).
      * destruct (k prev (y :: b ++ x) cs), (k prev (y :: b ++ x') cs);
          try discriminate; [reflexivity | exact IH].
      * exact IH.
  - destruct (lo <=? n); [exact Hy | reflexivity].
Qed.
End Decided.

(** Whether a line is taken for a numbered item is settled before its
    first exclamation mark. *)
Lemma ol_item_decided (p x x' : str) :
  In "!"%char p ->
  fails (match_ ol_item_re (p ++ x)) = fails (match_ ol_item_re (p ++ x')).
Proof.
  intros Hin. unfold match_, at_.
  assert (G : fails (run ol_item_re None (p ++ x) []
                         (fun _ s' cs => Some (s', cs)))
              = fails (run ol_item_re None (p ++ x') []
                           (fun _ s' cs => Some (s', cs)))).
  { unfold ol_item_re, plus. cbn [Cats run].
    apply (rep_decided "!"%char); [reflexivity| |exact Hin].
    intros prev b Hb. destruct b as [|y b]; [destruct Hb|].
    cbn [app L list_ascii_of_string lit].
    destruct (Ascii.eqb "." y) eqn:E; [|reflexivity].
    destruct Hb as [->|Hb]; [discriminate|].
    destruct b as [|z b]; [destruct Hb|]. cbn [app].
    destruct (Py.isspace z); reflexivity. }
  destruct (run ol_item_re None (p ++ x) [] _) as [[? ?]|],
    (run ol_item_re None (p ++ x') [] _) as [[? ?]|];
    try discriminate; reflexivity.
Qed.

(** The trimmed line of an image form: what comes before the alt text
    and what comes after the target do not depend on them. *)
Lemma strip_image_line (pre alt target post : str) :
  exists p q,
    In "!"%char p /\ In ")"%char (rev q)
    /\ forall a,
        Py.strip (pre ++ md_image a target ++ post)
        = p ++ (a ++ L "](" ++ target) ++ q.
Proof.
  exists (Py.lstrip (pre ++ L "![")), (Py.rstrip (L ")" ++ post)).
  assert (Hp : In "!"%char (Py.lstrip (pre ++ L "!["))).
  { apply lstrip_keeps; [reflexivity|]. apply in_app_iff. right.
    left. reflexivity. }
  assert (Hq : In ")"%char (rev (Py.rstrip (L ")" ++ post)))).
  { unfold Py.rstrip. rewrite rev_involutive.
    apply lstrip_keeps; [reflexivity|]. apply in_rev.
    rewrite rev_involutive. left. reflexivity. }
  split; [exact Hp|]. split; [exact Hq|]. intros a.
  rewrite <- strip_around.
  - unfold md_image. rewrite <- !app_assoc. reflexivity.
  - intros E. rewrite E in Hp. destruct Hp.
  - intros E. rewrite E in Hq. destruct Hq.
Qed.

(** One step of the compiler on two lines that its tests do not tell
    apart and that the inline processor renders alike. *)
Lemma md_step_same (st : md_state) (l l' : str) :
  in_code_block st = false ->
  is_fence l = false ->
  is_table_row l = false ->
  Py.strip l' = Py.strip l
  \/ (is_fence l' = is_fence l
      /\ is_table_row l' = is_table_row l
      /\ Py.startswith (Py.strip l') (L "- ")
         = Py.startswith (Py.strip l) (L "- ")
      /\ Py.startswith (Py.strip l') (L "* ")
         = Py.startswith (Py.strip l) (L "* ")
      /\ fails (match_ ol_item_re (Py.strip l'))
         = fails (match_ ol_item_re (Py.strip l))) ->
  _process_inline_formats (Py.escape l')
  = _process_inline_formats (Py.escape l) ->
  md_step st l' = md_step st l.
Proof.
  intros Hc Hf Ht Htests HE.
  assert (T : is_fence l' = false /\ is_table_row l' = false
              /\ Py.startswith (Py.strip l') (L "- ")
                 = Py.startswith (Py.strip l) (L "- ")
              /\ Py.startswith (Py.strip l') (L "* ")
                 = Py.startswith (Py.strip l) (L "* ")
              /\ fails (match_ ol_item_re (Py.strip l'))
                 = fails (match_ ol_item_re (Py.strip l))).
  { destruct Htests as [E|[E1 [E2 [E3 [E4 E5]]]]].
    - unfold is_fence, is_table_row in *. rewrite E. auto.
    - rewrite E1, E2. auto. }
  destruct T as [Hf' [Ht' [E3 [E4 E5]]]].
  unfold is_fence, is_table_row in Hf, Ht, Hf', Ht'.
  unfold md_step. rewrite Hf, Hf', Hc. cbv zeta.
  rewrite Ht, Ht', E3, E4, HE.
  destruct (match_ ol_item_re (Py.strip l')),
    (match_ ol_item_re (Py.strip l)); try discriminate; reflexivity.
Qed.
(** The tests of the compiler on a line do not see the alt text of an
    image form in it. *)
Lemma image_line_tests (pre alt alt' target post : str) :
  let l := pre ++ md_image alt target ++ post in
  let l' := pre ++ md_image alt' target ++ post in
  is_fence l' = is_fence l
  /\ is_table_row l' = is_table_row l
  /\ Py.startswith (Py.strip l') (L "- ") = Py.startswith (Py.strip l) (L "- ")
  /\ Py.startswith (Py.strip l') (L "* ") = Py.startswith (Py.strip l) (L "* ")
  /\ fails (match_ ol_item_re (Py.strip l'))
     = fails (match_ ol_item_re (Py.strip l)).
Proof.
  intros l l'. subst l l'.
  destruct (strip_image_line pre alt target post) as [p [q [Hp [Hq E]]]].
  unfold is_fence, is_table_row, Py.endswith. rewrite !E.
  rewrite !(startswith_decided "!"%char) by (reflexivity || exact Hp).
  rewrite !rev_app_distr, <- !app_assoc.
  rewrite !(startswith_decided ")"%char) by (reflexivity || exact Hq).
  repeat split. apply ol_item_decided, Hp.
Qed.



